(** * MarkVoid: the cross-line selection engine, the range edits and the
      undo/redo history of [src/app.js], embedded in Rocq.

    The editor keeps its document in module-level variables ([lines],
    [ksel], [undoStack], [redoStack], ...).  They are gathered here in one
    record, [State], that every operation takes and returns.  JavaScript
    numbers that hold line indices and character offsets are integers and
    are modelled by [Z]; the one place where the code computes with
    fractions (the proportional projection of [offsetInLine]) is modelled
    on IEEE 754 binary64 with the Standard Library's [SpecFloat]. *)

From Stdlib Require Import ZArith Lia String Ascii List Bool.
From Stdlib Require Import QArith Qpower Lqa.
From Stdlib Require Import Floats.SpecFloat.
From Stdlib Require Import NArith DecimalString DecimalN.
From stdpp Require Import base list strings.

Local Open Scope Z_scope.

(** ** JavaScript built-ins used by the code *)

Module JS.

(** Relative index of [String.prototype.slice] and
    [Array.prototype.splice]: a negative index counts from the end, and
    the result is clamped to [0, len]. *)
Definition relative_index (len i : Z) : Z :=
  if i <? 0 then Z.max (len + i) 0 else Z.min i len.

Definition str_length (s : string) : Z := Z.of_nat (String.length s).

(** [s.slice(start, end)]; [end_ = None] is the call with one argument. *)
Definition slice (s : string) (start : Z) (end_ : option Z) : string :=
  let len := str_length s in
  let from := relative_index len start in
  let to := match end_ with
            | None => len
            | Some e => relative_index len e
            end in
  String.substring (Z.to_nat from) (Z.to_nat (Z.max (to - from) 0)) s.

(** [a[i]]: [None] is [undefined]. *)
Definition index {A : Type} (a : list A) (i : Z) : option A :=
  if i <? 0 then None else a !! Z.to_nat i.

(** [(a[i] || '')] on an array of strings: [undefined] and the empty
    string are the two falsy values it can meet, both give ['']. *)
Definition index_or_empty (a : list string) (i : Z) : string :=
  default EmptyString (index a i).

Definition arr_length {A : Type} (a : list A) : Z := Z.of_nat (length a).

(** [a.splice(start, deleteCount, ...items)], the array after the call. *)
Definition splice {A : Type} (a : list A) (start deleteCount : Z)
    (items : list A) : list A :=
  let len := arr_length a in
  let s := relative_index len start in
  let d := Z.min (Z.max deleteCount 0) (len - s) in
  take (Z.to_nat s) a ++ items ++ drop (Z.to_nat (s + d)) a.

(** [a.push(x)], [a.pop()] and [a.shift()]: the array is kept oldest
    first, as JavaScript keeps it. *)
Definition push {A : Type} (a : list A) (x : A) : list A := a ++ [x].
Definition pop {A : Type} (a : list A) : option A * list A :=
  (last a, removelast a).
Definition shift {A : Type} (a : list A) : list A := tail a.

(** The one-character string ["\n"]. *)
Definition newline : string := String (ascii_of_nat 10) EmptyString.

End JS.

(** ** State *)

(** [ksel]: the keyboard-driven selection, in [lines] coordinates. *)
Record Ksel := mkKsel {
  anchorLine : Z;
  anchorOffset : Z;
  focusLine : Z;
  focusOffset : Z
}.

(** The object returned by [kselNormalized], [getKselAsCross] and
    [getCrossLineSelection]. *)
Record CrossSel := mkCrossSel {
  startLine : Z;
  startOffset : Z;
  endLine : Z;
  endOffset : Z
}.

Record State := mkState {
  lines : list string;
  ksel : option Ksel;
  crossLineSelActive : bool;
  undoStack : list (list string);
  redoStack : list (list string);
  (** [undoPushTimer]: [true] while a debounced history commit is armed. *)
  undoPushTimer : bool
}.

Definition set_lines (l : list string) (st : State) : State :=
  mkState l (ksel st) (crossLineSelActive st) (undoStack st) (redoStack st)
          (undoPushTimer st).

Definition set_ksel (k : option Ksel) (st : State) : State :=
  mkState (lines st) k (crossLineSelActive st) (undoStack st) (redoStack st)
          (undoPushTimer st).

Definition set_crossLineSelActive (b : bool) (st : State) : State :=
  mkState (lines st) (ksel st) b (undoStack st) (redoStack st)
          (undoPushTimer st).

(** ** History manager *)

Definition snapshot_eqb (a b : list string) : bool :=
  bool_decide (a = b).

(** [pushUndo()]: (re)arms the 300 ms timer; nothing else happens until it
    fires. *)
Definition pushUndo (st : State) : State :=
  mkState (lines st) (ksel st) (crossLineSelActive st) (undoStack st)
          (redoStack st) true.

(** The test [undoStack.length && JSON.stringify(top) === JSON.stringify(snapshot)].
    [JSON.stringify] is injective on arrays of strings, so the comparison
    of the two serialisations is the comparison of the two snapshots. *)
Definition same_as_top (stack : list (list string)) (snapshot : list string)
    : bool :=
  match last stack with
  | Some top => snapshot_eqb top snapshot
  | None => false
  end.

(** The timer callback of [pushUndo]: the debounced history commit. *)
Definition commit (st : State) : State :=
  let snapshot := lines st in
  if same_as_top (undoStack st) snapshot then
    mkState (lines st) (ksel st) (crossLineSelActive st) (undoStack st)
            (redoStack st) false
  else
    let pushed := JS.push (undoStack st) snapshot in
    let capped := if 200 <? JS.arr_length pushed then JS.shift pushed
                  else pushed in
    mkState (lines st) (ksel st) (crossLineSelActive st) capped [] false.

(** [app.undo()] *)
Definition undo (st : State) : State :=
  match JS.pop (undoStack st) with
  | (None, _) => st
  | (Some prev, rest) =>
      mkState prev (ksel st) (crossLineSelActive st) rest
              (JS.push (redoStack st) (lines st)) (undoPushTimer st)
  end.

(** [app.redo()] *)
Definition redo (st : State) : State :=
  match JS.pop (redoStack st) with
  | (None, _) => st
  | (Some next, rest) =>
      mkState next (ksel st) (crossLineSelActive st)
              (JS.push (undoStack st) (lines st)) rest (undoPushTimer st)
  end.

(** [text.split('\n')] *)
Fixpoint split_newline_aux (cur : string) (s : string) : list string :=
  match s with
  | EmptyString => [cur]
  | String c rest =>
      if Ascii.eqb c (ascii_of_nat 10)
      then cur :: split_newline_aux EmptyString rest
      else split_newline_aux (cur ++ String c EmptyString)%string rest
  end.

Definition split_newline (s : string) : list string :=
  split_newline_aux EmptyString s.

(** [setContent(text)] *)
Definition setContent (text : string) (st : State) : State :=
  let ls := split_newline text in
  let ls := if JS.arr_length ls =? 0 then [EmptyString] else ls in
  mkState ls (ksel st) (crossLineSelActive st) [] [] (undoPushTimer st).

(** The state the module starts in ([let lines = ['']; ...]). *)
Definition initial : State :=
  mkState [EmptyString] None false [] [] false.

(** The tail of [init()]: [setContent(content || '')] followed by
    [undoStack.push(lines.slice())]. *)
Definition init (content : string) : State :=
  let st := setContent content initial in
  mkState (lines st) (ksel st) (crossLineSelActive st)
          (JS.push (undoStack st) (lines st)) (redoStack st)
          (undoPushTimer st).

(** ** Keyboard selection helpers *)

(** [kselNormalized()]: start <= end in document order. *)
Definition normalize (k : Ksel) : CrossSel :=
  if (anchorLine k <? focusLine k)
     || ((anchorLine k =? focusLine k) && (anchorOffset k <=? focusOffset k))
  then mkCrossSel (anchorLine k) (anchorOffset k) (focusLine k) (focusOffset k)
  else mkCrossSel (focusLine k) (focusOffset k) (anchorLine k) (anchorOffset k).

Definition kselNormalized (st : State) : option CrossSel :=
  match ksel st with
  | None => None
  | Some k => Some (normalize k)
  end.

(** [getKselAsCross()] *)
Definition getKselAsCross (st : State) : option CrossSel :=
  match kselNormalized st with
  | None => None
  | Some norm =>
      if startLine norm =? endLine norm then None else Some norm
  end.

(** [clearKsel()], its effect on the selection state. *)
Definition clearKsel (st : State) : State :=
  match ksel st with
  | None => st
  | Some _ => set_crossLineSelActive false (set_ksel None st)
  end.

(** The two pieces every range edit keeps: the start line up to
    [startOffset] and the end line from [endOffset]. *)
Definition before_of (ls : list string) (sel : CrossSel) : string :=
  JS.slice (JS.index_or_empty ls (startLine sel)) 0 (Some (startOffset sel)).

Definition after_of (ls : list string) (sel : CrossSel) : string :=
  JS.slice (JS.index_or_empty ls (endLine sel)) (endOffset sel) None.

(** [if (!lines.length) lines = ['']] *)
Definition ensure_nonempty (ls : list string) : list string :=
  if JS.arr_length ls =? 0 then [EmptyString] else ls.

(** [deleteKsel(insert)]; [insert = None] is the call without argument. *)
Definition deleteKsel (insert : option string) (st : State) : State :=
  match kselNormalized st with
  | None => st
  | Some norm =>
      let before := before_of (lines st) norm in
      let after := after_of (lines st) norm in
      let newLines :=
        if bool_decide (insert = Some JS.newline) then [before; after]
        else [(before ++ default EmptyString insert ++ after)%string] in
      let ls := JS.splice (lines st) (startLine norm)
                          (endLine norm - startLine norm + 1) newLines in
      pushUndo
        (mkState (ensure_nonempty ls) None false (undoStack st)
                 (redoStack st) (undoPushTimer st))
  end.

(** [deleteSelection(crossSel)]: the returned boolean and the new state. *)
Definition deleteSelection (crossSel : option CrossSel) (st : State)
    : bool * State :=
  match crossSel with
  | None => (false, st)
  | Some sel =>
      if startLine sel =? endLine sel then (false, st)
      else
        let before := before_of (lines st) sel in
        let after := after_of (lines st) sel in
        let merged := (before ++ after)%string in
        let ls := JS.splice (lines st) (startLine sel)
                            (endLine sel - startLine sel + 1) [merged] in
        (true,
         set_crossLineSelActive false
           (pushUndo (set_lines (ensure_nonempty ls) st)))
  end.

(** ** The line handler, [handleLineKeydown(e, idx, raw)] *)

Inductive Key :=
  | KDelete | KBackspace | KEnter
  | KArrowUp | KArrowDown | KArrowLeft | KArrowRight
  | KHome | KEnd | KTab
  | KChar (c : ascii)      (* a key whose name has length 1 *)
  | KOther.

Record KeyEvent := mkKeyEvent {
  key : Key;
  shiftKey : bool;
  ctrlKey : bool;
  metaKey : bool;
  altKey : bool
}.

(** The textarea of the line being edited. *)
Record Textarea := mkTextarea {
  value : string;
  selectionStart : Z;
  selectionEnd : Z
}.

Definition is_cross_line (k : Ksel) : bool :=
  negb (focusLine k =? anchorLine k).

(** First block of the handler: a cross-line keyboard selection consumes
    Delete/Backspace, a typed character and Enter.  [None]: the block does
    not return and the handler goes on. *)
Definition keydown_ksel (e : KeyEvent) (st : State) : option State :=
  match ksel st with
  | Some k =>
      if is_cross_line k then
        match key e with
        | KDelete | KBackspace =>
            if negb (ctrlKey e) && negb (metaKey e)
            then Some (deleteKsel None st) else None
        | KChar c =>
            if negb (ctrlKey e) && negb (metaKey e) && negb (altKey e)
            then Some (deleteKsel (Some (String c EmptyString)) st)
            else None
        | KEnter =>
            if negb (shiftKey e)
            then Some (deleteKsel (Some JS.newline) st) else None
        | _ => None
        end
      else None
  | None => None
  end.

(** "Backspace at start: merge with previous".  The handler is attached to
    the element of line [idx], so [idx] indexes [lines]; outside that the
    branch is not modelled ([None]). *)
Definition keydown_backspace_merge (idx : Z) (raw : Textarea) (st : State)
    : option State :=
  if (selectionStart raw =? 0) && (0 <? idx) && (selectionEnd raw =? 0)
     && (idx <? JS.arr_length (lines st))
  then
    let prevContent := JS.index_or_empty (lines st) (idx - 1) in
    let ls := <[Z.to_nat (idx - 1) := (prevContent ++ value raw)%string]>
                (lines st) in
    Some (pushUndo (set_lines (JS.splice ls idx 1 []) st))
  else None.

(** "Delete at end: merge with next". *)
Definition keydown_delete_merge (idx : Z) (raw : Textarea) (st : State)
    : option State :=
  if (selectionStart raw =? JS.str_length (value raw))
     && (idx <? JS.arr_length (lines st) - 1) && (0 <=? idx)
  then
    let next := JS.index_or_empty (lines st) (idx + 1) in
    let ls := <[Z.to_nat idx := (value raw ++ next)%string]> (lines st) in
    Some (pushUndo (set_lines (JS.splice ls (idx + 1) 1 []) st))
  else None.

(** [if (!ksel) ksel = { anchorLine: idx, anchorOffset: raw.selectionStart,
                         focusLine: idx, focusOffset: raw.selectionStart }] *)
Definition ksel_or_caret (idx : Z) (raw : Textarea) (st : State) : Ksel :=
  match ksel st with
  | Some k => k
  | None => mkKsel idx (selectionStart raw) idx (selectionStart raw)
  end.

(** The [ArrowUp] branch.  The handler itself changes [ksel] only:
    [applyKselVisual] puts the lines of the selection in rendered mode and
    leaves the flag to [applyKselVisual_frame], which runs in a later
    frame. *)
Definition keydown_arrow_up (e : KeyEvent) (idx : Z) (raw : Textarea)
    (st : State) : State :=
  if 0 <? idx then
    if shiftKey e then
      let k := ksel_or_caret idx raw st in
      let fl := Z.max 0 (focusLine k - 1) in
      let fo := JS.str_length (JS.index_or_empty (lines st) fl) in
      set_ksel (Some (mkKsel (anchorLine k) (anchorOffset k) fl fo)) st
    else clearKsel st
  else st.

(** The [ArrowDown] branch. *)
Definition keydown_arrow_down (e : KeyEvent) (idx : Z) (raw : Textarea)
    (st : State) : State :=
  if idx <? JS.arr_length (lines st) - 1 then
    if shiftKey e then
      let k := ksel_or_caret idx raw st in
      let fl := Z.min (JS.arr_length (lines st) - 1) (focusLine k + 1) in
      set_ksel (Some (mkKsel (anchorLine k) (anchorOffset k) fl 0)) st
    else clearKsel st
  else if shiftKey e then
    let k := ksel_or_caret idx raw st in
    let fo := JS.str_length (JS.index_or_empty (lines st) idx) in
    set_ksel (Some (mkKsel (anchorLine k) (anchorOffset k)
                           (focusLine k) fo)) st
  else st.

(** The branches of [handleLineKeydown] that remove lines or extend the
    keyboard selection, in the order of the source: the block of the
    cross-line keyboard selection, the Backspace and Delete merges and the
    two vertical arrow keys.  [None]: the key press takes another branch
    of the handler (Enter outside a selection, ArrowLeft and ArrowRight,
    Home and End, Tab, the Ctrl and Alt shortcuts, typed characters),
    which this function does not describe. *)
Definition handleLineKeydown (e : KeyEvent) (idx : Z) (raw : Textarea)
    (st : State) : option State :=
  match keydown_ksel e st with
  | Some st' => Some st'
  | None =>
      match key e with
      | KBackspace => keydown_backspace_merge idx raw st
      | KDelete => keydown_delete_merge idx raw st
      | KArrowUp => Some (keydown_arrow_up e idx raw st)
      | KArrowDown => Some (keydown_arrow_down e idx raw st)
      | _ => None
      end
  end.

(** [app.selectAll()], its effect on the selection state. *)
Definition selectAll (st : State) : State :=
  let last_idx := JS.arr_length (lines st) - 1 in
  set_crossLineSelActive true
    (set_ksel
       (Some (mkKsel 0 0 last_idx
                (JS.str_length (JS.index_or_empty (lines st) last_idx))))
       st).

(** ** JavaScript numbers in the proportional projection

    [charPos / fullText.length * rawLine.length] is computed on IEEE 754
    binary64 values; [SpecFloat] gives the operations, with [prec = 53] and
    [emax = 1024]. *)

Module Num.

Definition prec : Z := 53.
Definition emax : Z := 1024.

(** The number that holds the integer [z] (exact below [2^53]). *)
Definition of_int (z : Z) : spec_float := binary_normalize prec emax z 0 false.

Definition div (x y : spec_float) : spec_float := SFdiv prec emax x y.
Definition mul (x y : spec_float) : spec_float := SFmul prec emax x y.

(** [Math.round(x)]: the nearest integer, a tie going up: the largest
    integer not above [x + 1/2].  The finite value is
    [(-1)^s * m * 2^e].  [NaN] and the infinities are not integers; they
    are mapped to [0] here, and the projection of lengths below [2^53]
    never meets them ([projection_is_finite]). *)
Definition round (x : spec_float) : Z :=
  match x with
  | S754_finite s m e =>
      let v := if s then Z.neg m else Z.pos m in
      if 0 <=? e then v * 2 ^ e
      else (2 * v + 2 ^ (- e)) / 2 ^ (1 - e)
  | _ => 0
  end.

End Num.

(** [Math.round((charPos / fullLength) * rawLength)], guarded by
    [if (fullText.length === 0) return 0]. *)
Definition project (charPos fullLength rawLength : Z) : Z :=
  if fullLength =? 0 then 0
  else Num.round (Num.mul (Num.div (Num.of_int charPos)
                                   (Num.of_int fullLength))
                          (Num.of_int rawLength)).

(** The inverse projection of [findTextNodeAtOffset]:
    [ratio = rawLine.length > 0 ? rawOffset / rawLine.length : 0] and
    [targetOffset = Math.round(ratio * renderedText.length)]. *)
Definition target_offset (rawOffset rawLength renderedLength : Z) : Z :=
  let ratio := if 0 <? rawLength
               then Num.div (Num.of_int rawOffset) (Num.of_int rawLength)
               else Num.of_int 0 in
  Num.round (Num.mul ratio (Num.of_int renderedLength)).

(** ** Values of binary64 numbers *)

(** The rational value [m * 2^e] of a finite number. *)
Definition F2Q (m e : Z) : Q := (inject_Z m * 2 ^ e)%Q.

(** [2^-52], the relative error that bounds one rounding to 53 digits. *)
Definition u52 : Q := 1 # 4503599627370496.

(** A normal number: positive, with a mantissa of exactly 53 digits. *)
Definition normal53 (x : spec_float) (m : positive) (e : Z) : Prop :=
  x = S754_finite false m e /\ 2 ^ 52 <= Z.pos m < 2 ^ 53.

(** ** The rendered document, as far as the selection engine reads it *)

(** One [.editor-line] element: whether it carries the class [editing],
    and the text nodes under its [.line-rendered] child (their lengths, in
    document order), when it has that child. *)
Record LineEl := mkLineEl {
  editing : bool;
  rendered : option (list nat)
}.

(** A boundary point of the browser's range: the [data-idx] of the
    enclosing [.editor-line] ([-1] when there is none, as [lineIdxOf]
    returns it), the rank of the container among the text nodes of that
    line's rendered element when it is one of them, and the offset. *)
Record Boundary := mkBoundary {
  b_line : Z;
  b_node : option nat;
  b_offset : Z
}.

Record Dom := mkDom {
  lineEls : list LineEl;
  (** [None]: no selection, no range, or a collapsed one. *)
  selection : option (Boundary * Boundary)
}.

Definition getLineEl (dom : Dom) (idx : Z) : option LineEl :=
  JS.index (lineEls dom) idx.

(** [getLineEl(idx)?.querySelector('.line-rendered')] is an element. *)
Definition has_rendered (dom : Dom) (idx : Z) : bool :=
  match getLineEl dom idx with
  | Some el => bool_decide (rendered el <> None)
  | None => false
  end.

(** The callback that [applyKselVisual] hands to [requestAnimationFrame],
    with [norm] the selection that [kselNormalized] gave when
    [applyKselVisual] was called: it returns at once when the start line
    or the end line has no rendered element, and otherwise paints the
    browser selection and sets [crossLineSelActive]. *)
Definition applyKselVisual_frame (dom : Dom) (norm : CrossSel) (st : State)
    : State :=
  if has_rendered dom (startLine norm) && has_rendered dom (endLine norm)
  then set_crossLineSelActive true st
  else st.

(** [rendered.textContent.length] *)
Definition text_length (nodes : list nat) : Z :=
  Z.of_nat (sum_list nodes).

(** The tree walk of [offsetInLine]: lengths of the text nodes before the
    container are added up; [None] when the container is not met. *)
Fixpoint walk (nodes : list nat) (rank : nat) (offset charPos : Z)
    : option Z :=
  match nodes, rank with
  | [], _ => None
  | _ :: _, O => Some (charPos + offset)
  | len :: rest, S r => walk rest r offset (charPos + Z.of_nat len)
  end.

Definition char_pos (nodes : list nat) (b : Boundary) : Z :=
  match b_node b with
  | Some r => default (b_offset b) (walk nodes r (b_offset b) 0)
  | None => b_offset b
  end.

(** [offsetInLine(node, offset, lineIdx)] *)
Definition offsetInLine (dom : Dom) (ls : list string) (b : Boundary)
    (lineIdx : Z) : Z :=
  match getLineEl dom lineIdx with
  | None => 0
  | Some el =>
      if editing el then b_offset b
      else match rendered el with
           | None => 0
           | Some nodes =>
               project (char_pos nodes b) (text_length nodes)
                       (JS.str_length (JS.index_or_empty ls lineIdx))
           end
  end.

(** [getCrossLineSelection()] *)
Definition getCrossLineSelection (dom : Dom) (st : State)
    : option CrossSel :=
  match selection dom with
  | None => None
  | Some (s, e) =>
      let sl := b_line s in
      let el := b_line e in
      if (sl =? -1) || (el =? -1) then None
      else if sl =? el then None
      else Some (mkCrossSel sl (offsetInLine dom (lines st) s sl)
                            el (offsetInLine dom (lines st) e el))
  end.

(** [getCrossLineSelection() || getKselAsCross()] *)
Definition currentCrossSel (dom : Dom) (st : State) : option CrossSel :=
  match getCrossLineSelection dom st with
  | Some sel => Some sel
  | None => getKselAsCross st
  end.

(** The global handler on Delete/Backspace.  [None]: the branch is not
    taken. *)
Definition global_delete (dom : Dom) (st : State) : option State :=
  if crossLineSelActive st || bool_decide (ksel st <> None) then
    match currentCrossSel dom st with
    | Some sel => Some (set_ksel None (snd (deleteSelection (Some sel) st)))
    | None => None
    end
  else None.

(** The global handler on Ctrl/Cmd+X, without the clipboard. *)
Definition global_cut (dom : Dom) (st : State) : option State :=
  if crossLineSelActive st || bool_decide (ksel st <> None) then
    match currentCrossSel dom st with
    | Some sel => Some (snd (deleteSelection (Some sel) (set_ksel None st)))
    | None => None
    end
  else None.

(** ** Sequences of operations *)

(** Any edit of the document: every editing path of the source assigns to
    [lines] (and possibly to the selection state) and calls [pushUndo()];
    none of them touches the two stacks. *)
Definition edit (ls : list string) (k : option Ksel) (active : bool)
    (st : State) : State :=
  pushUndo (mkState ls k active (undoStack st) (redoStack st)
                    (undoPushTimer st)).

Inductive Op :=
  | OEdit (ls : list string) (k : option Ksel) (active : bool)
  | OCommit
  | OUndo
  | ORedo
  | OSetContent (text : string).

Definition step (st : State) (o : Op) : State :=
  match o with
  | OEdit ls k active => edit ls k active st
  | OCommit => commit st
  | OUndo => undo st
  | ORedo => redo st
  | OSetContent text => setContent text st
  end.

Definition run (ops : list Op) (st : State) : State :=
  fold_left step ops st.

Definition is_history_move (o : Op) : bool :=
  match o with
  | OUndo | ORedo => true
  | _ => false
  end.

(** States of a session started by [init]. *)
Definition reachable (st : State) : Prop :=
  exists content ops, st = run ops (init content).

(** States reached by edits (and the commits they schedule) alone. *)
Definition reached_by_edits (st : State) : Prop :=
  exists content ops,
    forallb (fun o => negb (is_history_move o)) ops = true
    /\ st = run ops (init content).

(** The operations that remove text or lines, and the changes of the
    selection state between them.
    - [DSelect]: any change of [ksel] and [crossLineSelActive]; the pointer
      handlers, [clearKsel] on ArrowLeft and ArrowRight, the move of the
      focus on Shift+Home and Shift+End and [applyKselVisual_frame] are of
      this kind.
    - [DLineKey]: a key press on a line, when it takes one of the branches
      that [handleLineKeydown] describes.  A key press that takes another
      branch of the handler (Enter outside a selection, Tab, Ctrl+Z, ...)
      is an edit of another kind and no delete operation: as a step of
      this relation it stands for nothing and keeps the state.
    - [DGlobalDelete], [DGlobalCut]: the document handlers, which likewise
      keep the state when their branch is not taken. *)
Inductive DeleteOp :=
  | DSelect (k : option Ksel) (active : bool)
  | DKsel (insert : option string)
  | DSelection (crossSel : option CrossSel)
  | DLineKey (e : KeyEvent) (idx : Z) (raw : Textarea)
  | DGlobalDelete (dom : Dom)
  | DGlobalCut (dom : Dom).

Definition delete_step (st : State) (o : DeleteOp) : State :=
  match o with
  | DSelect k active => set_crossLineSelActive active (set_ksel k st)
  | DKsel insert => deleteKsel insert st
  | DSelection crossSel => snd (deleteSelection crossSel st)
  | DLineKey e idx raw => default st (handleLineKeydown e idx raw st)
  | DGlobalDelete dom => default st (global_delete dom st)
  | DGlobalCut dom => default st (global_cut dom st)
  end.

Definition delete_run (ops : list DeleteOp) (st : State) : State :=
  fold_left delete_step ops st.

(** ** Properties of selections *)

(** [(startLine, startOffset) <= (endLine, endOffset)], lexicographically. *)
Definition lex_le (sel : CrossSel) : Prop :=
  startLine sel < endLine sel
  \/ (startLine sel = endLine sel /\ startOffset sel <= endOffset sel).

(** A selection over existing lines, the start line above the end line. *)
Definition cross_line_in (ls : list string) (sel : CrossSel) : Prop :=
  0 <= startLine sel < endLine sel /\ endLine sel < JS.arr_length ls.

(** The selection [Ctrl+A] makes: from (0, 0) to the end of the last line. *)
Definition whole_document (ls : list string) : CrossSel :=
  let last_idx := JS.arr_length ls - 1 in
  mkCrossSel 0 0 last_idx (JS.str_length (JS.index_or_empty ls last_idx)).

(** Both ends of the keyboard selection index existing lines. *)
Definition ksel_in_bounds (st : State) : Prop :=
  match ksel st with
  | None => True
  | Some k =>
      0 <= anchorLine k < JS.arr_length (lines st)
      /\ 0 <= focusLine k < JS.arr_length (lines st)
  end.

(** The lines left by a range edit that puts [items] in place of the lines
    [startLine .. endLine]. *)
Definition replace_range (ls : list string) (sel : CrossSel)
    (items : list string) : list string :=
  take (Z.to_nat (startLine sel)) ls ++ items
    ++ drop (S (Z.to_nat (endLine sel))) ls.

(** ** Documents used in the examples *)

Definition text_abc_def_ghi : string :=
  ("abc" ++ JS.newline ++ "def" ++ JS.newline ++ "ghi")%string.

(** The three-line document ["abc"; "def"; "ghi"], just loaded. *)
Definition doc_abc : State := init text_abc_def_ghi.

Definition shift_key (k : Key) : KeyEvent := mkKeyEvent k true false false false.
Definition plain_key (k : Key) : KeyEvent := mkKeyEvent k false false false false.

(** A session on the one-line document ["a"]: the user types [b], the
    commit fires, types [c], the commit fires, undoes twice, then deletes
    the [b] by hand; the commit armed by that last edit has not fired. *)
Definition retyped_session : list Op :=
  [OEdit ["ab"%string] None false; OCommit;
   OEdit ["abc"%string] None false; OCommit;
   OUndo; OUndo;
   OEdit ["a"%string] None false].

Definition retyped : State := run retyped_session (init "a"%string).

(** A session on the one-line document ["a"]: Ctrl+Z right after loading
    moves the snapshot that [init] pushed to the redo stack; the user then
    replaces the text by [x], and the commit armed by that edit has not
    fired yet. *)
Definition edited_after_undo : State :=
  run [OUndo; OEdit ["x"%string] None false] (init "a"%string).

(** A session on the two-line document ["a"; "b"]: three lines are added,
    the commit fires, Ctrl+A selects the five lines, and Ctrl+Z is pressed
    twice.  The document is back to two lines and [ksel] is what Ctrl+A
    made it. *)
Definition stale : State :=
  undo (undo (selectAll
    (run [OEdit ["a"; "b"; "c"; "d"; "e"]%string None false; OCommit]
         (init ("a" ++ JS.newline ++ "b")%string)))).

(** ** Invariants of the history *)

(** What edits and commits keep true: the redo stack is empty whenever the
    undo stack is. *)
Definition redo_needs_undo (st : State) : Prop :=
  undoStack st <> [] \/ redoStack st = [].


(** * The rest of the editor core *)

(** ** Saving and loading *)

(** [a.join('\n')] on an array of strings. *)
Fixpoint join_newline (a : list string) : string :=
  match a with
  | [] => EmptyString
  | x :: rest =>
      match rest with
      | [] => x
      | _ :: _ => (x ++ JS.newline ++ join_newline rest)%string
      end
  end.

(** The content that [saveDocument], [downloadFile] and
    [notes.flushCurrent] write: [lines.join('\n')]. *)
Definition saved_content (st : State) : string := join_newline (lines st).

(** A string without the character ["\n"]. *)
Fixpoint no_newline (s : string) : bool :=
  match s with
  | EmptyString => true
  | String c rest => negb (Ascii.eqb c (ascii_of_nat 10)) && no_newline rest
  end.

(** ** Copy, cut and paste *)

(** The slice of line [i] that the copy and cut handlers push on [parts]. *)
Definition selection_part (ls : list string) (sel : CrossSel) (i : Z)
    : string :=
  let l := JS.index_or_empty ls i in
  if (i =? startLine sel) && (i =? endLine sel)
  then JS.slice l (startOffset sel) (Some (endOffset sel))
  else if i =? startLine sel then JS.slice l (startOffset sel) None
  else if i =? endLine sel then JS.slice l 0 (Some (endOffset sel))
  else l.

(** [for (let i = startLine; i <= endLine; i++) parts.push(...)] *)
Definition selection_parts (ls : list string) (sel : CrossSel)
    : list string :=
  selection_part ls sel <$> seqZ (startLine sel)
                                 (endLine sel - startLine sel + 1).

(** The text handed to the clipboard: [parts.join('\n')]. *)
Definition copied_text (ls : list string) (sel : CrossSel) : string :=
  join_newline (selection_parts ls sel).

(** The global handler on Ctrl/Cmd+C: the text written to the clipboard
    ([None]: the branch is not taken); the state is left as it is. *)
Definition global_copy (dom : Dom) (st : State) : option string :=
  if crossLineSelActive st || bool_decide (ksel st <> None) then
    match currentCrossSel dom st with
    | Some sel => Some (copied_text (lines st) sel)
    | None => None
    end
  else None.

(** [insertTextAtCursor(text, idx, raw)], called by the paste handler.
    The assignment [lines[idx] = full] is modelled on an existing line
    [idx] (the handler belongs to the element of that line); [None]
    outside. *)
Definition insertTextAtCursor (text : string) (idx : Z) (raw : Textarea)
    (st : State) : option State :=
  let before := JS.slice (value raw) 0 (Some (selectionStart raw)) in
  let after := JS.slice (value raw) (selectionEnd raw) None in
  let full := (before ++ text ++ after)%string in
  let parts := split_newline full in
  if (0 <=? idx) && (idx <? JS.arr_length (lines st)) then
    if JS.arr_length parts =? 1
    then Some (pushUndo (set_lines (<[Z.to_nat idx := full]> (lines st)) st))
    else Some (pushUndo (set_lines (JS.splice (lines st) idx 1 parts) st))
  else None.

(** The lines [from .. to] of a document. *)
Definition lines_between (ls : list string) (from to : Z) : list string :=
  take (Z.to_nat (to - from + 1)) (drop (Z.to_nat from) ls).

(** Both offsets of a selection lie inside their lines. *)
Definition offsets_in (ls : list string) (sel : CrossSel) : Prop :=
  0 <= startOffset sel <= JS.str_length (JS.index_or_empty ls (startLine sel))
  /\ 0 <= endOffset sel <= JS.str_length (JS.index_or_empty ls (endLine sel)).

(** ** Fence analyzer *)

(** [line.startsWith('```')] *)
Definition starts_fence (line : string) : bool :=
  String.prefix "```" line.

(** The white space that [String.prototype.trim] removes, among the code
    units below 256: tab, line feed, vertical tab, form feed, carriage
    return, space and no-break space. *)
Definition is_space (c : ascii) : bool :=
  let n := nat_of_ascii c in
  ((9 <=? n)%nat && (n <=? 13)%nat) || (n =? 32)%nat || (n =? 160)%nat.

Fixpoint trimStart (s : string) : string :=
  match s with
  | EmptyString => EmptyString
  | String c rest => if is_space c then trimStart rest else s
  end.

Fixpoint trimEnd (s : string) : string :=
  match s with
  | EmptyString => EmptyString
  | String c rest =>
      match trimEnd rest with
      | EmptyString => if is_space c then EmptyString
                       else String c EmptyString
      | String c' rest' => String c (String c' rest')
      end
  end.

Definition trim (s : string) : string := trimEnd (trimStart s).

(** An entry of [fenceStates]. *)
Record FenceState := mkFenceState {
  inFence : bool;
  fenceLang : string;
  fenceStart : Z
}.

Definition fence_outside : FenceState := mkFenceState false EmptyString (-1).

(** The body of the loop of [computeFenceStates] after the push: how line
    [i] changes [inFence], [fenceLang] and [fenceStart]. *)
Definition fence_next (st : FenceState) (i : Z) (line : string)
    : FenceState :=
  if starts_fence line then
    if negb (inFence st)
    then mkFenceState true (trim (JS.slice line 3 None)) i
    else fence_outside
  else st.

(** The loop of [computeFenceStates], from line [i] on. *)
Fixpoint fence_scan (ls : list string) (i : Z) (st : FenceState)
    : list FenceState :=
  match ls with
  | [] => []
  | line :: rest => st :: fence_scan rest (i + 1) (fence_next st i line)
  end.

(** [computeFenceStates()]: the new value of [fenceStates]. *)
Definition computeFenceStates (ls : list string) : list FenceState :=
  fence_scan ls 0 fence_outside.

(** [for (let i = from; i < lines.length; i++)
       if (lines[i].startsWith('```')) { end = i; break; }],
    with [end = -1] before the loop; [ls] holds the lines from [i] on. *)
Fixpoint find_fence (ls : list string) (i : Z) : Z :=
  match ls with
  | [] => -1
  | line :: rest => if starts_fence line then i else find_fence rest (i + 1)
  end.

(** [getFenceRange(idx)]: the pair [(start, end)], or [None] for [null]. *)
Definition getFenceRange (ls : list string) (idx : Z) : option (Z * Z) :=
  match JS.index (computeFenceStates ls) idx with
  | None => None
  | Some st =>
      let line := JS.index_or_empty ls idx in
      let isOpening := starts_fence line && negb (inFence st) in
      let isInside := inFence st in
      let isClosing := starts_fence line && inFence st in
      if negb isOpening && negb isInside && negb isClosing then None
      else
        let start := if isOpening then idx else fenceStart st in
        if start <? 0 then None
        else
          let end_ := find_fence (drop (Z.to_nat (start + 1)) ls)
                                 (start + 1) in
          Some (start,
                if end_ <? 0 then JS.arr_length ls - 1 else end_)
  end.

(** The values of [inFence], [fenceLang] and [fenceStart] when the scan
    started at line [i] in state [st] reaches its [k]-th line. *)
Fixpoint fence_before (ls : list string) (i : Z) (st : FenceState)
    (k : nat) {struct k} : FenceState :=
  match k, ls with
  | S k', line :: rest => fence_before rest (i + 1) (fence_next st i line) k'
  | _, _ => st
  end.

(** Line [i] of the document is a fence delimiter. *)
Definition fence_at (ls : list string) (i : Z) : Prop :=
  starts_fence (JS.index_or_empty ls i) = true.

(** The scan state before line [k] of the whole document. *)
Definition scan_at (ls : list string) (k : nat) : FenceState :=
  fence_before ls 0 fence_outside k.

(** What the scan knows before line [k]: outside a block it has
    [fenceStart = -1]; inside, the block was opened at line [fenceStart],
    a delimiter met outside a block, and no delimiter came since. *)
Definition scan_invariant (ls : list string) (k : nat) : Prop :=
  let st := scan_at ls k in
  (inFence st = false /\ fenceStart st = -1)
  \/ (inFence st = true
      /\ 0 <= fenceStart st < Z.of_nat k
      /\ fence_at ls (fenceStart st)
      /\ inFence (scan_at ls (Z.to_nat (fenceStart st))) = false
      /\ forall j, fenceStart st < j < Z.of_nat k -> ~ fence_at ls j).

(** [end] as [getFenceRange] computes it for a block opened at [start]. *)
Definition fence_end (ls : list string) (start : Z) : Z :=
  let end_ := find_fence (drop (Z.to_nat (start + 1)) ls) (start + 1) in
  if end_ <? 0 then JS.arr_length ls - 1 else end_.

(** [(s, e)] is a fence block of the document: line [s] is a delimiter
    that the scan meets outside a block, no delimiter lies strictly
    between [s] and [e], and [e] is the next delimiter, or the last line
    when there is none. *)
Definition fence_block (ls : list string) (s e : Z) : Prop :=
  0 <= s <= e /\ e < JS.arr_length ls
  /\ fence_at ls s
  /\ inFence (scan_at ls (Z.to_nat s)) = false
  /\ (forall j, s < j < e -> ~ fence_at ls j)
  /\ (fence_at ls e /\ s < e
      \/ e = JS.arr_length ls - 1
         /\ forall j, s < j < JS.arr_length ls -> ~ fence_at ls j)
  /\ e = fence_end ls s.

(** A document with a code block on the lines 1 to 3. *)
Definition doc_fenced : list string :=
  ["intro"; "```js"; "let x;"; "```"; "outro"]%string.

(** ** Painting the keyboard selection *)

(** A position in the rendered element of a line: a text node (its rank
    among the text nodes of the element) or the element itself. *)
Inductive DomPos :=
  | InTextNode (rank : nat) (offset : Z)
  | InContainer (offset : Z).

(** The loop of [findTextNodeAtOffset] and its two fallbacks; [lastNode]
    holds [lastNode] and [lastNodeOffset]. *)
Fixpoint find_walk (nodes : list nat) (rank : nat) (pos targetOffset : Z)
    (lastNode : option (nat * Z)) : DomPos :=
  match nodes with
  | [] =>
      match lastNode with
      | Some (r, lastNodeOffset) => InTextNode r lastNodeOffset
      | None => InContainer 0
      end
  | len :: rest =>
      if targetOffset <=? pos + Z.of_nat len
      then InTextNode rank (Z.min (targetOffset - pos) (Z.of_nat len))
      else find_walk rest (S rank) (pos + Z.of_nat len) targetOffset
                     (Some (rank, Z.of_nat len))
  end.

(** [findTextNodeAtOffset(container, rawOffset, rawLine)], the container
    given by the lengths of its text nodes. *)
Definition findTextNodeAtOffset (nodes : list nat) (rawOffset : Z)
    (rawLine : string) : DomPos :=
  find_walk nodes 0 0
    (target_offset rawOffset (JS.str_length rawLine) (text_length nodes))
    None.

(** The boundary point that [range.setStart(node, offset)] gives the
    browser's range, as [getCrossLineSelection] reads it back on line
    [lineIdx]. *)
Definition boundary_at (lineIdx : Z) (p : DomPos) : Boundary :=
  match p with
  | InTextNode r off => mkBoundary lineIdx (Some r) off
  | InContainer off => mkBoundary lineIdx None off
  end.

(** The position is a place in the text of the container: inside a text
    node, from its start to its end, or in a container without text. *)
Definition valid_pos (nodes : list nat) (p : DomPos) : Prop :=
  match p with
  | InTextNode r off =>
      exists len, nodes !! r = Some len /\ 0 <= off <= Z.of_nat len
  | InContainer off => nodes = [] /\ off = 0
  end.

(** ** Moving and indenting lines *)

(** The destructuring assignment
    [[lines[i], lines[j]] = [lines[j], lines[i]]] on two existing lines. *)
Definition swap_lines (ls : list string) (i j : Z) : list string :=
  let a := JS.index_or_empty ls j in
  let b := JS.index_or_empty ls i in
  <[Z.to_nat j := b]> (<[Z.to_nat i := a]> ls).

(** [app.moveLineUp()] with [activeLineIdx = idx]; [Some st] unchanged is
    the early return.  The assignments are modelled on existing lines;
    [None] when [idx] is no line of the document. *)
Definition moveLineUp (idx : Z) (st : State) : option State :=
  if idx =? 0 then Some st
  else if (0 <? idx) && (idx <? JS.arr_length (lines st))
  then Some (pushUndo (set_lines (swap_lines (lines st) (idx - 1) idx) st))
  else None.

(** [app.moveLineDown()] with [activeLineIdx = idx]. *)
Definition moveLineDown (idx : Z) (st : State) : option State :=
  if JS.arr_length (lines st) - 1 <=? idx then Some st
  else if 0 <=? idx
  then Some (pushUndo (set_lines (swap_lines (lines st) idx (idx + 1)) st))
  else None.

(** [selected.length > 0 ? selected : [activeLineIdx]] *)
Definition targets_of (selected : list Z) (activeLineIdx : Z) : list Z :=
  match selected with
  | [] => [activeLineIdx]
  | _ :: _ => selected
  end.

(** [targets.forEach(i => { lines[i] = f(lines[i]); })] on existing
    lines; [None] when a target is no line of the document. *)
Fixpoint update_lines (f : string -> string) (targets : list Z)
    (ls : list string) : option (list string) :=
  match targets with
  | [] => Some ls
  | i :: rest =>
      if (0 <=? i) && (i <? JS.arr_length ls)
      then update_lines f rest
             (<[Z.to_nat i := f (JS.index_or_empty ls i)]> ls)
      else None
  end.

(** ['  ' + line] *)
Definition indent_line (l : string) : string := ("  " ++ l)%string.

(** [line.replace(/^  /, '')] *)
Definition strip_two_spaces (l : string) : string :=
  match l with
  | String " " (String " " rest) => rest
  | _ => l
  end.

(** [line.replace(/^\t/, '')] *)
Definition strip_tab (l : string) : string :=
  match l with
  | String c rest => if Ascii.eqb c (ascii_of_nat 9) then rest else l
  | EmptyString => l
  end.

(** [line.replace(/^  /, '').replace(/^\t/, '')] *)
Definition outdent_line (l : string) : string :=
  strip_tab (strip_two_spaces l).

(** [app.indentLines()], with the result of [getSelectedLines()] and
    [activeLineIdx]. *)
Definition indentLines (selected : list Z) (activeLineIdx : Z) (st : State)
    : option State :=
  match update_lines indent_line (targets_of selected activeLineIdx)
                     (lines st) with
  | Some ls => Some (pushUndo (set_lines ls st))
  | None => None
  end.

(** [app.outdentLines()] *)
Definition outdentLines (selected : list Z) (activeLineIdx : Z) (st : State)
    : option State :=
  match update_lines outdent_line (targets_of selected activeLineIdx)
                     (lines st) with
  | Some ls => Some (pushUndo (set_lines ls st))
  | None => None
  end.

(** The line starts with a tab. *)
Definition starts_with_tab (l : string) : bool :=
  match l with
  | String c _ => Ascii.eqb c (ascii_of_nat 9)
  | EmptyString => false
  end.

(** All the characters of the document, line after line. *)
Definition all_text (ls : list string) : string :=
  foldr String.append EmptyString ls.

(** ** Escaping *)

(** [s.replace(/c/g, by)] for a pattern that is the single character [c]
    and a replacement without [$]. *)
Fixpoint replace_char (c : ascii) (by_ : string) (s : string) : string :=
  match s with
  | EmptyString => EmptyString
  | String x rest =>
      if Ascii.eqb x c then (by_ ++ replace_char c by_ rest)%string
      else String x (replace_char c by_ rest)
  end.

(** [escapeHtml(s)] *)
Definition escapeHtml (s : string) : string :=
  replace_char ">" "&gt;"
    (replace_char "<" "&lt;" (replace_char "&" "&amp;" s)).

(** What [escapeHtml] makes of one character. *)
Definition escape_char (c : ascii) : string :=
  if Ascii.eqb c "&" then "&amp;"%string
  else if Ascii.eqb c "<" then "&lt;"%string
  else if Ascii.eqb c ">" then "&gt;"%string
  else String c EmptyString.

Fixpoint escape_each (s : string) : string :=
  match s with
  | EmptyString => EmptyString
  | String c rest => (escape_char c ++ escape_each rest)%string
  end.

(** The character [c] occurs in [s]. *)
Fixpoint has_char (c : ascii) (s : string) : bool :=
  match s with
  | EmptyString => false
  | String x rest => Ascii.eqb x c || has_char c rest
  end.

(** ** Splitting a line with Enter *)

Fixpoint take_while (p : ascii -> bool) (s : string) : string :=
  match s with
  | EmptyString => EmptyString
  | String c rest => if p c then String c (take_while p rest)
                     else EmptyString
  end.

Fixpoint drop_while (p : ascii -> bool) (s : string) : string :=
  match s with
  | EmptyString => EmptyString
  | String c rest => if p c then drop_while p rest else s
  end.

(** Every character of [s] satisfies [p]. *)
Fixpoint all_chars (p : ascii -> bool) (s : string) : bool :=
  match s with
  | EmptyString => true
  | String c rest => p c && all_chars p rest
  end.

(** [\d] *)
Definition is_digit (c : ascii) : bool :=
  let n := nat_of_ascii c in (48 <=? n)%nat && (n <=? 57)%nat.

(** The character class of the three bullets, minus, star and plus. *)
Definition is_bullet (c : ascii) : bool :=
  Ascii.eqb c "-" || Ascii.eqb c "*" || Ascii.eqb c "+".

(** The result of [before.match(...)] for the list pattern of the Enter
    branch (at the start: any white space, group 1; then one of the three
    bullets or digits and a dot, group 2; then one white space): the whole
    match and its two groups. *)
Record ListMatch := mkListMatch {
  lm_all : string;
  lm_indent : string;
  lm_marker : string
}.

(** The match itself.  The white space and the digits are matched
    greedily, and giving back a character never helps: what follows the
    white space must be no white space, what follows the digits must be
    a dot. *)
Definition list_match (before : string) : option ListMatch :=
  let indent := take_while is_space before in
  match drop_while is_space before with
  | EmptyString => None
  | String c r1 =>
      if is_bullet c then
        match r1 with
        | String sp _ =>
            if is_space sp
            then Some (mkListMatch
                         (indent ++ String c (String sp EmptyString))
                         indent (String c EmptyString))
            else None
        | EmptyString => None
        end
      else
        let ds := take_while is_digit (String c r1) in
        match ds, drop_while is_digit (String c r1) with
        | String _ _, String "." (String sp _) =>
            if is_space sp
            then Some (mkListMatch
                         (indent ++ ds ++ String "." (String sp EmptyString))
                         indent (ds ++ ".")%string)
            else None
        | _, _ => None
        end
  end.

(** [parseInt] on a string of decimal digits. *)
Definition parse_int (ds : string) : option N :=
  N.of_uint <$> NilEmpty.uint_of_string ds.

(** The string of an integer number below [2^53]. *)
Definition number_string (n : N) : string :=
  NilZero.string_of_uint (N.to_uint n).

(** What follows the indent on the new line:
    [(parseInt(listMatch[2]) + 1) + '. '] when the marker holds a digit
    ([listMatch[2].match(/\d+/)]), [listMatch[2] + ' '] otherwise.
    [None]: a number from [2^53 - 1] on, where [parseInt] or the addition
    round; not modelled. *)
Definition next_marker (m : ListMatch) : option string :=
  match take_while is_digit (lm_marker m) with
  | EmptyString => Some (lm_marker m ++ " ")%string
  | String _ _ as ds =>
      match parse_int ds with
      | Some n =>
          if (n + 1 <? 2 ^ 53)%N
          then Some (number_string (n + 1) ++ ". ")%string
          else None
      | None => None
      end
  end.

(** The Enter branch of [handleLineKeydown] (Enter without Shift, no
    cross-line keyboard selection), on an existing line [idx]. *)
Definition keydown_enter (idx : Z) (raw : Textarea) (st : State)
    : option State :=
  if (0 <=? idx) && (idx <? JS.arr_length (lines st)) then
    let before := JS.slice (value raw) 0 (Some (selectionStart raw)) in
    let after := JS.slice (value raw) (selectionStart raw) None in
    let split (prefix : string) :=
      pushUndo
        (set_lines
           (JS.splice (<[Z.to_nat idx := before]> (lines st)) (idx + 1) 0
                      [(prefix ++ after)%string])
           st) in
    match list_match before with
    | Some m =>
        if bool_decide (trim before = trim (lm_all m))
           || bool_decide (trim before = lm_marker m)
        then Some (set_lines (<[Z.to_nat idx := EmptyString]> (lines st)) st)
        else match next_marker m with
             | Some mk => Some (split (lm_indent m ++ mk)%string)
             | None => None
             end
    | None => Some (split EmptyString)
    end
  else None.

(** ** Tactics *)

(** From an inequality of [Z] read in [Q] to one on the images of the
    variables. *)
Ltac push_inject_Z H :=
  repeat (rewrite inject_Z_mult in H || rewrite inject_Z_plus in H);
  change (inject_Z 2) with 2%Q in H;
  change (inject_Z 1) with 1%Q in H.

(** * Proofs *)

(** ** Arrays and strings *)

Lemma relative_index_in_range (len i : Z) :
  0 <= i <= len -> JS.relative_index len i = i.
Proof.
  intros H. unfold JS.relative_index.
  destruct (Z.ltb_spec i 0); lia.
Qed.

Lemma splice_range {A : Type} (a : list A) (s e : Z) (items : list A) :
  0 <= s <= e -> e < JS.arr_length a ->
  JS.splice a s (e - s + 1) items
  = take (Z.to_nat s) a ++ items ++ drop (S (Z.to_nat e)) a.
Proof.
  intros Hs He. unfold JS.splice, JS.arr_length in *.
  rewrite relative_index_in_range by lia.
  do 3 f_equal. lia.
Qed.

Lemma splice_items_nonempty {A : Type} (a : list A) (s d : Z)
    (items : list A) :
  items <> [] -> JS.splice a s d items <> [].
Proof.
  intros Hi. unfold JS.splice. intros H.
  apply app_eq_nil in H as [_ H]. apply app_eq_nil in H as [H _]. done.
Qed.

Lemma ensure_nonempty_id (ls : list string) :
  ls <> [] -> ensure_nonempty ls = ls.
Proof.
  intros H. unfold ensure_nonempty, JS.arr_length.
  destruct ls; [done|]. reflexivity.
Qed.

Lemma ensure_nonempty_nonempty (ls : list string) : ensure_nonempty ls <> [].
Proof.
  destruct ls; [discriminate|].
  rewrite ensure_nonempty_id; discriminate.
Qed.

Lemma substring_zero_length (n : nat) (s : string) :
  String.substring n 0 s = EmptyString.
Proof.
  revert s. induction n as [|n IH]; intros [|c s]; simpl; auto.
Qed.

Lemma slice_prefix_zero (s : string) : JS.slice s 0 (Some 0) = EmptyString.
Proof.
  unfold JS.slice, JS.relative_index. simpl.
  replace (Z.min 0 (JS.str_length s)) with 0
    by (unfold JS.str_length; lia).
  apply substring_zero_length.
Qed.

Lemma slice_suffix_at_end (s : string) :
  JS.slice s (JS.str_length s) None = EmptyString.
Proof.
  unfold JS.slice.
  rewrite relative_index_in_range by (unfold JS.str_length; lia).
  rewrite Z.sub_diag. apply substring_zero_length.
Qed.

(** ** Range edits *)

Lemma deleteSelection_lines (st : State) (sel : CrossSel) :
  cross_line_in (lines st) sel ->
  deleteSelection (Some sel) st
  = (true,
     set_crossLineSelActive false
       (pushUndo
          (set_lines
             (replace_range (lines st) sel
                [(before_of (lines st) sel ++ after_of (lines st) sel)%string])
             st))).
Proof.
  intros [Hs He]. unfold deleteSelection.
  destruct (Z.eqb_spec (startLine sel) (endLine sel)); [lia|].
  rewrite splice_range by lia.
  rewrite ensure_nonempty_id; [reflexivity|].
  intros H. apply app_eq_nil in H as [_ H]. discriminate.
Qed.

Lemma deleteKsel_lines (st : State) (k : Ksel) (insert : option string) :
  ksel st = Some k ->
  cross_line_in (lines st) (normalize k) ->
  lines (deleteKsel insert st)
  = replace_range (lines st) (normalize k)
      (if bool_decide (insert = Some JS.newline)
       then [before_of (lines st) (normalize k);
             after_of (lines st) (normalize k)]
       else [(before_of (lines st) (normalize k)
              ++ default EmptyString insert
              ++ after_of (lines st) (normalize k))%string]).
Proof.
  intros Hk [Hs He]. unfold deleteKsel, kselNormalized. rewrite Hk. simpl.
  rewrite splice_range by lia.
  rewrite ensure_nonempty_id; [reflexivity|].
  intros H. apply app_eq_nil in H as [_ H].
  destruct (bool_decide _); discriminate.
Qed.

Lemma deleteKsel_nonempty (insert : option string) (st : State) :
  lines st <> [] -> lines (deleteKsel insert st) <> [].
Proof.
  intros H. unfold deleteKsel.
  destruct (kselNormalized st); [|exact H].
  simpl. apply ensure_nonempty_nonempty.
Qed.

Lemma deleteSelection_nonempty (crossSel : option CrossSel) (st : State) :
  lines st <> [] -> lines (snd (deleteSelection crossSel st)) <> [].
Proof.
  intros H. unfold deleteSelection.
  destruct crossSel as [sel|]; [|exact H].
  destruct (startLine sel =? endLine sel); [exact H|].
  simpl. apply ensure_nonempty_nonempty.
Qed.

Lemma splice_keeps_head {A : Type} (a : list A) (s d : Z) (items : list A) :
  0 < s -> a <> [] -> JS.splice a s d items <> [].
Proof.
  intros Hs Ha. unfold JS.splice, JS.relative_index, JS.arr_length.
  destruct (Z.ltb_spec s 0); [lia|].
  destruct a as [|x a]; [done|].
  replace (Z.to_nat (Z.min s (Z.of_nat (length (x :: a)))))
    with (S (Z.to_nat (Z.min s (Z.of_nat (length (x :: a))) - 1)))
    by (simpl length; lia).
  discriminate.
Qed.

Lemma insert_nonempty {A : Type} (a : list A) (i : nat) (x : A) :
  a <> [] -> <[i := x]> a <> [].
Proof.
  intros Ha H. apply (f_equal length) in H.
  rewrite length_insert in H. destruct a; [done|discriminate].
Qed.

Lemma handleLineKeydown_nonempty (e : KeyEvent) (idx : Z) (raw : Textarea)
    (st st' : State) :
  lines st <> [] ->
  handleLineKeydown e idx raw st = Some st' -> lines st' <> [].
Proof.
  intros Hne. unfold handleLineKeydown.
  destruct (keydown_ksel e st) as [s|] eqn:Hk.
  - intros [= <-]. unfold keydown_ksel in Hk.
    destruct (ksel st) as [k|]; [|discriminate].
    destruct (is_cross_line k); [|discriminate].
    destruct (key e); try discriminate;
      match type of Hk with
      | (if ?c then _ else _) = _ => destruct c; [|discriminate]
      end;
      injection Hk as <-; by apply deleteKsel_nonempty.
  - destruct (key e); try discriminate.
    + unfold keydown_delete_merge.
      destruct (_ && _) eqn:Hc; [|discriminate]. intros [= <-]. simpl.
      apply andb_prop in Hc as [Hc H0]. apply andb_prop in Hc as [_ Hi].
      apply splice_keeps_head; [lia|by apply insert_nonempty].
    + unfold keydown_backspace_merge.
      destruct (_ && _) eqn:Hc; [|discriminate]. intros [= <-]. simpl.
      apply andb_prop in Hc as [Hc _]. apply andb_prop in Hc as [Hc _].
      apply andb_prop in Hc as [_ Hi].
      apply splice_keeps_head; [lia|by apply insert_nonempty].
    + intros [= <-]. unfold keydown_arrow_up, clearKsel.
      repeat case_match; done.
    + intros [= <-]. unfold keydown_arrow_down, clearKsel.
      repeat case_match; done.
Qed.

Lemma delete_step_nonempty (st : State) (o : DeleteOp) :
  lines st <> [] -> lines (delete_step st o) <> [].
Proof.
  intros Hne. destruct o as [k b|ins|cs|e idx raw|dom|dom]; simpl.
  - exact Hne.
  - by apply deleteKsel_nonempty.
  - by apply deleteSelection_nonempty.
  - destruct (handleLineKeydown e idx raw st) as [s|] eqn:H; [|exact Hne].
    simpl. eapply handleLineKeydown_nonempty; eauto.
  - unfold global_delete.
    destruct (_ || _); [|exact Hne].
    destruct (currentCrossSel dom st) as [sel|]; [|exact Hne].
    by apply (deleteSelection_nonempty (Some sel) st).
  - unfold global_cut.
    destruct (_ || _); [|exact Hne].
    destruct (currentCrossSel dom st) as [sel|]; [|exact Hne].
    by apply (deleteSelection_nonempty (Some sel) (set_ksel None st)).
Qed.

Lemma delete_run_nonempty (ops : list DeleteOp) (st : State) :
  lines st <> [] -> lines (delete_run ops st) <> [].
Proof.
  revert st. induction ops as [|o ops IH]; intros st Hne; simpl.
  - exact Hne.
  - apply IH. by apply delete_step_nonempty.
Qed.

Lemma normalize_forward (k : Ksel) :
  anchorLine k < focusLine k
  \/ (anchorLine k = focusLine k /\ anchorOffset k <= focusOffset k) ->
  normalize k
  = mkCrossSel (anchorLine k) (anchorOffset k) (focusLine k) (focusOffset k).
Proof.
  intros H. unfold normalize.
  destruct (Z.ltb_spec (anchorLine k) (focusLine k)),
           (Z.eqb_spec (anchorLine k) (focusLine k)),
           (Z.leb_spec (anchorOffset k) (focusOffset k));
    try reflexivity; lia.
Qed.

Lemma normalize_backward (k : Ksel) :
  focusLine k < anchorLine k
  \/ (anchorLine k = focusLine k /\ focusOffset k < anchorOffset k) ->
  normalize k
  = mkCrossSel (focusLine k) (focusOffset k) (anchorLine k) (anchorOffset k).
Proof.
  intros H. unfold normalize.
  destruct (Z.ltb_spec (anchorLine k) (focusLine k)),
           (Z.eqb_spec (anchorLine k) (focusLine k)),
           (Z.leb_spec (anchorOffset k) (focusOffset k));
    try reflexivity; lia.
Qed.

Lemma arr_length_pos {A : Type} (a : list A) : a <> [] -> 0 < JS.arr_length a.
Proof.
  unfold JS.arr_length. destruct a; [done|]. simpl length. lia.
Qed.

Lemma normalize_whole_document (ls : list string) :
  ls <> [] ->
  normalize (mkKsel 0 0 (JS.arr_length ls - 1)
               (JS.str_length (JS.index_or_empty ls (JS.arr_length ls - 1))))
  = whole_document ls.
Proof.
  intros Hne. apply arr_length_pos in Hne.
  rewrite normalize_forward; [reflexivity|].
  cbn [anchorLine focusLine anchorOffset focusOffset].
  unfold JS.str_length. lia.
Qed.

Lemma whole_document_pieces (ls : list string) :
  before_of ls (whole_document ls) = EmptyString
  /\ after_of ls (whole_document ls) = EmptyString.
Proof.
  unfold before_of, after_of, whole_document. simpl. split.
  - apply slice_prefix_zero.
  - apply slice_suffix_at_end.
Qed.

Lemma splice_whole {A : Type} (a : list A) (items : list A) :
  JS.splice a 0 (JS.arr_length a - 1 - 0 + 1) items = items.
Proof.
  unfold JS.splice, JS.relative_index, JS.arr_length. simpl.
  rewrite drop_ge by lia. rewrite app_nil_r.
  replace (Z.to_nat (Z.min 0 (Z.of_nat (length a)))) with 0%nat by lia.
  reflexivity.
Qed.

Lemma substring_full (s : string) :
  String.substring 0 (String.length s) s = s.
Proof.
  induction s as [|c s IHs]; simpl; [reflexivity|]. by rewrite IHs.
Qed.

Lemma substring_split (n : nat) (s : string) :
  (n <= String.length s)%nat ->
  (String.substring 0 n s ++ String.substring n (String.length s - n) s)%string
  = s.
Proof.
  revert s. induction n as [|n IH]; intros s Hn.
  - rewrite substring_zero_length, Nat.sub_0_r, substring_full. reflexivity.
  - destruct s as [|c s]; simpl in Hn; [lia|].
    change ((String c (String.substring 0 n s
                       ++ String.substring n (String.length s - n) s))%string
            = String c s).
    f_equal. apply IH. lia.
Qed.

(** [slice(0, n)] is the line truncated to [n] characters and [slice(n)]
    is what is left of it. *)
Lemma slice_prefix_suffix (s : string) (n : Z) :
  0 <= n <= JS.str_length s ->
  (JS.slice s 0 (Some n) ++ JS.slice s n None)%string = s.
Proof.
  intros Hn. unfold JS.slice.
  rewrite !relative_index_in_range by lia.
  unfold JS.str_length in *.
  replace (Z.to_nat 0) with 0%nat by lia.
  replace (Z.to_nat (Z.max (n - 0) 0)) with (Z.to_nat n) by lia.
  replace (Z.to_nat (Z.max (Z.of_nat (String.length s) - n) 0))
    with (String.length s - Z.to_nat n)%nat by lia.
  apply substring_split. lia.
Qed.

(** ** The claims on range edits and on normalization *)

(** C1. Range delete on a normalized cross-line selection over existing
    lines puts the single line [before ++ after] in place of the lines
    [startLine .. endLine], through [deleteSelection] and through
    [deleteKsel] alike; on ["abc"; "def"; "ghi"] with the selection from
    (0, 1) to (2, 2) the document becomes ["ai"]. *)
Theorem range_delete_single_line (st : State) (sel : CrossSel)
    (Hsel : cross_line_in (lines st) sel) :
  let merged := (before_of (lines st) sel ++ after_of (lines st) sel)%string in
  (deleteSelection (Some sel) st).1 = true
  /\ lines (deleteSelection (Some sel) st).2
     = replace_range (lines st) sel [merged]
  /\ (forall k, ksel st = Some k -> normalize k = sel ->
        lines (deleteKsel None st) = replace_range (lines st) sel [merged])
  /\ lines doc_abc = ["abc"; "def"; "ghi"]%string
  /\ lines (deleteSelection (Some (mkCrossSel 0 1 2 2)) doc_abc).2
     = ["ai"]%string
  /\ lines (deleteKsel None (set_ksel (Some (mkKsel 0 1 2 2)) doc_abc))
     = ["ai"]%string
  /\ lines (deleteKsel None (set_ksel (Some (mkKsel 2 2 0 1)) doc_abc))
     = ["ai"]%string.
Proof.
  intros merged. rewrite deleteSelection_lines by exact Hsel.
  split; [reflexivity|]. split; [reflexivity|]. split.
  - intros k Hk Hn. subst sel.
    rewrite (deleteKsel_lines st k None Hk Hsel). reflexivity.
  - repeat split; vm_compute; reflexivity.
Qed.

Lemma range_delete_single_line_witness :
  lines (deleteSelection (Some (mkCrossSel 0 1 2 2)) doc_abc).2
  = replace_range (lines doc_abc) (mkCrossSel 0 1 2 2)
      [(before_of (lines doc_abc) (mkCrossSel 0 1 2 2)
        ++ after_of (lines doc_abc) (mkCrossSel 0 1 2 2))%string].
Proof.
  assert (H : cross_line_in (lines doc_abc) (mkCrossSel 0 1 2 2))
    by (repeat split; vm_compute; (reflexivity || discriminate)).
  exact (proj1 (proj2 (range_delete_single_line doc_abc _ H))).
Defined.

(** C7. With the payload ["\n"], the range replace of a cross-line
    keyboard selection over existing lines leaves exactly the two lines
    [before] and [after] in place of the lines [startLine .. endLine];
    this is what Enter does on such a selection. *)
Theorem range_replace_newline_two_lines (st : State) (k : Ksel)
    (Hk : ksel st = Some k)
    (Hsel : cross_line_in (lines st) (normalize k)) :
  lines (deleteKsel (Some JS.newline) st)
  = replace_range (lines st) (normalize k)
      [before_of (lines st) (normalize k); after_of (lines st) (normalize k)]
  /\ keydown_ksel (plain_key KEnter) st
     = Some (deleteKsel (Some JS.newline) st)
  /\ JS.arr_length (lines (deleteKsel (Some JS.newline) st))
     = JS.arr_length (lines st)
       - (endLine (normalize k) - startLine (normalize k) + 1) + 2.
Proof.
  pose proof (deleteKsel_lines st k (Some JS.newline) Hk Hsel) as H.
  rewrite bool_decide_eq_true_2 in H by reflexivity.
  split; [exact H|]. split.
  - unfold keydown_ksel. rewrite Hk.
    assert (Hc : is_cross_line k = true).
    { destruct Hsel as [Hs _]. unfold is_cross_line, normalize in *.
      destruct (_ || _); simpl in Hs;
        destruct (Z.eqb_spec (focusLine k) (anchorLine k)); simpl; auto; lia. }
    rewrite Hc. reflexivity.
  - rewrite H. destruct Hsel as [Hs He].
    unfold replace_range, JS.arr_length in *.
    rewrite !length_app, length_take, length_drop. simpl length. lia.
Qed.

Lemma range_replace_newline_two_lines_witness :
  lines (deleteKsel (Some JS.newline)
           (set_ksel (Some (mkKsel 2 2 0 1)) doc_abc))
  = ["a"; "i"]%string.
Proof.
  assert (Hs : cross_line_in (lines doc_abc) (normalize (mkKsel 2 2 0 1)))
    by (repeat split; vm_compute; (reflexivity || discriminate)).
  exact (eq_trans
           (proj1 (range_replace_newline_two_lines
                     (set_ksel (Some (mkKsel 2 2 0 1)) doc_abc)
                     (mkKsel 2 2 0 1) eq_refl Hs))
           eq_refl).
Defined.

(** C2. The document never becomes empty: whatever sequence of selections
    and delete operations (keyboard range delete or replace, pointer range
    delete, Backspace/Delete merges, cut) is run on a non-empty document,
    at least one line is left; and the range delete of the whole document
    leaves exactly one line, the empty one. *)
Theorem delete_keeps_document_nonempty (st : State) (ops : list DeleteOp)
    (Hne : lines st <> []) :
  lines (delete_run ops st) <> []
  /\ 1 <= JS.arr_length (lines (delete_run ops st))
  /\ lines (deleteKsel None (selectAll st)) = [EmptyString]
  /\ (forall sel, sel = whole_document (lines st) ->
        startLine sel <> endLine sel ->
        deleteSelection (Some sel) st
        = (true, set_crossLineSelActive false
                   (pushUndo (set_lines [EmptyString] st)))).
Proof.
  pose proof (delete_run_nonempty ops st Hne) as H.
  split; [exact H|]. split; [apply arr_length_pos in H; lia|].
  pose proof (whole_document_pieces (lines st)) as [Hb Ha].
  split.
  - unfold deleteKsel, kselNormalized, selectAll. simpl.
    rewrite (normalize_whole_document _ Hne), Hb, Ha.
    unfold whole_document; simpl. rewrite splice_whole. reflexivity.
  - intros sel -> Hd. unfold deleteSelection.
    destruct (Z.eqb_spec (startLine (whole_document (lines st)))
                         (endLine (whole_document (lines st)))); [done|].
    rewrite Hb, Ha. unfold whole_document; simpl.
    rewrite splice_whole. reflexivity.
Qed.

Lemma delete_keeps_document_nonempty_witness :
  lines (delete_run [DSelect (Some (mkKsel 2 3 0 0)) true;
                     DLineKey (plain_key KBackspace) 2
                              (mkTextarea "ghi"%string 3 3)]
                    doc_abc) <> []
  /\ lines (deleteKsel None (selectAll doc_abc)) = [EmptyString].
Proof.
  assert (Hne : lines doc_abc <> []) by (vm_compute; discriminate).
  destruct (delete_keeps_document_nonempty doc_abc
    [DSelect (Some (mkKsel 2 3 0 0)) true;
     DLineKey (plain_key KBackspace) 2 (mkTextarea "ghi"%string 3 3)] Hne)
    as (H1 & _ & H3 & _).
  exact (conj H1 H3).
Defined.

Lemma normalize_lex_le (k : Ksel) : lex_le (normalize k).
Proof.
  unfold lex_le, normalize.
  destruct (Z.ltb_spec (anchorLine k) (focusLine k)),
           (Z.eqb_spec (anchorLine k) (focusLine k)),
           (Z.leb_spec (anchorOffset k) (focusOffset k));
    simpl; lia.
Qed.

(** C3. Whatever the anchor and the focus of the keyboard selection, the
    range that [kselNormalized] returns has
    [(startLine, startOffset) <= (endLine, endOffset)] in lexicographic
    order (and it keeps the same two end points). *)
Theorem kselNormalized_ordered (st : State) (k : Ksel) (norm : CrossSel)
    (Hk : ksel st = Some k)
    (Hn : kselNormalized st = Some norm) :
  lex_le norm
  /\ (norm = mkCrossSel (anchorLine k) (anchorOffset k)
                        (focusLine k) (focusOffset k)
      \/ norm = mkCrossSel (focusLine k) (focusOffset k)
                           (anchorLine k) (anchorOffset k)).
Proof.
  unfold kselNormalized in Hn. rewrite Hk in Hn. injection Hn as <-.
  split; [apply normalize_lex_le|].
  unfold normalize. destruct (_ || _); auto.
Qed.

Lemma kselNormalized_ordered_witness :
  lex_le (mkCrossSel 0 1 2 2).
Proof.
  exact (proj1 (kselNormalized_ordered
                  (set_ksel (Some (mkKsel 2 2 0 1)) doc_abc)
                  (mkKsel 2 2 0 1) (mkCrossSel 0 1 2 2) eq_refl eq_refl)).
Defined.

(** ** The history manager *)

Lemma pop_push {A : Type} (a : list A) (x : A) :
  JS.pop (JS.push a x) = (Some x, a).
Proof.
  unfold JS.pop, JS.push. by rewrite last_snoc, removelast_last.
Qed.

Lemma pop_empty {A : Type} : JS.pop (@nil A) = (None, []).
Proof. reflexivity. Qed.

Lemma pop_None {A : Type} (a : list A) : (JS.pop a).1 = None -> a = [].
Proof.
  unfold JS.pop. simpl. destruct a as [|x a] using rev_ind; [done|].
  by rewrite last_snoc.
Qed.

Lemma undo_empty (st : State) : undoStack st = [] -> undo st = st.
Proof. intros H. unfold undo. by rewrite H. Qed.

Lemma undo_pops (st : State) (rest : list (list string)) (prev : list string) :
  undoStack st = JS.push rest prev ->
  undo st = mkState prev (ksel st) (crossLineSelActive st) rest
                    (JS.push (redoStack st) (lines st)) (undoPushTimer st).
Proof. intros H. unfold undo. by rewrite H, pop_push. Qed.

Lemma redo_empty (st : State) : redoStack st = [] -> redo st = st.
Proof. intros H. unfold redo. by rewrite H. Qed.

Lemma redo_pops (st : State) (rest : list (list string)) (next : list string) :
  redoStack st = JS.push rest next ->
  redo st = mkState next (ksel st) (crossLineSelActive st)
                    (JS.push (undoStack st) (lines st)) rest
                    (undoPushTimer st).
Proof. intros H. unfold redo. by rewrite H, pop_push. Qed.

Lemma redo_undo (st : State) : undoStack st <> [] -> redo (undo st) = st.
Proof.
  intros H. destruct (undoStack st) as [|prev rest] eqn:Hu using rev_ind;
    [done|]. clear IHrest.
  rewrite (undo_pops st rest prev Hu).
  erewrite redo_pops by reflexivity. simpl.
  unfold JS.push. rewrite <- Hu. by destruct st.
Qed.

Lemma undo_redo (st : State) : redoStack st <> [] -> undo (redo st) = st.
Proof.
  intros H. destruct (redoStack st) as [|next rest] eqn:Hr using rev_ind;
    [done|]. clear IHrest.
  rewrite (redo_pops st rest next Hr).
  erewrite undo_pops by reflexivity. simpl.
  unfold JS.push. rewrite <- Hr. by destruct st.
Qed.

Lemma commit_undoStack_nonempty (st : State) : undoStack (commit st) <> [].
Proof.
  unfold commit, same_as_top.
  destruct (last (undoStack st)) as [top|] eqn:Hl.
  - destruct (snapshot_eqb top (lines st)); simpl.
    + intros H. by rewrite H in Hl.
    + destruct (undoStack st) as [|x l]; [done|].
      unfold JS.push, JS.arr_length, JS.shift.
      destruct (Z.ltb_spec 200 (Z.of_nat (length ((x :: l) ++ [lines st]))));
        simpl; [|done].
      rewrite length_app in *. simpl in *.
      destruct l; simpl in *; [lia|done].
  - apply last_None in Hl. rewrite Hl. simpl. done.
Qed.

Lemma step_redo_needs_undo (st : State) (o : Op) :
  is_history_move o = false ->
  redo_needs_undo st -> redo_needs_undo (step st o).
Proof.
  intros Ho H. destruct o; try discriminate; simpl.
  - exact H.
  - left. apply commit_undoStack_nonempty.
  - right. reflexivity.
Qed.

Lemma run_redo_needs_undo (ops : list Op) (st : State) :
  forallb (fun o => negb (is_history_move o)) ops = true ->
  redo_needs_undo st -> redo_needs_undo (run ops st).
Proof.
  revert st. induction ops as [|o ops IH]; intros st Hops H; simpl in *.
  - exact H.
  - apply andb_prop in Hops as [Ho Hops].
    apply IH; [exact Hops|].
    apply step_redo_needs_undo; [|exact H].
    by destruct (is_history_move o).
Qed.

Lemma redo_undo_only_if (st : State) :
  redo (undo st) = st -> redo_needs_undo st.
Proof.
  intros H. unfold redo_needs_undo.
  destruct (undoStack st) as [|x l] eqn:Hu; [|by left].
  right. rewrite (undo_empty st Hu) in H.
  destruct (redoStack st) as [|next rest _] eqn:Hr using rev_ind; [done|].
  exfalso. rewrite (redo_pops st rest next Hr) in H.
  apply (f_equal undoStack) in H. cbn [undoStack] in H.
  rewrite Hu in H. discriminate.
Qed.

Lemma redo_undo_if (st : State) :
  redo_needs_undo st -> redo (undo st) = st.
Proof.
  intros [Hu|Hr]; [by apply redo_undo|].
  destruct (undoStack st) as [|x l] eqn:Hu.
  - rewrite (undo_empty st Hu). by apply redo_empty.
  - apply redo_undo. by rewrite Hu.
Qed.

(** C4, as the code has it. [undo()] does nothing on an empty undo stack;
    otherwise it pushes the current lines on the redo stack and restores
    the entry it pops; [redo()] is the mirror image.  [redo()] right after
    [undo()] gives back the state, lines and both stacks, exactly when the
    undo stack is not empty or the redo stack is empty.  That is so once
    the history commit has fired, and in every state reached by edits and
    commits with no [undo()] or [redo()] before them.  On an empty undo
    stack and a non-empty redo stack [undo()] does nothing and [redo()]
    then puts the top entry of the redo stack in place of the lines. *)
Theorem undo_redo_inverse :
  (forall s, undoStack s = [] -> undo s = s)
  /\ (forall s rest prev, undoStack s = rest ++ [prev] ->
        lines (undo s) = prev
        /\ undoStack (undo s) = rest
        /\ redoStack (undo s) = redoStack s ++ [lines s])
  /\ (forall s, redoStack s = [] -> redo s = s)
  /\ (forall s rest next, redoStack s = rest ++ [next] ->
        lines (redo s) = next
        /\ redoStack (redo s) = rest
        /\ undoStack (redo s) = undoStack s ++ [lines s])
  /\ (forall s, redo (undo s) = s
                <-> (undoStack s <> [] \/ redoStack s = []))
  /\ (forall s, redo (undo (commit s)) = commit s)
  /\ (forall s, reached_by_edits s ->
        redo (undo s) = s /\ lines (redo (undo s)) = lines s)
  /\ (forall s rest next, undoStack s = [] -> redoStack s = rest ++ [next] ->
        undo s = s
        /\ lines (redo (undo s)) = next
        /\ undoStack (redo (undo s)) = [lines s]
        /\ redoStack (redo (undo s)) = rest).
Proof.
  split; [exact undo_empty|]. split.
  { intros s rest prev H. by rewrite (undo_pops s rest prev H). }
  split; [exact redo_empty|]. split.
  { intros s rest next H. by rewrite (redo_pops s rest next H). }
  split.
  { intros s. split; [apply redo_undo_only_if|apply redo_undo_if]. }
  split.
  { intros s. apply redo_undo. apply commit_undoStack_nonempty. }
  split.
  { intros s (content & ops & Hops & ->).
    assert (H : redo (undo (run ops (init content))) = run ops (init content)).
    { apply redo_undo_if. apply run_redo_needs_undo; [exact Hops|].
      left. simpl. done. }
    split; [exact H|by rewrite H]. }
  intros s rest next Hu Hr.
  rewrite (undo_empty s Hu). split; [reflexivity|].
  rewrite (redo_pops s rest next Hr). cbn [lines undoStack redoStack].
  rewrite Hu. by repeat split.
Qed.

Lemma undo_redo_inverse_witness :
  lines (redo (undo (run [OEdit ["abX"; "def"]%string None false; OCommit]
                         doc_abc)))
  = ["abX"; "def"]%string.
Proof.
  assert (H : reached_by_edits
                (run [OEdit ["abX"; "def"]%string None false; OCommit]
                     doc_abc)).
  { exists text_abc_def_ghi,
           [OEdit ["abX"; "def"]%string None false; OCommit].
    split; reflexivity. }
  exact (proj2 (proj1 (proj2 (proj2 (proj2 (proj2 (proj2 (proj2
           undo_redo_inverse)))))) _ H)).
Defined.

(** C4 as stated fails: the state [edited_after_undo] is reached by an
    edit, the one that follows a Ctrl+Z in a session started by [init];
    its undo stack is empty and its redo stack holds the line sequence
    ["a"].  There [undo()] does nothing and [redo()] replaces the lines
    ["x"] by ["a"]: [redo()] after [undo()] does not restore the line
    sequence. *)
Lemma redo_after_undo_loses_edit :
  reachable edited_after_undo
  /\ edited_after_undo
     = edit ["x"%string] None false (undo (init "a"%string))
  /\ lines edited_after_undo = ["x"%string]
  /\ undoStack edited_after_undo = []
  /\ redoStack edited_after_undo = [["a"%string]]
  /\ undo edited_after_undo = edited_after_undo
  /\ lines (redo (undo edited_after_undo)) = ["a"%string]
  /\ lines (redo (undo edited_after_undo)) <> lines edited_after_undo.
Proof.
  split.
  { exists "a"%string, [OUndo; OEdit ["x"%string] None false]. reflexivity. }
  repeat split; try (vm_compute; reflexivity).
  vm_compute. discriminate.
Qed.

Lemma same_as_top_true (stack : list (list string)) (snapshot : list string) :
  same_as_top stack snapshot = true <-> exists rest, stack = rest ++ [snapshot].
Proof.
  unfold same_as_top, snapshot_eqb. split.
  - destruct stack as [|top rest _] using rev_ind; [done|].
    rewrite last_snoc. intros H%bool_decide_eq_true. subst. by exists rest.
  - intros [rest ->]. rewrite last_snoc. by apply bool_decide_eq_true.
Qed.


(** C5, as the code has it. When the debounced commit fires and the undo
    stack is not empty with a top equal to the current lines, nothing is
    pushed and the redo stack is left as it is; otherwise the snapshot is
    pushed on the undo stack (the oldest entry leaving when that makes
    more than 200) and the redo stack is emptied. *)
Theorem commit_pushes_unless_same_as_top (st : State) :
  (same_as_top (undoStack st) (lines st) = true
   <-> exists rest, undoStack st = rest ++ [lines st])
  /\ (same_as_top (undoStack st) (lines st) = true ->
        undoStack (commit st) = undoStack st
        /\ redoStack (commit st) = redoStack st)
  /\ (same_as_top (undoStack st) (lines st) = false ->
        undoStack (commit st)
        = (if 200 <? JS.arr_length (undoStack st) + 1
           then tail (undoStack st ++ [lines st])
           else undoStack st ++ [lines st])
        /\ redoStack (commit st) = [])
  /\ lines (commit st) = lines st
  /\ undoPushTimer (commit st) = false.
Proof.
  split; [apply same_as_top_true|].
  unfold commit. destruct (same_as_top (undoStack st) (lines st)) eqn:Hs.
  - repeat split; try done.
  - split; [done|]. split; [|done]. intros _. split; [|done]. simpl.
    unfold JS.push, JS.shift, JS.arr_length.
    rewrite length_app. simpl length.
    replace (Z.of_nat (length (undoStack st) + 1))
      with (Z.of_nat (length (undoStack st)) + 1) by lia.
    reflexivity.
Qed.

Lemma commit_pushes_unless_same_as_top_witness :
  undoStack (commit retyped) = undoStack retyped
  /\ redoStack (commit retyped) = redoStack retyped.
Proof.
  exact (proj1 (proj2 (commit_pushes_unless_same_as_top retyped)) eq_refl).
Defined.

(** C5 as stated fails: in the session [retyped_session] the commit fires
    on lines equal to the top of the undo stack, and the redo stack still
    holds its two entries afterwards. *)
Lemma commit_keeps_redo_on_identical_top :
  reachable retyped
  /\ undoPushTimer retyped = true
  /\ lines retyped = ["a"%string]
  /\ undoStack retyped = [["a"%string]]
  /\ redoStack (commit retyped) = [["abc"%string]; ["abc"%string]]
  /\ redoStack (commit retyped) <> [].
Proof.
  split; [by exists "a"%string, retyped_session|].
  repeat split; try (vm_compute; reflexivity). vm_compute. discriminate.
Qed.









(** ** Same-line selections and selection bounds *)

Lemma normalize_same_line (k : Ksel) :
  startLine (normalize k) = endLine (normalize k)
  <-> anchorLine k = focusLine k.
Proof.
  unfold normalize. destruct (_ || _); simpl; split; congruence.
Qed.

Lemma deleteSelection_true (crossSel : option CrossSel) (st st' : State) :
  deleteSelection crossSel st = (true, st') ->
  exists sel, crossSel = Some sel /\ startLine sel <> endLine sel.
Proof.
  unfold deleteSelection. destruct crossSel as [sel|]; [|discriminate].
  destruct (Z.eqb_spec (startLine sel) (endLine sel)); [discriminate|].
  intros _. by exists sel.
Qed.

Lemma getKselAsCross_cross (st : State) (sel : CrossSel) :
  getKselAsCross st = Some sel -> startLine sel <> endLine sel.
Proof.
  unfold getKselAsCross. destruct (kselNormalized st) as [n|]; [|discriminate].
  destruct (Z.eqb_spec (startLine n) (endLine n)); [discriminate|].
  by intros [= <-].
Qed.

Lemma getCrossLineSelection_cross (dom : Dom) (st : State) (sel : CrossSel) :
  getCrossLineSelection dom st = Some sel -> startLine sel <> endLine sel.
Proof.
  unfold getCrossLineSelection.
  destruct (selection dom) as [[s e]|]; [|discriminate].
  destruct (_ || _); [discriminate|].
  destruct (Z.eqb_spec (b_line s) (b_line e)); [discriminate|].
  by intros [= <-].
Qed.

Lemma currentCrossSel_cross (dom : Dom) (st : State) (sel : CrossSel) :
  currentCrossSel dom st = Some sel -> startLine sel <> endLine sel.
Proof.
  unfold currentCrossSel.
  destruct (getCrossLineSelection dom st) as [c|] eqn:Hc.
  - intros [= <-]. by eapply getCrossLineSelection_cross.
  - apply getKselAsCross_cross.
Qed.

(** C9. A selection that starts and ends on the same line is rejected by
    both extractions ([getKselAsCross] and [getCrossLineSelection] return
    [null]), [deleteSelection] returns [false] on it and leaves the state
    as it is, and the cross-line edits (the pointer and the global
    handlers through [deleteSelection], the line handler through
    [deleteKsel]) only run on a selection whose two lines differ. *)
Theorem same_line_selection_rejected (st : State) (dom : Dom) :
  (forall k, ksel st = Some k -> anchorLine k = focusLine k ->
     getKselAsCross st = None)
  /\ (forall s e, selection dom = Some (s, e) -> b_line s = b_line e ->
        getCrossLineSelection dom st = None)
  /\ (forall sel, startLine sel = endLine sel ->
        deleteSelection (Some sel) st = (false, st))
  /\ (forall sel, getKselAsCross st = Some sel -> startLine sel <> endLine sel)
  /\ (forall sel, getCrossLineSelection dom st = Some sel ->
        startLine sel <> endLine sel)
  /\ (forall crossSel st', deleteSelection crossSel st = (true, st') ->
        exists sel, crossSel = Some sel /\ startLine sel <> endLine sel)
  /\ (forall crossSel, lines (deleteSelection crossSel st).2 <> lines st ->
        exists sel, crossSel = Some sel /\ startLine sel <> endLine sel)
  /\ (forall e st', keydown_ksel e st = Some st' ->
        exists k, ksel st = Some k /\ anchorLine k <> focusLine k)
  /\ (forall st', global_delete dom st = Some st' ->
        exists sel, currentCrossSel dom st = Some sel
                    /\ startLine sel <> endLine sel)
  /\ (forall st', global_cut dom st = Some st' ->
        exists sel, currentCrossSel dom st = Some sel
                    /\ startLine sel <> endLine sel).
Proof.
  split.
  { intros k Hk Heq. unfold getKselAsCross, kselNormalized. rewrite Hk.
    apply normalize_same_line in Heq.
    by destruct (Z.eqb_spec (startLine (normalize k)) (endLine (normalize k))). }
  split.
  { intros s e Hsel Heq. unfold getCrossLineSelection. rewrite Hsel.
    destruct (_ || _); [done|].
    by destruct (Z.eqb_spec (b_line s) (b_line e)). }
  split.
  { intros sel Heq. unfold deleteSelection.
    by destruct (Z.eqb_spec (startLine sel) (endLine sel)). }
  split; [apply getKselAsCross_cross|].
  split; [apply getCrossLineSelection_cross|].
  split; [intros crossSel st'; apply deleteSelection_true|].
  split.
  { intros crossSel Hl.
    destruct (deleteSelection crossSel st) as [b st'] eqn:Hd.
    destruct b; [by eapply deleteSelection_true|].
    exfalso. apply Hl. unfold deleteSelection in Hd.
    destruct crossSel as [sel|]; [|by injection Hd as <-].
    destruct (startLine sel =? endLine sel); [by injection Hd as <-|done]. }
  split.
  { intros e st'. unfold keydown_ksel.
    destruct (ksel st) as [k|]; [|discriminate].
    unfold is_cross_line.
    destruct (Z.eqb_spec (focusLine k) (anchorLine k)); [discriminate|].
    intros _. exists k. split; [done|congruence]. }
  split.
  - intros st'. unfold global_delete. destruct (_ || _); [|discriminate].
    destruct (currentCrossSel dom st) as [sel|] eqn:Hc; [|discriminate].
    intros _. exists sel. split; [done|]. by eapply currentCrossSel_cross.
  - intros st'. unfold global_cut. destruct (_ || _); [|discriminate].
    destruct (currentCrossSel dom st) as [sel|] eqn:Hc; [|discriminate].
    intros _. exists sel. split; [done|]. by eapply currentCrossSel_cross.
Qed.

Lemma same_line_selection_rejected_witness :
  deleteSelection (Some (mkCrossSel 1 0 1 2)) doc_abc = (false, doc_abc).
Proof.
  exact (proj1 (proj2 (proj2
    (same_line_selection_rejected doc_abc (mkDom [] None))))
    (mkCrossSel 1 0 1 2) eq_refl).
Defined.

Lemma arrow_up_ksel (e : KeyEvent) (idx : Z) (raw : Textarea) (st : State) :
  shiftKey e = true -> 0 < idx ->
  ksel (keydown_arrow_up e idx raw st)
  = Some (mkKsel (anchorLine (ksel_or_caret idx raw st))
                 (anchorOffset (ksel_or_caret idx raw st))
                 (Z.max 0 (focusLine (ksel_or_caret idx raw st) - 1))
                 (JS.str_length
                    (JS.index_or_empty (lines st)
                       (Z.max 0 (focusLine (ksel_or_caret idx raw st) - 1))))).
Proof.
  intros Hs Hi. unfold keydown_arrow_up. rewrite Hs.
  destruct (Z.ltb_spec 0 idx); [reflexivity|lia].
Qed.

Lemma arrow_down_ksel (e : KeyEvent) (idx : Z) (raw : Textarea) (st : State) :
  shiftKey e = true -> idx < JS.arr_length (lines st) - 1 ->
  ksel (keydown_arrow_down e idx raw st)
  = Some (mkKsel (anchorLine (ksel_or_caret idx raw st))
                 (anchorOffset (ksel_or_caret idx raw st))
                 (Z.min (JS.arr_length (lines st) - 1)
                        (focusLine (ksel_or_caret idx raw st) + 1))
                 0).
Proof.
  intros Hs Hi. unfold keydown_arrow_down. rewrite Hs.
  destruct (Z.ltb_spec idx (JS.arr_length (lines st) - 1)); [reflexivity|lia].
Qed.

Lemma arrow_up_lines (e : KeyEvent) (idx : Z) (raw : Textarea) (st : State) :
  lines (keydown_arrow_up e idx raw st) = lines st.
Proof.
  unfold keydown_arrow_up, clearKsel. by repeat case_match.
Qed.

Lemma arrow_down_lines (e : KeyEvent) (idx : Z) (raw : Textarea) (st : State) :
  lines (keydown_arrow_down e idx raw st) = lines st.
Proof.
  unfold keydown_arrow_down, clearKsel. by repeat case_match.
Qed.

Lemma ksel_or_caret_in_bounds (idx : Z) (raw : Textarea) (st : State) :
  0 <= idx < JS.arr_length (lines st) -> ksel_in_bounds st ->
  0 <= anchorLine (ksel_or_caret idx raw st) < JS.arr_length (lines st)
  /\ 0 <= focusLine (ksel_or_caret idx raw st) < JS.arr_length (lines st).
Proof.
  intros Hi Hk. unfold ksel_or_caret, ksel_in_bounds in *.
  destruct (ksel st); simpl; [exact Hk|lia].
Qed.

(** C10, as the code has it. On an existing line [idx], Shift+ArrowUp
    (below the first line) sets the new [focusLine] to
    [Math.max(0, focusLine - 1)] and Shift+ArrowDown (above the last line)
    to [Math.min(lines.length - 1, focusLine + 1)].  So, when the keyboard
    selection held before the key press is absent or has its [anchorLine]
    and [focusLine] in [0, lines.length - 1], both are in
    [0, lines.length - 1] after the key press too. *)
Theorem shift_arrow_keeps_selection_in_bounds (st : State) (e : KeyEvent)
    (idx : Z) (raw : Textarea)
    (Hshift : shiftKey e = true)
    (Hidx : 0 <= idx < JS.arr_length (lines st))
    (Hk : ksel_in_bounds st) :
  ksel_in_bounds (keydown_arrow_up e idx raw st)
  /\ ksel_in_bounds (keydown_arrow_down e idx raw st)
  /\ (0 < idx ->
      exists k', ksel (keydown_arrow_up e idx raw st) = Some k'
                 /\ focusLine k'
                    = Z.max 0 (focusLine (ksel_or_caret idx raw st) - 1)
                 /\ 0 <= focusLine k' <= JS.arr_length (lines st) - 1)
  /\ (idx < JS.arr_length (lines st) - 1 ->
      exists k', ksel (keydown_arrow_down e idx raw st) = Some k'
                 /\ focusLine k'
                    = Z.min (JS.arr_length (lines st) - 1)
                            (focusLine (ksel_or_caret idx raw st) + 1)
                 /\ 0 <= focusLine k' <= JS.arr_length (lines st) - 1).
Proof.
  pose proof (ksel_or_caret_in_bounds idx raw st Hidx Hk) as [Ha Hf].
  split; [|split; [|split]].
  - unfold ksel_in_bounds. rewrite arrow_up_lines.
    destruct (Z.ltb_spec 0 idx) as [Hp|Hp].
    + rewrite arrow_up_ksel by done. simpl. lia.
    + unfold keydown_arrow_up.
      destruct (Z.ltb_spec 0 idx); [lia|exact Hk].
  - unfold ksel_in_bounds. rewrite arrow_down_lines.
    destruct (Z.ltb_spec idx (JS.arr_length (lines st) - 1)) as [Hp|Hp].
    + rewrite arrow_down_ksel by done. simpl. lia.
    + unfold keydown_arrow_down.
      destruct (Z.ltb_spec idx (JS.arr_length (lines st) - 1)); [lia|].
      rewrite Hshift. simpl. lia.
  - intros Hp. eexists. split; [by apply arrow_up_ksel|]. simpl. lia.
  - intros Hp. eexists. split; [by apply arrow_down_ksel|]. simpl. lia.
Qed.

Lemma shift_arrow_keeps_selection_in_bounds_witness :
  ksel_in_bounds
    (keydown_arrow_up (shift_key KArrowUp) 2 (mkTextarea "ghi"%string 1 1)
                      doc_abc).
Proof.
  assert (Hidx : 0 <= 2 < JS.arr_length (lines doc_abc))
    by (split; vm_compute; (reflexivity || discriminate)).
  exact (proj1 (shift_arrow_keeps_selection_in_bounds doc_abc
                  (shift_key KArrowUp) 2 (mkTextarea "ghi"%string 1 1)
                  eq_refl Hidx I)).
Defined.

(** C10 as stated fails: in the state [stale] the document has two lines
    and the selection left by Ctrl+A has [focusLine = 4]; Shift+ArrowUp on
    line 1 moves it to 3, which is no line of the document. *)
Lemma shift_arrow_up_stale_selection :
  lines stale = ["a"; "b"]%string
  /\ ksel stale = Some (mkKsel 0 0 4 1)
  /\ ksel (keydown_arrow_up (shift_key KArrowUp) 1 (mkTextarea "b"%string 1 1)
                            stale)
     = Some (mkKsel 0 0 3 0)
  /\ lines (keydown_arrow_up (shift_key KArrowUp) 1
                             (mkTextarea "b"%string 1 1) stale)
     = ["a"; "b"]%string
  /\ ~ ksel_in_bounds
         (keydown_arrow_up (shift_key KArrowUp) 1 (mkTextarea "b"%string 1 1)
                           stale).
Proof.
  repeat split; try (vm_compute; reflexivity).
  intros [_ [_ H]]. vm_compute in H. discriminate.
Qed.

(** ** Binary64 arithmetic of the proportional projection

    The projection divides and multiplies integers below [2^53].  Each of
    the two operations rounds to 53 digits, with a relative error of at
    most [2^-52]; [Math.round] then absorbs the two errors. *)

Lemma digits2_pos_bounds (p : positive) :
  2 ^ (Z.pos (digits2_pos p) - 1) <= Z.pos p < 2 ^ Z.pos (digits2_pos p).
Proof.
  induction p as [p IH|p IH|]; simpl digits2_pos.
  - rewrite Pos2Z.inj_succ.
    replace (Z.succ (Z.pos (digits2_pos p)) - 1)
      with (Z.succ (Z.pos (digits2_pos p) - 1)) by lia.
    rewrite !Z.pow_succ_r by lia. lia.
  - rewrite Pos2Z.inj_succ.
    replace (Z.succ (Z.pos (digits2_pos p)) - 1)
      with (Z.succ (Z.pos (digits2_pos p) - 1)) by lia.
    rewrite !Z.pow_succ_r by lia. lia.
  - simpl. lia.
Qed.

Lemma digits2_pos_unique (p : positive) (d : Z) :
  2 ^ (d - 1) <= Z.pos p < 2 ^ d -> Z.pos (digits2_pos p) = d.
Proof.
  intros [Hl Hu]. pose proof (digits2_pos_bounds p) as [Bl Bu].
  destruct (Z.lt_trichotomy (Z.pos (digits2_pos p)) d) as [H|[H|H]];
    [exfalso|exact H|exfalso].
  - assert (2 ^ Z.pos (digits2_pos p) <= 2 ^ (d - 1))
      by (apply Z.pow_le_mono_r; lia). lia.
  - assert (0 <= d \/ d < 0) as [Hd|Hd] by lia.
    + assert (2 ^ d <= 2 ^ (Z.pos (digits2_pos p) - 1))
        by (apply Z.pow_le_mono_r; lia). lia.
    + rewrite (Z.pow_neg_r 2 d) in Hu by lia. lia.
Qed.

Lemma shr_1_m (mrs : shr_record) :
  0 <= shr_m mrs -> shr_m (shr_1 mrs) = shr_m mrs / 2.
Proof.
  destruct mrs as [m r s]. simpl. intros Hm.
  rewrite <- Z.div2_div.
  destruct m as [|[p|p|]|p]; try reflexivity. lia.
Qed.

Lemma iter_pos_shr_1_m (p : positive) (mrs : shr_record) :
  0 <= shr_m mrs ->
  shr_m (SpecFloat.iter_pos shr_1 p mrs) = shr_m mrs / 2 ^ Z.pos p.
Proof.
  revert mrs. induction p as [p IH|p IH|]; intros mrs Hm; simpl SpecFloat.iter_pos.
  - assert (H1 : 0 <= shr_m (shr_1 mrs))
      by (rewrite shr_1_m by lia; apply Z.div_pos; lia).
    assert (H2 : 0 <= shr_m (SpecFloat.iter_pos shr_1 p (shr_1 mrs)))
      by (rewrite IH by lia; apply Z.div_pos; lia).
    rewrite IH, IH, shr_1_m by lia.
    rewrite !Z.div_div by lia.
    f_equal. rewrite (Pos2Z.inj_xI p).
    replace (2 * Z.pos p + 1) with (1 + Z.pos p + Z.pos p) by lia.
    rewrite (Z.pow_add_r 2 (1 + Z.pos p)), (Z.pow_add_r 2 1) by lia. lia.
  - assert (H2 : 0 <= shr_m (SpecFloat.iter_pos shr_1 p mrs))
      by (rewrite IH by lia; apply Z.div_pos; lia).
    rewrite IH, IH by lia.
    rewrite !Z.div_div by lia.
    f_equal. rewrite (Pos2Z.inj_xO p).
    replace (2 * Z.pos p) with (Z.pos p + Z.pos p) by lia.
    rewrite (Z.pow_add_r 2 (Z.pos p)) by lia. lia.
  - rewrite shr_1_m by lia. reflexivity.
Qed.

Lemma shr_record_of_loc_m (m : Z) (l : location) :
  shr_m (shr_record_of_loc m l) = m.
Proof. destruct l as [|[| |]]; reflexivity. Qed.

Lemma loc_of_shr_record_of_loc (m : Z) (l : location) :
  loc_of_shr_record (shr_record_of_loc m l) = l.
Proof. destruct l as [|[| |]]; reflexivity. Qed.

Lemma fexp_normal (e : Z) :
  -1021 <= e -> fexp Num.prec Num.emax e = e - 53.
Proof. unfold fexp, emin, Num.prec, Num.emax. lia. Qed.

(** Truncation of a mantissa of [53 + k] digits to 53 digits. *)
Lemma shr_fexp_normal (mx : positive) (ex k : Z) (lx : location) :
  Z.pos (digits2_pos mx) = 53 + k -> 0 <= k -> -1021 <= 53 + k + ex ->
  exists mrs,
    shr_fexp Num.prec Num.emax (Z.pos mx) ex lx = (mrs, ex + k)
    /\ shr_m mrs = Z.pos mx / 2 ^ k
    /\ (k = 0 -> loc_of_shr_record mrs = lx).
Proof.
  intros Hd Hk He. unfold shr_fexp. simpl Zdigits2.
  rewrite fexp_normal by lia.
  replace (Z.pos (digits2_pos mx) + ex - 53 - ex) with k by lia.
  unfold shr. destruct k as [|p|p]; [| |lia].
  - eexists. split; [rewrite Z.add_0_r; reflexivity|].
    rewrite shr_record_of_loc_m, Z.div_1_r.
    split; [reflexivity|]. intros _. apply loc_of_shr_record_of_loc.
  - eexists. split; [reflexivity|].
    rewrite iter_pos_shr_1_m by (rewrite shr_record_of_loc_m; lia).
    rewrite shr_record_of_loc_m. split; [reflexivity|lia].
Qed.

Lemma round_nearest_even_cases (m : Z) (l : location) :
  round_nearest_even m l = m \/ round_nearest_even m l = m + 1.
Proof.
  destruct l as [|[| |]]; simpl; auto. destruct (Z.even m); auto.
Qed.

Lemma pow2_53 : 2 ^ 53 = 9007199254740992. Proof. reflexivity. Qed.
Lemma pow2_52 : 2 ^ 52 = 4503599627370496. Proof. reflexivity. Qed.

(** [binary_round_aux] on a positive mantissa of at least 53 digits, in the
    normal range: the mantissa is cut to 53 digits, moved by at most one
    unit, and renormalised. *)
Lemma binary_round_aux_normal (mx : positive) (ex k : Z) (lx : location) :
  Z.pos (digits2_pos mx) = 53 + k -> 0 <= k ->
  -1021 <= 53 + k + ex -> 53 + k + ex <= 1023 ->
  exists (m : positive) (e m2 : Z),
    binary_round_aux Num.prec Num.emax false (Z.pos mx) ex lx
    = S754_finite false m e
    /\ 2 ^ 52 <= Z.pos m < 2 ^ 53
    /\ (m2 = Z.pos mx / 2 ^ k \/ m2 = Z.pos mx / 2 ^ k + 1)
    /\ (k = 0 -> lx = loc_Exact -> m2 = Z.pos mx)
    /\ ((e = ex + k /\ Z.pos m = m2)
        \/ (e = ex + k + 1 /\ m2 = 2 ^ 53 /\ Z.pos m = 2 ^ 52)).
Proof.
  intros Hd Hk Hlo Hhi.
  destruct (shr_fexp_normal mx ex k lx Hd Hk Hlo) as (mrs & Hs & Hm & Hl).
  unfold binary_round_aux. rewrite Hs.
  set (m2 := round_nearest_even (shr_m mrs) (loc_of_shr_record mrs)).
  pose proof (digits2_pos_bounds mx) as [Bl Bu]. rewrite Hd in Bl, Bu.
  assert (Hm1 : 2 ^ 52 <= Z.pos mx / 2 ^ k < 2 ^ 53).
  { assert (0 < 2 ^ k) by (apply Z.pow_pos_nonneg; lia).
    split.
    - apply Z.div_le_lower_bound; [lia|].
      replace (53 + k - 1) with (k + 52) in Bl by lia.
      rewrite Z.pow_add_r in Bl by lia. lia.
    - apply Z.div_lt_upper_bound; [lia|].
      rewrite Z.pow_add_r in Bu by lia. lia. }
  assert (Hm2 : m2 = Z.pos mx / 2 ^ k \/ m2 = Z.pos mx / 2 ^ k + 1).
  { unfold m2. rewrite Hm. apply round_nearest_even_cases. }
  assert (Hex : k = 0 -> lx = loc_Exact -> m2 = Z.pos mx).
  { intros -> ->. unfold m2. rewrite (Hl eq_refl), Hm. simpl.
    apply Z.div_1_r. }
  assert (Hcase : m2 < 2 ^ 53 \/ m2 = 2 ^ 53) by lia.
  destruct Hcase as [Hlt|Heq].
  - destruct m2 as [|p2|p2] eqn:E2; [lia| |lia].
    assert (Hd2 : Z.pos (digits2_pos p2) = 53 + 0)
      by (apply digits2_pos_unique; simpl; lia).
    destruct (shr_fexp_normal p2 (ex + k) 0 loc_Exact Hd2 ltac:(lia) ltac:(lia))
      as (mrs2 & Hs2 & Hmm2 & _).
    rewrite Hs2. rewrite Hmm2, Z.div_1_r.
    destruct (Z.leb_spec (ex + k + 0) (Num.emax - Num.prec));
      [|unfold Num.emax, Num.prec in *; lia].
    exists p2, (ex + k + 0), (Z.pos p2).
    repeat split; try lia; auto.
  - rewrite Heq in *.
    assert (Hd2 : Z.pos (digits2_pos 9007199254740992) = 53 + 1)
      by reflexivity.
    change (2 ^ 53) with (Z.pos 9007199254740992).
    destruct (shr_fexp_normal 9007199254740992 (ex + k) 1 loc_Exact Hd2
                ltac:(lia) ltac:(lia)) as (mrs2 & Hs2 & Hmm2 & _).
    rewrite Hs2. rewrite Hmm2.
    change (Z.pos 9007199254740992 / 2 ^ 1) with (Z.pos 4503599627370496).
    destruct (Z.leb_spec (ex + k + 1) (Num.emax - Num.prec));
      [|unfold Num.emax, Num.prec in *; lia].
    exists 4503599627370496%positive, (ex + k + 1), (2 ^ 53).
    split; [reflexivity|]. split; [simpl; lia|].
    split; [exact Hm2|]. split; [exact Hex|].
    right. repeat split.
Qed.

Lemma Q2_neq_0 : ~ (2 == 0)%Q.
Proof. discriminate. Qed.

Lemma Qpow2_pos (e : Z) : (0 < 2 ^ e)%Q.
Proof. apply Qpower_0_lt. reflexivity. Qed.

Lemma inject_Z_pow2 (k : Z) : 0 <= k -> (inject_Z (2 ^ k) == 2 ^ k)%Q.
Proof. intros Hk. apply (Zpower_Qpower 2 k Hk). Qed.

Lemma F2Q_shift (m e k : Z) :
  0 <= k -> (F2Q (m * 2 ^ k) e == F2Q m (e + k))%Q.
Proof.
  intros Hk. unfold F2Q.
  rewrite inject_Z_mult, (inject_Z_pow2 k Hk), (Qpower_plus 2 e k Q2_neq_0).
  ring.
Qed.

Lemma F2Q_int (z a : Z) : 0 <= a -> (F2Q (z * 2 ^ a) (- a) == inject_Z z)%Q.
Proof.
  intros Ha. rewrite (F2Q_shift z (- a) a Ha).
  replace (- a + a) with 0 by lia. unfold F2Q. simpl. ring.
Qed.

Lemma binary_round_aux_value (mx : positive) (ex k : Z) (lx : location)
    (x : Q) :
  Z.pos (digits2_pos mx) = 53 + k -> 0 <= k ->
  -1021 <= 53 + k + ex -> 53 + k + ex <= 1023 ->
  (inject_Z (Z.pos mx) <= x <= inject_Z (Z.pos mx) + 1)%Q ->
  exists (m : positive) (e : Z),
    binary_round_aux Num.prec Num.emax false (Z.pos mx) ex lx
    = S754_finite false m e
    /\ 2 ^ 52 <= Z.pos m < 2 ^ 53
    /\ ex + k <= e <= ex + k + 1
    /\ ((1 - u52) * (x * 2 ^ ex) <= F2Q (Z.pos m) e
        <= (1 + u52) * (x * 2 ^ ex))%Q.
Proof.
  intros Hd Hk Hlo Hhi [Hx1 Hx2].
  destruct (binary_round_aux_normal mx ex k lx Hd Hk Hlo Hhi)
    as (m & e & m2 & Heq & Hm & Hm2 & _ & Hcase).
  exists m, e. split; [exact Heq|]. split; [exact Hm|].
  split; [lia|].
  (* the value is [m2 * 2^(ex + k)] *)
  assert (Hv : (F2Q (Z.pos m) e == inject_Z m2 * inject_Z (2 ^ k) * 2 ^ ex)%Q).
  { destruct Hcase as [[-> ->]|(-> & -> & ->)].
    - unfold F2Q. rewrite (inject_Z_pow2 k Hk).
      rewrite (Qpower_plus 2 ex k Q2_neq_0). ring.
    - unfold F2Q. rewrite (inject_Z_pow2 k Hk).
      rewrite (Qpower_plus 2 (ex + k) 1 Q2_neq_0).
      rewrite (Qpower_plus 2 ex k Q2_neq_0).
      change (inject_Z (2 ^ 52)) with (4503599627370496 # 1)%Q.
      change (inject_Z (2 ^ 53)) with (9007199254740992 # 1)%Q.
      change (2 ^ 1)%Q with 2%Q. ring. }
  set (t := 2 ^ k) in *.
  assert (Ht : 0 < t) by (apply Z.pow_pos_nonneg; lia).
  pose proof (digits2_pos_bounds mx) as [Bl Bu]. rewrite Hd in Bl, Bu.
  replace (53 + k - 1) with (k + 52) in Bl by lia.
  rewrite Z.pow_add_r in Bl by lia. fold t in Bl.
  pose proof (Z.div_mod (Z.pos mx) t ltac:(lia)) as Hdm.
  pose proof (Z.mod_pos_bound (Z.pos mx) t Ht) as Hmod.
  set (m1 := Z.pos mx / t) in *.
  assert (H3z : 2 ^ 52 <= m1) by (apply Z.div_le_lower_bound; lia).
  assert (H1 : (inject_Z m1 * inject_Z t <= inject_Z (Z.pos mx))%Q)
    by (rewrite <- inject_Z_mult, <- Zle_Qle; lia).
  assert (H2 : (inject_Z (Z.pos mx) + 1
                <= inject_Z m1 * inject_Z t + inject_Z t)%Q).
  { change 1%Q with (inject_Z 1).
    rewrite <- inject_Z_mult, <- !inject_Z_plus, <- Zle_Qle. lia. }
  assert (H3 : ((4503599627370496 # 1) <= inject_Z m1)%Q).
  { change (4503599627370496 # 1)%Q with (inject_Z (2 ^ 52)).
    rewrite <- Zle_Qle. exact H3z. }
  assert (Ht' : (inject_Z 0 < inject_Z t)%Q) by (rewrite <- Zlt_Qlt; exact Ht).
  change (inject_Z 0) with 0%Q in Ht'.
  pose proof (Qpow2_pos ex) as HP.
  assert (Hm2' : (inject_Z m2 == inject_Z m1 \/ inject_Z m2 == inject_Z m1 + 1)%Q).
  { destruct Hm2 as [->| ->]; [left; reflexivity|right].
    rewrite inject_Z_plus. reflexivity. }
  rewrite Hv. unfold u52.
  set (T := inject_Z t) in *. set (M1 := inject_Z m1) in *.
  set (M2 := inject_Z m2) in *. set (P := (2 ^ ex)%Q) in *.
  set (X := inject_Z (Z.pos mx)) in *.
  assert (Ha : ((1 - (1 # 4503599627370496)) * x <= M2 * T)%Q).
  { destruct Hm2' as [E|E]; rewrite E; nra. }
  assert (Hb : (M2 * T <= (1 + (1 # 4503599627370496)) * x)%Q).
  { destruct Hm2' as [E|E]; rewrite E; nra. }
  split; nra.
Qed.

(** ** Integers as numbers *)

Lemma iter_xO_pow2 (d p : positive) :
  Z.pos (Pos.iter xO p d) = Z.pos p * 2 ^ Z.pos d.
Proof.
  induction d as [|d IH] using Pos.peano_ind.
  - simpl. lia.
  - rewrite Pos.iter_succ, Pos2Z.inj_xO, IH, Pos2Z.inj_succ.
    rewrite Z.pow_succ_r by lia. lia.
Qed.

Lemma of_int_normal (z : Z) :
  0 < z < 2 ^ 53 ->
  exists (m : positive) (e : Z),
    normal53 (Num.of_int z) m e /\ -52 <= e <= 0
    /\ (F2Q (Z.pos m) e == inject_Z z)%Q.
Proof.
  intros [Hz0 Hz]. destruct z as [|p|p]; [lia| |lia].
  unfold Num.of_int, binary_normalize, binary_round.
  pose proof (digits2_pos_bounds p) as [Bl Bu].
  set (d := Z.pos (digits2_pos p)) in *.
  assert (Hd : 1 <= d <= 53).
  { split; [unfold d; lia|].
    destruct (Z.le_gt_cases d 53) as [H|H]; [exact H|].
    assert (2 ^ 53 <= 2 ^ (d - 1)) by (apply Z.pow_le_mono_r; lia). lia. }
  rewrite fexp_normal by lia. unfold shl_align.
  replace (d + 0 - 53 - 0) with (d - 53) by lia.
  destruct (d - 53) as [|q|q] eqn:Hq; [|lia|].
  - (* 53 digits already *)
    assert (Hd53 : Z.pos (digits2_pos p) = 53 + 0) by (fold d; lia).
    destruct (binary_round_aux_normal p 0 0 loc_Exact Hd53
                ltac:(lia) ltac:(lia) ltac:(lia))
      as (m & e & m2 & Heq & Hm & _ & Hex & Hcase).
    specialize (Hex eq_refl eq_refl). subst m2.
    destruct Hcase as [[-> Hmp]|(_ & Habs & _)]; [|lia].
    exists m, (0 + 0). split; [split; [exact Heq|exact Hm]|].
    split; [lia|]. rewrite Hmp. unfold F2Q. simpl. ring.
  - (* shifted left by [53 - d] *)
    assert (Hqd : Z.pos q = 53 - d) by lia.
    assert (Hsh : Z.pos (Pos.iter xO p q) = Z.pos p * 2 ^ (53 - d))
      by (rewrite iter_xO_pow2, Hqd; reflexivity).
    assert (Hpow : 2 ^ (d - 1) * 2 ^ (53 - d) = 2 ^ 52).
    { rewrite <- Z.pow_add_r by lia. f_equal. lia. }
    assert (Hpow' : 2 ^ d * 2 ^ (53 - d) = 2 ^ 53).
    { rewrite <- Z.pow_add_r by lia. f_equal. lia. }
    assert (Ht : 0 < 2 ^ (53 - d)) by (apply Z.pow_pos_nonneg; lia).
    assert (Hb : 2 ^ 52 <= Z.pos (Pos.iter xO p q) < 2 ^ 53)
      by (rewrite Hsh; nia).
    assert (Hd53 : Z.pos (digits2_pos (Pos.iter xO p q)) = 53 + 0)
      by (apply digits2_pos_unique; exact Hb).
    destruct (binary_round_aux_normal (Pos.iter xO p q) (d + 0 - 53) 0
                loc_Exact Hd53 ltac:(lia) ltac:(lia) ltac:(lia))
      as (m & e & m2 & Heq & Hm & _ & Hex & Hcase).
    specialize (Hex eq_refl eq_refl). subst m2.
    destruct Hcase as [[-> Hmp]|(_ & Habs & _)]; [|lia].
    exists m, (d + 0 - 53 + 0). split; [split; [exact Heq|exact Hm]|].
    split; [lia|]. rewrite Hmp, Hsh.
    replace (d + 0 - 53 + 0) with (- (53 - d)) by lia.
    apply F2Q_int. lia.
Qed.

(** ** Division and multiplication of normal numbers *)

Lemma div_normal (x y : spec_float) (mx my : positive) (ex ey : Z) :
  normal53 x mx ex -> normal53 y my ey ->
  -52 <= ex <= 0 -> -52 <= ey <= 0 ->
  exists (m : positive) (e : Z),
    normal53 (Num.div x y) m e /\ -105 <= e <= 1
    /\ ((1 - u52) * (F2Q (Z.pos mx) ex / F2Q (Z.pos my) ey)
        <= F2Q (Z.pos m) e
        <= (1 + u52) * (F2Q (Z.pos mx) ex / F2Q (Z.pos my) ey))%Q.
Proof.
  intros [-> Hmx] [-> Hmy] Hex Hey.
  unfold Num.div, SFdiv, SFdiv_core_binary. simpl Zdigits2.
  rewrite (digits2_pos_unique mx 53), (digits2_pos_unique my 53)
    by (simpl; lia).
  replace (53 + ex - (53 + ey)) with (ex - ey) by lia.
  rewrite fexp_normal by lia.
  rewrite Z.min_l by lia.
  replace (ex - ey - (ex - ey - 53)) with 53 by lia.
  rewrite Z.shiftl_mul_pow2 by lia.
  pose proof (Z.div_eucl_eq (Z.pos mx * 2 ^ 53) (Z.pos my) ltac:(lia)) as Hdiv.
  pose proof (Z.mod_pos_bound (Z.pos mx * 2 ^ 53) (Z.pos my) ltac:(lia)) as Hmod.
  unfold Z.modulo in Hmod.
  destruct (Z.div_eucl (Z.pos mx * 2 ^ 53) (Z.pos my)) as [q r].
  (* the quotient has 53 or 54 digits *)
  assert (Hq : 2 ^ 52 <= q < 2 ^ 54).
  { change (2 ^ 52) with 4503599627370496 in *.
    change (2 ^ 53) with 9007199254740992 in *.
    change (2 ^ 54) with 18014398509481984. nia. }
  destruct q as [|pq|pq]; [lia| |lia].
  assert (Hk : exists k, 0 <= k <= 1 /\ Z.pos (digits2_pos pq) = 53 + k).
  { destruct (Z.lt_ge_cases (Z.pos pq) (2 ^ 53)) as [H|H].
    - exists 0. split; [lia|]. apply digits2_pos_unique. simpl. lia.
    - exists 1. split; [lia|]. apply digits2_pos_unique. simpl. lia. }
  destruct Hk as (k & Hk & Hd).
  set (xq := (inject_Z (Z.pos mx * 2 ^ 53) / inject_Z (Z.pos my))%Q).
  assert (Hmy' : (0 < inject_Z (Z.pos my))%Q)
    by (change 0%Q with (inject_Z 0); rewrite <- Zlt_Qlt; lia).
  assert (Hxq : (inject_Z (Z.pos pq) <= xq <= inject_Z (Z.pos pq) + 1)%Q).
  { unfold xq. split.
    - apply Qle_shift_div_l; [exact Hmy'|].
      rewrite <- inject_Z_mult, <- Zle_Qle. lia.
    - apply Qle_shift_div_r; [exact Hmy'|].
      change 1%Q with (inject_Z 1).
      rewrite <- inject_Z_plus, <- inject_Z_mult, <- Zle_Qle. lia. }
  destruct (binary_round_aux_value pq (ex - ey - 53) k
              (new_location (Z.pos my) r) xq Hd ltac:(lia) ltac:(lia)
              ltac:(lia) Hxq) as (m & e & Heq & Hm & He & Hv).
  exists m, e. split; [split; [exact Heq|exact Hm]|]. split; [lia|].
  assert (Hx : (xq * 2 ^ (ex - ey - 53)
                == F2Q (Z.pos mx) ex / F2Q (Z.pos my) ey)%Q).
  { unfold xq, F2Q. rewrite inject_Z_mult.
    change (inject_Z (2 ^ 53)) with (2 ^ 53)%Q.
    replace (ex - ey - 53) with (ex + (- ey) + (- 53)) by lia.
    rewrite !(Qpower_plus 2) by exact Q2_neq_0.
    rewrite (Qpower_opp 2 ey).
    pose proof (Qpow2_pos ey). pose proof (Qpow2_pos ex).
    change (2 ^ (-53))%Q with (/ 2 ^ 53)%Q.
    field. split; lra. }
  rewrite <- Hx. exact Hv.
Qed.

Lemma mul_normal (x y : spec_float) (mx my : positive) (ex ey : Z) :
  normal53 x mx ex -> normal53 y my ey ->
  -105 <= ex <= 1 -> -52 <= ey <= 0 ->
  exists (m : positive) (e : Z),
    normal53 (Num.mul x y) m e
    /\ ((1 - u52) * (F2Q (Z.pos mx) ex * F2Q (Z.pos my) ey)
        <= F2Q (Z.pos m) e
        <= (1 + u52) * (F2Q (Z.pos mx) ex * F2Q (Z.pos my) ey))%Q.
Proof.
  intros [-> Hmx] [-> Hmy] Hex Hey.
  unfold Num.mul, SFmul. simpl xorb.
  assert (Hp : 2 ^ 104 <= Z.pos (mx * my) < 2 ^ 106).
  { rewrite Pos2Z.inj_mul.
    change (2 ^ 52) with 4503599627370496 in *.
    change (2 ^ 53) with 9007199254740992 in *.
    change (2 ^ 104) with (4503599627370496 * 4503599627370496).
    change (2 ^ 106) with (9007199254740992 * 9007199254740992). nia. }
  assert (Hk : exists k, 52 <= k <= 53
                         /\ Z.pos (digits2_pos (mx * my)) = 53 + k).
  { destruct (Z.lt_ge_cases (Z.pos (mx * my)) (2 ^ 105)) as [H|H].
    - exists 52. split; [lia|]. apply digits2_pos_unique. simpl. lia.
    - exists 53. split; [lia|]. apply digits2_pos_unique. simpl. lia. }
  destruct Hk as (k & Hk & Hd).
  assert (Hxq : (inject_Z (Z.pos (mx * my)) <= inject_Z (Z.pos (mx * my))
                 <= inject_Z (Z.pos (mx * my)) + 1)%Q) by (split; lra).
  destruct (binary_round_aux_value (mx * my) (ex + ey) k loc_Exact
              (inject_Z (Z.pos (mx * my))) Hd ltac:(lia) ltac:(lia)
              ltac:(lia) Hxq) as (m & e & Heq & Hm & He & Hv).
  exists m, e. split; [split; [exact Heq|exact Hm]|].
  assert (Hx : (inject_Z (Z.pos (mx * my)) * 2 ^ (ex + ey)
                == F2Q (Z.pos mx) ex * F2Q (Z.pos my) ey)%Q).
  { unfold F2Q. rewrite Pos2Z.inj_mul, inject_Z_mult.
    rewrite (Qpower_plus 2 ex ey Q2_neq_0). ring. }
  rewrite <- Hx. exact Hv.
Qed.

(** ** [Math.round] *)

Lemma round_nearest (m : positive) (e c : Z) :
  (inject_Z c - (1 # 2) <= F2Q (Z.pos m) e)%Q ->
  (F2Q (Z.pos m) e < inject_Z c + (1 # 2))%Q ->
  Num.round (S754_finite false m e) = c.
Proof.
  intros Hlo Hhi. unfold Num.round.
  assert (Hmz : 0 < Z.pos m) by lia.
  generalize dependent (Z.pos m). intros mz Hlo Hhi Hmz.
  destruct (Z.leb_spec 0 e) as [He|He].
  - assert (Hv : (F2Q mz e == inject_Z (mz * 2 ^ e))%Q).
    { unfold F2Q. rewrite inject_Z_mult, (inject_Z_pow2 e He). reflexivity. }
    rewrite Hv in Hlo, Hhi. set (z := mz * 2 ^ e) in *.
    destruct (Z.lt_trichotomy z c) as [H|[H|H]]; [exfalso|exact H|exfalso].
    + assert (H' : z + 1 <= c) by lia.
      rewrite Zle_Qle, inject_Z_plus in H'. change (inject_Z 1) with 1%Q in H'.
      lra.
    + assert (H' : c + 1 <= z) by lia.
      rewrite Zle_Qle, inject_Z_plus in H'. change (inject_Z 1) with 1%Q in H'.
      lra.
  - set (t := 2 ^ (- e)).
    assert (Ht : 0 < t) by (apply Z.pow_pos_nonneg; lia).
    assert (Ht2 : 2 ^ (1 - e) = 2 * t).
    { unfold t. replace (1 - e) with (Z.succ (- e)) by lia.
      apply Z.pow_succ_r. lia. }
    rewrite Ht2.
    assert (HT : (0 < inject_Z t)%Q)
      by (change 0%Q with (inject_Z 0); rewrite <- Zlt_Qlt; exact Ht).
    assert (Hv : (F2Q mz e * inject_Z t == inject_Z mz)%Q).
    { unfold F2Q, t. rewrite (inject_Z_pow2 (- e)) by lia.
      rewrite <- Qmult_assoc, <- (Qpower_plus 2 e (- e) Q2_neq_0).
      replace (e + - e) with 0 by lia. simpl. ring. }
    assert (Hlo' : ((inject_Z c - (1 # 2)) * inject_Z t
                    <= inject_Z mz)%Q).
    { rewrite <- Hv. apply Qmult_le_compat_r; [exact Hlo|lra]. }
    assert (Hhi' : (inject_Z mz
                    < (inject_Z c + (1 # 2)) * inject_Z t)%Q).
    { rewrite <- Hv. apply Qmult_lt_compat_r; [exact HT|exact Hhi]. }
    apply Z.le_antisymm.
    + apply Z.lt_succ_r. apply Z.div_lt_upper_bound; [lia|].
      apply Z.nle_gt. intros H. rewrite Zle_Qle in H.
      unfold Z.succ in H. push_inject_Z H. lra.
    + apply Z.div_le_lower_bound; [lia|].
      apply Z.nlt_ge. intros H.
      assert (H' : 2 * mz + t + 1 <= 2 * t * c) by lia.
      rewrite Zle_Qle in H'.
      push_inject_Z H'. lra.
Qed.

(** ** The projection between texts of equal length *)

(** On lengths below [2^53] the number handed to [Math.round] is a zero or
    a positive finite number. *)
Lemma projection_is_finite (c n r : Z) :
  0 <= c < 2 ^ 53 -> 0 < n < 2 ^ 53 -> 0 <= r < 2 ^ 53 ->
  Num.mul (Num.div (Num.of_int c) (Num.of_int n)) (Num.of_int r)
  = S754_zero false
  \/ exists m e,
       Num.mul (Num.div (Num.of_int c) (Num.of_int n)) (Num.of_int r)
       = S754_finite false m e.
Proof.
  intros Hc Hn Hr.
  destruct (of_int_normal n Hn) as (mn & en & Nn & Hen & _).
  destruct (Z.eq_dec c 0) as [->|Hc0].
  { left. destruct Nn as [-> _].
    destruct (Z.eq_dec r 0) as [->|Hr0]; [reflexivity|].
    destruct (of_int_normal r ltac:(lia)) as (mr & er & [-> _] & _).
    reflexivity. }
  destruct (of_int_normal c ltac:(lia)) as (mc & ec & Nc & Hec & _).
  destruct (div_normal _ _ mc mn ec en Nc Nn Hec Hen)
    as (mq & eq & Nq & Heq & _).
  destruct (Z.eq_dec r 0) as [->|Hr0].
  { left. destruct Nq as [-> _]. reflexivity. }
  destruct (of_int_normal r ltac:(lia)) as (mr & er & Nr & Her & _).
  destruct (mul_normal _ _ mq mr eq er Nq Nr Heq Her) as (m & e & [-> _] & _).
  right. by exists m, e.
Qed.

Lemma project_equal_lengths (c n : Z) :
  0 <= c <= n -> 0 < n < 2 ^ 50 -> project c n n = c.
Proof.
  intros Hc Hn. unfold project.
  destruct (Z.eqb_spec n 0) as [H0|_]; [lia|].
  assert (Hn53 : 0 < n < 2 ^ 53).
  { split; [lia|]. change (2 ^ 50) with 1125899906842624 in Hn.
    change (2 ^ 53) with 9007199254740992. lia. }
  destruct (of_int_normal n Hn53) as (mn & en & Nn & Hen & Vn).
  destruct (Z.eq_dec c 0) as [->|Hc0].
  { destruct Nn as [-> _]. reflexivity. }
  assert (Hc53 : 0 < c < 2 ^ 53) by lia.
  destruct (of_int_normal c Hc53) as (mc & ec & Nc & Hec & Vc).
  destruct (div_normal _ _ mc mn ec en Nc Nn Hec Hen)
    as (mq & eq & Nq & Heq & Vq).
  destruct (mul_normal _ _ mq mn eq en Nq Nn Heq Hen)
    as (mp & ep & [-> _] & Vp).
  rewrite Vc, Vn in Vq. rewrite Vn in Vp.
  set (C := inject_Z c) in *. set (N := inject_Z n) in *.
  set (vq := F2Q (Z.pos mq) eq) in *. set (vp := F2Q (Z.pos mp) ep) in *.
  assert (HN : (0 < N)%Q)
    by (unfold N; change 0%Q with (inject_Z 0); rewrite <- Zlt_Qlt; lia).
  assert (HC : (0 < C)%Q)
    by (unfold C; change 0%Q with (inject_Z 0); rewrite <- Zlt_Qlt; lia).
  assert (HCb : (C <= 1125899906842623)%Q).
  { unfold C. change (1125899906842623)%Q with (inject_Z (2 ^ 50 - 1)).
    rewrite <- Zle_Qle. lia. }
  assert (Hq : ((1 - u52) * C <= vq * N <= (1 + u52) * C)%Q).
  { destruct Vq as [Vq1 Vq2].
    assert (E1 : ((1 - u52) * (C / N) * N == (1 - u52) * C)%Q)
      by (field; lra).
    assert (E2 : ((1 + u52) * (C / N) * N == (1 + u52) * C)%Q)
      by (field; lra).
    rewrite <- E1, <- E2.
    split; (apply Qmult_le_compat_r; [assumption|lra]). }
  unfold u52 in *.
  apply round_nearest; fold vp; fold C; lra.
Qed.

Lemma target_offset_equal_lengths (c n : Z) :
  0 <= c <= n -> n < 2 ^ 50 -> target_offset c n n = c.
Proof.
  intros Hc Hn. unfold target_offset.
  destruct (Z.ltb_spec 0 n) as [Hp|Hp].
  - pose proof (project_equal_lengths c n Hc (conj Hp Hn)) as H.
    unfold project in H.
    destruct (Z.eqb_spec n 0); [lia|exact H].
  - assert (n = 0) by lia. assert (c = 0) by lia. subst. reflexivity.
Qed.

Lemma offsetInLine_rendered (dom : Dom) (ls : list string) (b : Boundary)
    (lineIdx : Z) (el : LineEl) (nodes : list nat) :
  getLineEl dom lineIdx = Some el -> editing el = false ->
  rendered el = Some nodes ->
  offsetInLine dom ls b lineIdx
  = project (char_pos nodes b) (text_length nodes)
            (JS.str_length (JS.index_or_empty ls lineIdx)).
Proof.
  intros Hel He Hr. unfold offsetInLine. by rewrite Hel, He, Hr.
Qed.

(** C8. On a rendered line, the pointer-driven offset recovery returns
    [Math.round((charPos / renderedLength) * rawLength)], and [0] when
    the rendered text is empty.  When the rendered text and the raw text
    have the same length (below [2^50], beyond any string an engine
    holds), the binary64 computation is exact: the recovered offset is
    [charPos] for every [charPos] from [0] to that length.  The same holds
    for the inverse projection of [findTextNodeAtOffset]. *)
Theorem projection_exact_on_equal_lengths (charPos len : Z)
    (Hpos : 0 <= charPos <= len)
    (Hlen : len < 2 ^ 50) :
  project charPos len len = charPos
  /\ target_offset charPos len len = charPos
  /\ (forall rawLength, project charPos 0 rawLength = 0)
  /\ (forall fullLength rawLength, fullLength <> 0 ->
        project charPos fullLength rawLength
        = Num.round (Num.mul (Num.div (Num.of_int charPos)
                                      (Num.of_int fullLength))
                             (Num.of_int rawLength)))
  /\ (forall dom ls b lineIdx el nodes,
        getLineEl dom lineIdx = Some el -> editing el = false ->
        rendered el = Some nodes ->
        char_pos nodes b = charPos ->
        text_length nodes = len ->
        JS.str_length (JS.index_or_empty ls lineIdx) = len ->
        offsetInLine dom ls b lineIdx = charPos).
Proof.
  assert (Hp : project charPos len len = charPos).
  { destruct (Z.eq_dec len 0) as [->|Hne].
    - unfold project. simpl. lia.
    - apply project_equal_lengths; lia. }
  split; [exact Hp|].
  split; [by apply target_offset_equal_lengths|].
  split; [reflexivity|].
  split.
  - intros fullLength rawLength Hne. unfold project.
    by destruct (Z.eqb_spec fullLength 0).
  - intros dom ls b lineIdx el nodes Hel He Hr Hc Hf Hraw.
    rewrite (offsetInLine_rendered dom ls b lineIdx el nodes Hel He Hr).
    by rewrite Hc, Hf, Hraw.
Qed.

Lemma projection_exact_on_equal_lengths_witness :
  project 1 49 49 = 1
  /\ Num.mul (Num.div (Num.of_int 1) (Num.of_int 49)) (Num.of_int 49)
     = S754_finite false 9007199254740991 (-53).
Proof.
  assert (Hpos : 0 <= 1 <= 49) by lia.
  assert (Hlen : 49 < 2 ^ 50) by reflexivity.
  exact (conj (proj1 (projection_exact_on_equal_lengths 1 49 Hpos Hlen))
              eq_refl).
Defined.

(** * The rest of the editor core: proofs *)

(** ** Saving and loading *)

Lemma join_newline_cons (x : string) (rest : list string) :
  rest <> [] ->
  join_newline (x :: rest) = (x ++ JS.newline ++ join_newline rest)%string.
Proof. destruct rest; [done|reflexivity]. Qed.

Lemma string_app_assoc (a b c : string) :
  ((a ++ b) ++ c)%string = (a ++ b ++ c)%string.
Proof.
  induction a as [|x a IH]; [reflexivity|].
  change (String x ((a ++ b) ++ c)%string = String x (a ++ b ++ c)%string).
  f_equal. exact IH.
Qed.

Lemma string_app_nil_r (a : string) : (a ++ EmptyString)%string = a.
Proof.
  induction a as [|x a IH]; [reflexivity|].
  change (String x (a ++ EmptyString)%string = String x a).
  f_equal. exact IH.
Qed.

Lemma split_newline_aux_nonempty (cur s : string) :
  split_newline_aux cur s <> [].
Proof.
  revert cur. induction s as [|c s IH]; intros cur; simpl; [done|].
  destruct (Ascii.eqb c (ascii_of_nat 10)); [done|apply IH].
Qed.

Lemma join_split_aux (cur s : string) :
  join_newline (split_newline_aux cur s) = (cur ++ s)%string.
Proof.
  revert cur. induction s as [|c s IH]; intros cur; simpl split_newline_aux.
  - simpl. by rewrite string_app_nil_r.
  - destruct (Ascii.eqb_spec c (ascii_of_nat 10)) as [->|Hc].
    + rewrite join_newline_cons by apply split_newline_aux_nonempty.
      rewrite IH. reflexivity.
    + rewrite IH, string_app_assoc. reflexivity.
Qed.

Lemma no_newline_app (a b : string) :
  no_newline (a ++ b) = no_newline a && no_newline b.
Proof.
  induction a as [|c a IH]; simpl; [reflexivity|].
  rewrite IH. by rewrite andb_assoc.
Qed.

Lemma split_aux_no_newline (cur s : string) :
  no_newline s = true -> split_newline_aux cur s = [(cur ++ s)%string].
Proof.
  revert cur. induction s as [|c s IH]; intros cur H; simpl in *.
  - by rewrite string_app_nil_r.
  - apply andb_prop in H as [Hc Hs].
    destruct (Ascii.eqb c (ascii_of_nat 10)); [discriminate|].
    rewrite IH by exact Hs. by rewrite string_app_assoc.
Qed.

Lemma split_aux_app_newline (cur a s : string) :
  no_newline a = true ->
  split_newline_aux cur (a ++ JS.newline ++ s)
  = (cur ++ a)%string :: split_newline_aux EmptyString s.
Proof.
  revert cur. induction a as [|c a IH]; intros cur H; simpl in *.
  - by rewrite string_app_nil_r.
  - apply andb_prop in H as [Hc Ha].
    destruct (Ascii.eqb c (ascii_of_nat 10)); [discriminate|].
    rewrite IH by exact Ha. by rewrite string_app_assoc.
Qed.

Lemma split_join (ls : list string) :
  ls <> [] -> Forall (fun l => no_newline l = true) ls ->
  split_newline (join_newline ls) = ls.
Proof.
  intros Hne Hall. unfold split_newline.
  induction Hall as [|x rest Hx Hrest IH]; [done|].
  destruct rest as [|y rest].
  - simpl. by rewrite split_aux_no_newline.
  - rewrite join_newline_cons by done.
    rewrite split_aux_app_newline by exact Hx.
    simpl. f_equal. by apply IH.
Qed.

(** X1. Loading then saving gives the text back: after [setContent(text)]
    the content that [saveDocument] writes, [lines.join('\n')], is [text]
    itself, and the document has at least one line. *)
Theorem save_after_load (text : string) (st : State) :
  saved_content (setContent text st) = text
  /\ lines (setContent text st) <> [].
Proof.
  unfold saved_content, setContent, split_newline. simpl.
  pose proof (split_newline_aux_nonempty EmptyString text) as Hne.
  destruct (split_newline_aux EmptyString text) as [|x l] eqn:E; [done|].
  change (JS.arr_length (x :: l) =? 0) with false. simpl lines.
  split; [|done]. rewrite <- E. apply join_split_aux.
Qed.

(** X2. Saving then loading gives the lines back: when the document is
    not empty and none of its lines holds a newline character,
    [setContent(lines.join('\n'))] restores exactly these lines (and
    empties both history stacks). *)
Theorem load_after_save (st st' : State)
    (Hne : lines st <> [])
    (Hnl : Forall (fun l => no_newline l = true) (lines st)) :
  lines (setContent (saved_content st) st') = lines st
  /\ undoStack (setContent (saved_content st) st') = []
  /\ redoStack (setContent (saved_content st) st') = [].
Proof.
  unfold setContent, saved_content. simpl.
  rewrite (split_join _ Hne Hnl).
  split; [|done]. by apply ensure_nonempty_id.
Qed.

Lemma load_after_save_witness :
  lines (setContent (saved_content doc_abc) retyped) = lines doc_abc.
Proof.
  assert (Hne : lines doc_abc <> []) by (vm_compute; discriminate).
  assert (Hnl : Forall (fun l => no_newline l = true) (lines doc_abc))
    by (repeat constructor).
  exact (proj1 (load_after_save doc_abc retyped Hne Hnl)).
Defined.

(** ** Copy, cut and paste *)

Lemma join_newline_snoc_app (mid : list string) (y q : string) :
  (join_newline (mid ++ [y]) ++ q)%string = join_newline (mid ++ [(y ++ q)%string]).
Proof.
  induction mid as [|x mid IH]; [reflexivity|].
  change ((x :: mid) ++ [y]) with (x :: (mid ++ [y])).
  change ((x :: mid) ++ [(y ++ q)%string]) with (x :: (mid ++ [(y ++ q)%string])).
  rewrite !join_newline_cons by (by destruct mid).
  rewrite !string_app_assoc, IH. reflexivity.
Qed.

Lemma join_newline_wrap (p x : string) (mid : list string) (y q : string) :
  (p ++ join_newline (x :: mid ++ [y]) ++ q)%string
  = join_newline ((p ++ x)%string :: mid ++ [(y ++ q)%string]).
Proof.
  rewrite !join_newline_cons by (by destruct mid).
  rewrite !string_app_assoc, join_newline_snoc_app. reflexivity.
Qed.

Lemma index_or_empty_lookup (ls : list string) (i : Z) (l : string) :
  0 <= i -> ls !! Z.to_nat i = Some l -> JS.index_or_empty ls i = l.
Proof.
  intros Hi Hl. unfold JS.index_or_empty, JS.index.
  destruct (Z.ltb_spec i 0); [lia|]. by rewrite Hl.
Qed.

Lemma index_or_empty_seqZ (ls : list string) (a n : Z) :
  0 <= a -> 0 <= n -> a + n <= JS.arr_length ls ->
  JS.index_or_empty ls <$> seqZ a n
  = take (Z.to_nat n) (drop (Z.to_nat a) ls).
Proof.
  intros Ha Hn Hlen. unfold JS.arr_length in Hlen.
  apply list_eq. intros k.
  rewrite list_lookup_fmap.
  destruct (decide (k < Z.to_nat n)%nat) as [Hk|Hk].
  - rewrite lookup_seqZ_lt by lia. simpl.
    rewrite lookup_take_lt by lia. rewrite lookup_drop.
    destruct (ls !! (Z.to_nat a + k)%nat) as [l|] eqn:El.
    + f_equal. apply index_or_empty_lookup; [lia|].
      by replace (Z.to_nat (a + Z.of_nat k)) with (Z.to_nat a + k)%nat by lia.
    + apply lookup_ge_None in El. lia.
  - rewrite lookup_seqZ_ge by lia. simpl.
    symmetry. apply lookup_ge_None. rewrite length_take. lia.
Qed.

Lemma lines_between_split (ls : list string) (s e : Z) :
  0 <= s < e -> e < JS.arr_length ls ->
  lines_between ls s e
  = JS.index_or_empty ls s
      :: lines_between ls (s + 1) (e - 1) ++ [JS.index_or_empty ls e].
Proof.
  intros Hs He. unfold lines_between.
  rewrite <- !index_or_empty_seqZ by lia.
  replace (e - s + 1) with (1 + ((e - 1 - (s + 1) + 1) + 1)) by lia.
  rewrite seqZ_app by lia. rewrite (seqZ_app (s + 1)) by lia.
  rewrite !fmap_app.
  replace (s + 1 + (e - 1 - (s + 1) + 1)) with e by lia.
  reflexivity.
Qed.

Lemma selection_parts_cross (ls : list string) (sel : CrossSel) :
  cross_line_in ls sel ->
  selection_parts ls sel
  = JS.slice (JS.index_or_empty ls (startLine sel)) (startOffset sel) None
      :: lines_between ls (startLine sel + 1) (endLine sel - 1)
      ++ [JS.slice (JS.index_or_empty ls (endLine sel)) 0
                   (Some (endOffset sel))].
Proof.
  intros [Hs He]. unfold selection_parts, lines_between.
  set (s := startLine sel) in *. set (e := endLine sel) in *.
  rewrite <- index_or_empty_seqZ by lia.
  replace (e - s + 1) with (1 + ((e - 1 - (s + 1) + 1) + 1)) by lia.
  rewrite seqZ_app by lia. rewrite (seqZ_app (s + 1)) by lia.
  rewrite !fmap_app.
  replace (s + 1 + (e - 1 - (s + 1) + 1)) with e by lia.
  change (seqZ s 1) with [s]. change (seqZ e 1) with [e]. simpl.
  f_equal; [|f_equal].
  - unfold selection_part. fold s e.
    rewrite Z.eqb_refl. destruct (Z.eqb_spec s e); [lia|reflexivity].
  - apply list_fmap_ext. intros k i Hi.
    apply lookup_seqZ in Hi as [-> Hk].
    unfold selection_part. fold s e.
    destruct (Z.eqb_spec (s + 1 + Z.of_nat k) s); [lia|].
    destruct (Z.eqb_spec (s + 1 + Z.of_nat k) e); [lia|reflexivity].
  - unfold selection_part. fold s e.
    rewrite Z.eqb_refl. destruct (Z.eqb_spec e s); [lia|reflexivity].
Qed.

Lemma copy_partition (ls : list string) (sel : CrossSel) :
  cross_line_in ls sel -> offsets_in ls sel ->
  (before_of ls sel ++ copied_text ls sel ++ after_of ls sel)%string
  = join_newline (lines_between ls (startLine sel) (endLine sel)).
Proof.
  intros Hsel [Hso Heo]. unfold copied_text.
  rewrite (selection_parts_cross ls sel Hsel).
  destruct Hsel as [Hs He].
  rewrite (lines_between_split ls _ _ Hs He).
  unfold before_of, after_of.
  rewrite join_newline_wrap.
  by rewrite !slice_prefix_suffix.
Qed.

(** X3. What copy takes and what cut leaves make up the selected lines:
    for a cross-line selection over existing lines with offsets inside
    their lines, [before + copiedText + after] is the text of the lines
    [startLine .. endLine] joined by newlines. *)
Theorem copy_and_remainder_partition (st : State) (sel : CrossSel)
    (Hsel : cross_line_in (lines st) sel)
    (Hoff : offsets_in (lines st) sel) :
  (before_of (lines st) sel ++ copied_text (lines st) sel
   ++ after_of (lines st) sel)%string
  = join_newline (lines_between (lines st) (startLine sel) (endLine sel))
  /\ JS.arr_length (selection_parts (lines st) sel)
     = endLine sel - startLine sel + 1.
Proof.
  split; [by apply copy_partition|].
  unfold selection_parts, JS.arr_length.
  rewrite length_fmap, length_seqZ. destruct Hsel. lia.
Qed.

Lemma copy_and_remainder_partition_witness :
  (before_of (lines doc_abc) (mkCrossSel 0 1 2 2)
   ++ copied_text (lines doc_abc) (mkCrossSel 0 1 2 2)
   ++ after_of (lines doc_abc) (mkCrossSel 0 1 2 2))%string
  = join_newline (lines_between (lines doc_abc) 0 2).
Proof.
  assert (Hsel : cross_line_in (lines doc_abc) (mkCrossSel 0 1 2 2))
    by (repeat split; vm_compute; (reflexivity || discriminate)).
  assert (Hoff : offsets_in (lines doc_abc) (mkCrossSel 0 1 2 2))
    by (repeat split; vm_compute; (reflexivity || discriminate)).
  exact (proj1 (copy_and_remainder_partition doc_abc _ Hsel Hoff)).
Defined.

Lemma string_length_app (a b : string) :
  String.length (a ++ b) = (String.length a + String.length b)%nat.
Proof.
  induction a as [|x a IH]; [reflexivity|].
  change (S (String.length (a ++ b)) = S (String.length a + String.length b)).
  by rewrite IH.
Qed.

Lemma substring_app_prefix (a b : string) :
  String.substring 0 (String.length a) (a ++ b) = a.
Proof.
  induction a as [|x a IH]; [apply substring_zero_length|].
  change (String x (String.substring 0 (String.length a) (a ++ b))
          = String x a).
  by rewrite IH.
Qed.

Lemma substring_app_suffix (a b : string) :
  String.substring (String.length a) (String.length b) (a ++ b) = b.
Proof.
  induction a as [|x a IH]; [apply substring_full|exact IH].
Qed.

Lemma slice_app_prefix (a b : string) :
  JS.slice (a ++ b) 0 (Some (JS.str_length a)) = a.
Proof.
  unfold JS.slice, JS.str_length. rewrite string_length_app.
  rewrite !relative_index_in_range by lia.
  replace (Z.to_nat 0) with 0%nat by lia.
  replace (Z.to_nat (Z.max (Z.of_nat (String.length a) - 0) 0))
    with (String.length a) by lia.
  apply substring_app_prefix.
Qed.

Lemma slice_app_suffix (a b : string) :
  JS.slice (a ++ b) (JS.str_length a) None = b.
Proof.
  unfold JS.slice, JS.str_length. rewrite string_length_app.
  rewrite !relative_index_in_range by lia.
  replace (Z.to_nat (Z.of_nat (String.length a))) with (String.length a)
    by lia.
  replace (Z.to_nat (Z.max (Z.of_nat (String.length a + String.length b)
                            - Z.of_nat (String.length a)) 0))
    with (String.length b) by lia.
  apply substring_app_suffix.
Qed.

Lemma lines_between_length (ls : list string) (s e : Z) :
  0 <= s <= e + 1 -> e < JS.arr_length ls ->
  length (lines_between ls s e) = Z.to_nat (e - s + 1).
Proof.
  intros Hs He. unfold lines_between, JS.arr_length in *.
  rewrite length_take, length_drop. lia.
Qed.

Lemma replace_lines_between (ls : list string) (s e : Z) :
  0 <= s <= e -> e < JS.arr_length ls ->
  take (Z.to_nat s) ls ++ lines_between ls s e ++ drop (S (Z.to_nat e)) ls
  = ls.
Proof.
  intros Hs He. unfold lines_between, JS.arr_length in *.
  rewrite <- (take_drop (Z.to_nat s) ls) at 4. f_equal.
  rewrite <- (take_drop (Z.to_nat (e - s + 1)) (drop (Z.to_nat s) ls)) at 2.
  f_equal. rewrite drop_drop. f_equal. lia.
Qed.

(** X4. Pasting what was cut restores the document: after the range
    delete of a cross-line selection (offsets inside their lines, no
    newline character inside the selected lines), pasting the text that
    copy or cut put on the clipboard at the caret the delete leaves (line
    [startLine], offset [before.length]) gives back the original lines. *)
Theorem paste_after_cut_restores (st : State) (sel : CrossSel)
    (Hsel : cross_line_in (lines st) sel)
    (Hoff : offsets_in (lines st) sel)
    (Hnl : Forall (fun l => no_newline l = true)
                  (lines_between (lines st) (startLine sel) (endLine sel))) :
  let cut := (deleteSelection (Some sel) st).2 in
  let caret := JS.str_length (before_of (lines st) sel) in
  let raw := mkTextarea (JS.index_or_empty (lines cut) (startLine sel))
                        caret caret in
  exists st',
    insertTextAtCursor (copied_text (lines st) sel) (startLine sel) raw cut
    = Some st'
    /\ lines st' = lines st.
Proof.
  intros cut caret raw.
  pose proof Hsel as [Hs He].
  assert (Hcut : lines cut
                 = replace_range (lines st) sel
                     [(before_of (lines st) sel
                       ++ after_of (lines st) sel)%string]).
  { unfold cut. by rewrite (deleteSelection_lines st sel Hsel). }
  assert (Hlen : JS.arr_length (lines cut)
                 = JS.arr_length (lines st)
                   - (endLine sel - startLine sel)).
  { rewrite Hcut. unfold replace_range, JS.arr_length in *.
    rewrite !length_app, length_take, length_drop. simpl length. lia. }
  assert (Hline : JS.index_or_empty (lines cut) (startLine sel)
                  = (before_of (lines st) sel ++ after_of (lines st) sel)%string).
  { apply index_or_empty_lookup; [lia|].
    rewrite Hcut. unfold replace_range, JS.arr_length in *.
    rewrite lookup_app_r by (rewrite length_take; lia).
    rewrite length_take.
    replace (Z.to_nat (startLine sel)
             - Z.to_nat (startLine sel) `min` length (lines st))%nat
      with 0%nat by lia.
    reflexivity. }
  unfold insertTextAtCursor. subst raw. simpl value.
  simpl selectionStart. simpl selectionEnd.
  rewrite Hline. unfold caret.
  rewrite slice_app_prefix, slice_app_suffix.
  rewrite (copy_partition _ _ Hsel Hoff).
  assert (Hne : lines_between (lines st) (startLine sel) (endLine sel) <> []).
  { intros E. apply (f_equal length) in E.
    rewrite lines_between_length in E by lia. simpl in E. lia. }
  rewrite (split_join _ Hne Hnl).
  destruct (Z.leb_spec 0 (startLine sel)); [|lia].
  destruct (Z.ltb_spec (startLine sel) (JS.arr_length (lines cut))); [|lia].
  simpl andb. cbv iota.
  unfold JS.arr_length at 1. rewrite lines_between_length by lia.
  destruct (Z.eqb_spec (Z.of_nat (Z.to_nat (endLine sel - startLine sel + 1))) 1);
    [lia|].
  eexists. split; [reflexivity|]. simpl lines.
  unfold JS.splice. rewrite relative_index_in_range by lia.
  rewrite Hlen. rewrite Hcut. unfold replace_range, JS.arr_length in *.
  rewrite take_app_le by (rewrite length_take; lia).
  rewrite take_take.
  replace (Z.to_nat (startLine sel) `min` Z.to_nat (startLine sel))%nat
    with (Z.to_nat (startLine sel)) by lia.
  rewrite drop_app_ge by (rewrite length_take; lia).
  rewrite length_take.
  replace (Z.to_nat (startLine sel
             + Z.min (Z.max 1 0)
                 (Z.of_nat (length (lines st))
                  - (endLine sel - startLine sel) - startLine sel))
           - Z.to_nat (startLine sel) `min` length (lines st))%nat
    with 1%nat by lia.
  simpl drop.
  apply replace_lines_between; unfold JS.arr_length; lia.
Qed.

Lemma paste_after_cut_restores_witness :
  exists st',
    insertTextAtCursor (copied_text (lines doc_abc) (mkCrossSel 0 1 2 2)) 0
      (mkTextarea "ai"%string 1 1)
      (deleteSelection (Some (mkCrossSel 0 1 2 2)) doc_abc).2
    = Some st'
    /\ lines st' = ["abc"; "def"; "ghi"]%string.
Proof.
  assert (Hsel : cross_line_in (lines doc_abc) (mkCrossSel 0 1 2 2))
    by (repeat split; vm_compute; (reflexivity || discriminate)).
  assert (Hoff : offsets_in (lines doc_abc) (mkCrossSel 0 1 2 2))
    by (repeat split; vm_compute; (reflexivity || discriminate)).
  assert (Hnl : Forall (fun l => no_newline l = true)
                       (lines_between (lines doc_abc) 0 2))
    by (repeat constructor).
  exact (paste_after_cut_restores doc_abc (mkCrossSel 0 1 2 2) Hsel Hoff Hnl).
Defined.

Lemma lines_between_all (ls : list string) :
  lines_between ls 0 (JS.arr_length ls - 1) = ls.
Proof.
  unfold lines_between, JS.arr_length. simpl drop.
  apply take_ge. lia.
Qed.

Lemma copied_text_whole_document (ls : list string) :
  2 <= JS.arr_length ls ->
  copied_text ls (whole_document ls) = join_newline ls.
Proof.
  intros Hlen.
  assert (Hsel : cross_line_in ls (whole_document ls))
    by (unfold cross_line_in, whole_document; simpl; lia).
  assert (Hoff : offsets_in ls (whole_document ls)).
  { unfold offsets_in, whole_document, JS.str_length. simpl. lia. }
  pose proof (copy_partition ls _ Hsel Hoff) as H.
  destruct (whole_document_pieces ls) as [Hb Ha].
  rewrite Hb, Ha, string_app_nil_r in H.
  unfold whole_document in H at 2 3. simpl in H.
  by rewrite lines_between_all in H.
Qed.

Lemma getKselAsCross_selectAll (st : State) :
  2 <= JS.arr_length (lines st) ->
  getKselAsCross (selectAll st) = Some (whole_document (lines st))
  /\ crossLineSelActive (selectAll st) = true
  /\ lines (selectAll st) = lines st.
Proof.
  intros Hlen.
  assert (Hne : lines st <> []).
  { intros E. rewrite E in Hlen. unfold JS.arr_length in Hlen. simpl in Hlen.
    lia. }
  split; [|split; reflexivity].
  unfold getKselAsCross, kselNormalized.
  change (ksel (selectAll st))
    with (Some (mkKsel 0 0 (JS.arr_length (lines st) - 1)
                  (JS.str_length
                     (JS.index_or_empty (lines st)
                        (JS.arr_length (lines st) - 1))))).
  cbv beta iota.
  rewrite (normalize_whole_document _ Hne).
  change (startLine (whole_document (lines st))) with 0.
  change (endLine (whole_document (lines st)))
    with (JS.arr_length (lines st) - 1).
  destruct (Z.eqb_spec 0 (JS.arr_length (lines st) - 1)); [lia|reflexivity].
Qed.

(** X5. Copy after select-all takes the whole document: on a document of
    at least two lines, once [selectAll] has run (the browser's selection
    then lies on the container, outside every line, so that
    [getCrossLineSelection] gives nothing), the Ctrl/Cmd+C handler puts
    [lines.join('\n')] on the clipboard, the very text [saveDocument]
    writes and the one-shot [oncopy] handler of [selectAll] supplies. *)
Theorem copy_after_select_all (st : State) (dom : Dom)
    (Hlen : 2 <= JS.arr_length (lines st))
    (Hdom : getCrossLineSelection dom (selectAll st) = None) :
  global_copy dom (selectAll st) = Some (saved_content st).
Proof.
  destruct (getKselAsCross_selectAll st Hlen) as (Hk & Ha & Hl).
  unfold global_copy, currentCrossSel. rewrite Hdom, Hk, Ha, Hl.
  cbv [orb]. unfold saved_content. f_equal.
  by apply copied_text_whole_document.
Qed.

Lemma copy_after_select_all_witness :
  global_copy (mkDom [] None) (selectAll doc_abc)
  = Some text_abc_def_ghi.
Proof.
  assert (Hlen : 2 <= JS.arr_length (lines doc_abc))
    by (vm_compute; discriminate).
  exact (copy_after_select_all doc_abc (mkDom [] None) Hlen eq_refl).
Defined.

(** ** Fence analyzer *)

Lemma fence_scan_length (ls : list string) (i : Z) (st : FenceState) :
  length (fence_scan ls i st) = length ls.
Proof.
  revert i st. induction ls as [|l ls IH]; intros i st; simpl; [done|].
  by rewrite IH.
Qed.

Lemma fence_scan_lookup (ls : list string) (i : Z) (st : FenceState)
    (k : nat) :
  (k < length ls)%nat ->
  fence_scan ls i st !! k = Some (fence_before ls i st k).
Proof.
  revert i st k. induction ls as [|l ls IH]; intros i st k Hk; simpl in Hk.
  - lia.
  - destruct k as [|k]; [reflexivity|]. simpl. apply IH. lia.
Qed.

Lemma fence_before_succ (ls : list string) (i : Z) (st : FenceState)
    (k : nat) (line : string) :
  ls !! k = Some line ->
  fence_before ls i st (S k)
  = fence_next (fence_before ls i st k) (i + Z.of_nat k) line.
Proof.
  revert i st k. induction ls as [|l ls IH]; intros i st k Hl.
  - done.
  - destruct k as [|k].
    + injection Hl as ->.
      change (fence_next st i line = fence_next st (i + 0) line).
      by rewrite Z.add_0_r.
    + simpl in Hl. change (fence_before (l :: ls) i st (S (S k)))
        with (fence_before ls (i + 1) (fence_next st i l) (S k)).
      rewrite (IH _ _ _ Hl).
      change (fence_before (l :: ls) i st (S k))
        with (fence_before ls (i + 1) (fence_next st i l) k).
      f_equal. lia.
Qed.

Lemma scan_at_succ (ls : list string) (k : nat) :
  (k < length ls)%nat ->
  scan_at ls (S k)
  = fence_next (scan_at ls k) (Z.of_nat k)
               (JS.index_or_empty ls (Z.of_nat k)).
Proof.
  intros Hk. destruct (lookup_lt_is_Some_2 ls k Hk) as [line Hl].
  unfold scan_at.
  rewrite (fence_before_succ ls 0 fence_outside k line Hl).
  rewrite Z.add_0_l. f_equal. symmetry.
  apply index_or_empty_lookup.
  - lia.
  - rewrite Nat2Z.id. exact Hl.
Qed.

Lemma computeFenceStates_lookup (ls : list string) (idx : Z) :
  0 <= idx < JS.arr_length ls ->
  JS.index (computeFenceStates ls) idx = Some (scan_at ls (Z.to_nat idx)).
Proof.
  intros Hi. unfold JS.index, computeFenceStates, JS.arr_length in *.
  destruct (Z.ltb_spec idx 0); [lia|].
  unfold scan_at. apply fence_scan_lookup. lia.
Qed.

Lemma computeFenceStates_outside (ls : list string) (idx : Z) :
  idx < 0 \/ JS.arr_length ls <= idx ->
  JS.index (computeFenceStates ls) idx = None.
Proof.
  intros Hi. unfold JS.index, computeFenceStates, JS.arr_length in *.
  destruct (Z.ltb_spec idx 0); [done|].
  apply lookup_ge_None. rewrite fence_scan_length. lia.
Qed.

Lemma scan_invariant_holds (ls : list string) (k : nat) :
  (k <= length ls)%nat -> scan_invariant ls k.
Proof.
  induction k as [|k IH]; intros Hk.
  - left. split; reflexivity.
  - specialize (IH ltac:(lia)). unfold scan_invariant in *.
    rewrite (scan_at_succ ls k) by lia.
    set (st := scan_at ls k) in *.
    set (line := JS.index_or_empty ls (Z.of_nat k)).
    unfold fence_next.
    destruct (starts_fence line) eqn:Hf.
    + destruct IH as [[Hin Hs]|(Hin & Hs & Hat & Hout & Hno)]; rewrite Hin.
      * right. simpl. rewrite Nat2Z.id. fold st.
        repeat split; try lia; try done.
      * left. split; reflexivity.
    + destruct IH as [[Hin Hs]|(Hin & Hs & Hat & Hout & Hno)].
      * left. by split.
      * right. repeat split; try lia; try done.
        intros j Hj. destruct (Z.eq_dec j (Z.of_nat k)) as [->|Hne].
        -- unfold fence_at. fold line. by rewrite Hf.
        -- apply Hno. lia.
Qed.

(** Once a block is opened at line [s], the scan stays inside it, with
    [fenceStart = s], as long as it meets no delimiter. *)
Lemma scan_inside (ls : list string) (s : Z) (k : nat) :
  0 <= s < Z.of_nat k -> (k <= length ls)%nat ->
  inFence (scan_at ls (Z.to_nat s)) = false -> fence_at ls s ->
  (forall j, s < j < Z.of_nat k -> ~ fence_at ls j) ->
  inFence (scan_at ls k) = true /\ fenceStart (scan_at ls k) = s.
Proof.
  induction k as [|k IH]; intros Hs Hk Hout Hat Hno; [lia|].
  rewrite (scan_at_succ ls k) by lia.
  destruct (Z.eq_dec s (Z.of_nat k)) as [E|E].
  - subst s. rewrite Nat2Z.id in Hout. unfold fence_next.
    unfold fence_at in Hat. rewrite Hat, Hout. simpl. done.
  - destruct IH as [Hin Hst]; try lia; try done.
    { intros j Hj. apply Hno. lia. }
    unfold fence_next.
    destruct (starts_fence (JS.index_or_empty ls (Z.of_nat k))) eqn:Hf.
    + exfalso. apply (Hno (Z.of_nat k)); [lia|exact Hf].
    + by split.
Qed.

Lemma find_fence_spec (ls : list string) (from : Z) :
  0 <= from <= JS.arr_length ls ->
  let e := find_fence (drop (Z.to_nat from) ls) from in
  (e = -1 /\ forall j, from <= j < JS.arr_length ls -> ~ fence_at ls j)
  \/ (from <= e < JS.arr_length ls /\ fence_at ls e
      /\ forall j, from <= j < e -> ~ fence_at ls j).
Proof.
  unfold JS.arr_length. intros Hfrom.
  remember (Z.to_nat (Z.of_nat (length ls) - from)) as n eqn:Hn.
  revert from Hfrom Hn. induction n as [|n IH]; intros from Hfrom Hn.
  - assert (from = Z.of_nat (length ls)) by lia. subst from.
    rewrite Nat2Z.id, drop_all. simpl. left. split; [done|]. intros j Hj. lia.
  - destruct (lookup_lt_is_Some_2 ls (Z.to_nat from) ltac:(lia)) as [l Hl].
    rewrite (drop_S _ _ _ Hl). simpl find_fence.
    assert (Hline : JS.index_or_empty ls from = l)
      by (apply index_or_empty_lookup; [lia|exact Hl]).
    destruct (starts_fence l) eqn:Hf.
    + right. split; [lia|]. split; [unfold fence_at; by rewrite Hline|].
      intros j Hj. lia.
    + specialize (IH (from + 1) ltac:(lia) ltac:(lia)).
      replace (Z.to_nat (from + 1)) with (S (Z.to_nat from)) in IH by lia.
      simpl in IH.
      assert (Hnf : ~ fence_at ls from)
        by (unfold fence_at; rewrite Hline, Hf; done).
      destruct IH as [[He Hno]|(He & Hat & Hno)].
      * left. split; [exact He|]. intros j Hj.
        destruct (Z.eq_dec j from) as [->|]; [exact Hnf|apply Hno; lia].
      * right. split; [lia|]. split; [exact Hat|]. intros j Hj.
        destruct (Z.eq_dec j from) as [->|]; [exact Hnf|apply Hno; lia].
Qed.

Lemma fence_end_spec (ls : list string) (s : Z) :
  0 <= s < JS.arr_length ls ->
  s <= fence_end ls s < JS.arr_length ls
  /\ (forall j, s < j < fence_end ls s -> ~ fence_at ls j)
  /\ (fence_at ls (fence_end ls s) /\ s < fence_end ls s
      \/ fence_end ls s = JS.arr_length ls - 1
         /\ forall j, s < j < JS.arr_length ls -> ~ fence_at ls j).
Proof.
  intros Hs. unfold fence_end.
  destruct (find_fence_spec ls (s + 1) ltac:(lia))
    as [[He Hno]|(He & Hat & Hno)]; cbv zeta in *.
  - rewrite He. simpl. split; [lia|]. split.
    + intros j Hj. apply Hno. lia.
    + right. split; [done|]. intros j Hj. apply Hno. lia.
  - destruct (Z.ltb_spec (find_fence (drop (Z.to_nat (s + 1)) ls) (s + 1)) 0);
      [lia|].
    split; [lia|]. split.
    + intros j Hj. apply Hno. lia.
    + left. split; [exact Hat|lia].
Qed.

Lemma getFenceRange_block (ls : list string) (idx s e : Z) :
  getFenceRange ls idx = Some (s, e) ->
  fence_block ls s e /\ s <= idx <= e.
Proof.
  unfold getFenceRange.
  destruct (Z.lt_ge_cases idx 0) as [Hneg|Hpos];
    [by rewrite computeFenceStates_outside by lia|].
  destruct (Z.lt_ge_cases idx (JS.arr_length ls)) as [Hlt|Hge];
    [|by rewrite computeFenceStates_outside by lia].
  rewrite computeFenceStates_lookup by lia.
  pose proof (scan_invariant_holds ls (Z.to_nat idx)
                ltac:(unfold JS.arr_length in *; lia)) as Hinv.
  unfold scan_invariant in Hinv. cbv zeta in Hinv.
  set (st := scan_at ls (Z.to_nat idx)) in *.
  fold (fence_end ls (if starts_fence (JS.index_or_empty ls idx)
                         && negb (inFence st) then idx else fenceStart st)).
  destruct Hinv as [[Hin Hst]|(Hin & Hst & Hat & Hout & Hno)]; rewrite Hin.
  - destruct (starts_fence (JS.index_or_empty ls idx)) eqn:Hf; simpl;
      [|discriminate].
    destruct (Z.ltb_spec idx 0); [lia|].
    intros Heq. injection Heq as <- <-.
    destruct (fence_end_spec ls idx ltac:(lia)) as (Hb & Hno & Hend).
    split; [|lia]. unfold fence_block.
    repeat split; try lia; try done.
  - simpl negb. rewrite !andb_false_r. simpl.
    destruct (Z.ltb_spec (fenceStart st) 0); [lia|].
    intros Heq. injection Heq as <- <-.
    destruct (fence_end_spec ls (fenceStart st) ltac:(lia))
      as (Hb & Hno' & Hend).
    assert (Hidx : idx <= fence_end ls (fenceStart st)).
    { destruct Hend as [[Hfe Hlt']|[-> _]]; [|lia].
      destruct (Z.le_gt_cases idx (fence_end ls (fenceStart st)));
        [done|].
      exfalso. apply (Hno (fence_end ls (fenceStart st))); [lia|exact Hfe]. }
    split; [|lia]. unfold fence_block.
    repeat split; try lia; try done.
Qed.

Lemma fence_block_range (ls : list string) (s e j : Z) :
  fence_block ls s e -> s <= j <= e -> getFenceRange ls j = Some (s, e).
Proof.
  intros (Hse & He & Hat & Hout & Hno & Hend & Heq) Hj.
  unfold getFenceRange.
  rewrite computeFenceStates_lookup by lia.
  fold (fence_end ls (if starts_fence (JS.index_or_empty ls j)
                         && negb (inFence (scan_at ls (Z.to_nat j)))
                      then j else fenceStart (scan_at ls (Z.to_nat j)))).
  destruct (Z.eq_dec j s) as [->|Hne].
  - unfold fence_at in Hat. rewrite Hat, Hout. simpl.
    destruct (Z.ltb_spec s 0); [lia|]. by rewrite Heq.
  - destruct (scan_inside ls s (Z.to_nat j)) as [Hin Hst];
      try (unfold JS.arr_length in *; lia); try done.
    { intros i Hi. apply Hno. lia. }
    rewrite Hin. simpl negb. rewrite !andb_false_r. simpl. rewrite Hst.
    destruct (Z.ltb_spec s 0); [lia|]. by rewrite Heq.
Qed.

(** X6. The fence range of a line contains the line and stays inside the
    document: when [getFenceRange(idx)] returns [{start, end}], then
    [0 <= start <= idx <= end < lines.length], line [start] is a delimiter,
    no delimiter lies strictly between [start] and [end], and [end] is a
    delimiter or, for an unclosed block, the last line. *)
Theorem fence_range_contains_line (ls : list string) (idx s e : Z)
    (Hr : getFenceRange ls idx = Some (s, e)) :
  0 <= s /\ s <= idx /\ idx <= e /\ e < JS.arr_length ls
  /\ fence_at ls s
  /\ (forall j, s < j < e -> ~ fence_at ls j)
  /\ (fence_at ls e \/ e = JS.arr_length ls - 1).
Proof.
  destruct (getFenceRange_block ls idx s e Hr)
    as [(Hse & He & Hat & Hout & Hno & Hend & Heq) Hi].
  repeat split; try lia; try done.
  destruct Hend as [[H _]|[H _]]; auto.
Qed.

(** X7. Fence blocks are shared and never overlap: every line inside the
    range that [getFenceRange] returns for a line gets that same range,
    so two lines have equal ranges or ranges with no line in common. *)
Theorem fence_range_shared (ls : list string) (idx s e : Z)
    (Hr : getFenceRange ls idx = Some (s, e)) :
  (forall j, s <= j <= e -> getFenceRange ls j = Some (s, e))
  /\ (forall idx' s' e', getFenceRange ls idx' = Some (s', e') ->
        (s', e') = (s, e) \/ e' < s \/ e < s').
Proof.
  destruct (getFenceRange_block ls idx s e Hr) as [Hb Hi].
  split; [intros j Hj; by apply fence_block_range|].
  intros idx' s' e' Hr'.
  destruct (getFenceRange_block ls idx' s' e' Hr') as [Hb' Hi'].
  destruct (Z.lt_ge_cases e' s) as [|H1]; [auto|].
  destruct (Z.lt_ge_cases e s') as [|H2]; [auto|].
  left.
  (* the ranges meet at [Z.max s s'] *)
  pose proof (fence_block_range ls s e (Z.max s s') Hb ltac:(lia)) as E1.
  pose proof (fence_block_range ls s' e' (Z.max s s') Hb' ltac:(lia)) as E2.
  congruence.
Qed.

Lemma fence_range_contains_line_witness :
  0 <= 1 /\ 1 <= 2 /\ 2 <= 3 /\ 3 < JS.arr_length doc_fenced
  /\ fence_at doc_fenced 1
  /\ (forall j, 1 < j < 3 -> ~ fence_at doc_fenced j)
  /\ (fence_at doc_fenced 3 \/ 3 = JS.arr_length doc_fenced - 1).
Proof.
  exact (fence_range_contains_line doc_fenced 2 1 3 eq_refl).
Defined.

Lemma fence_range_shared_witness :
  getFenceRange doc_fenced 2 = Some (1, 3)
  /\ (forall j, 1 <= j <= 3 -> getFenceRange doc_fenced j = Some (1, 3)).
Proof.
  split; [reflexivity|].
  exact (proj1 (fence_range_shared doc_fenced 2 1 3 eq_refl)).
Defined.

(** X8. [getFenceRange] answers [null] for an index that is no line of
    the document, and for every index when no line of the document starts
    with the delimiter. *)
Theorem fence_range_none (ls : list string) (idx : Z)
    (H : (idx < 0 \/ JS.arr_length ls <= idx)
         \/ (forall j, 0 <= j < JS.arr_length ls -> ~ fence_at ls j)) :
  getFenceRange ls idx = None.
Proof.
  destruct H as [Hout|Hno].
  - unfold getFenceRange. by rewrite computeFenceStates_outside.
  - destruct (getFenceRange ls idx) as [[s e]|] eqn:Hr; [|reflexivity].
    destruct (getFenceRange_block ls idx s e Hr)
      as [(Hse & He & Hat & _) _].
    exfalso. apply (Hno s); [lia|exact Hat].
Qed.

Lemma fence_range_none_witness :
  getFenceRange doc_fenced 5 = None.
Proof.
  apply fence_range_none. left. right. vm_compute. discriminate.
Defined.

(** ** Painting the keyboard selection *)

Lemma walk_found (nodes : list nat) (r : nat) (off c : Z) (len : nat) :
  nodes !! r = Some len ->
  walk nodes r off c = Some (c + Z.of_nat (sum_list (take r nodes)) + off).
Proof.
  revert r c. induction nodes as [|n nodes IH]; intros r c Hl; [done|].
  destruct r as [|r]; simpl.
  - f_equal. lia.
  - rewrite (IH r _ Hl). f_equal. lia.
Qed.

Lemma find_walk_spec (nodes : list nat) (rank : nat) (pos t : Z)
    (lastNode : option (nat * Z)) :
  nodes <> [] -> pos <= t <= pos + Z.of_nat (sum_list nodes) ->
  exists r off len,
    find_walk nodes rank pos t lastNode = InTextNode (rank + r) off
    /\ nodes !! r = Some len
    /\ 0 <= off <= Z.of_nat len
    /\ pos + Z.of_nat (sum_list (take r nodes)) + off = t.
Proof.
  revert rank pos lastNode.
  induction nodes as [|n nodes IH]; intros rank pos lastNode Hne Ht; [done|].
  simpl find_walk. simpl sum_list in Ht.
  destruct (Z.leb_spec t (pos + Z.of_nat n)) as [Hle|Hgt].
  - exists 0%nat, (Z.min (t - pos) (Z.of_nat n)), n.
    rewrite Nat.add_0_r. simpl. repeat split; try lia; try done.
  - assert (Hne' : nodes <> []).
    { intros ->. simpl in Ht. lia. }
    destruct (IH (S rank) (pos + Z.of_nat n) (Some (rank, Z.of_nat n)) Hne'
                ltac:(lia)) as (r & off & len & Hf & Hl & Ho & Hs).
    exists (S r), off, len. rewrite Hf.
    replace (S rank + r)%nat with (rank + S r)%nat by lia.
    simpl. repeat split; try lia; try done.
Qed.

Lemma find_walk_char_pos (nodes : list nat) (t lineIdx : Z) :
  0 <= t <= text_length nodes ->
  valid_pos nodes (find_walk nodes 0 0 t None)
  /\ char_pos nodes (boundary_at lineIdx (find_walk nodes 0 0 t None)) = t.
Proof.
  unfold text_length. intros Ht.
  destruct nodes as [|n nodes].
  - simpl in *. split; [done|]. unfold char_pos. simpl. lia.
  - destruct (find_walk_spec (n :: nodes) 0 0 t None ltac:(done) ltac:(lia))
      as (r & off & len & Hf & Hl & Ho & Hs).
    rewrite Hf. simpl Nat.add. split.
    + exists len. by split.
    + unfold char_pos, boundary_at. cbn [b_node b_offset].
      rewrite (walk_found _ _ _ _ _ Hl).
      change (0 + Z.of_nat (sum_list (take r (n :: nodes))) + off = t).
      lia.
Qed.

Lemma findTextNodeAtOffset_position (nodes : list nat)
    (rawOffset lineIdx : Z) (rawLine : string) :
  0 <= target_offset rawOffset (JS.str_length rawLine) (text_length nodes)
    <= text_length nodes ->
  valid_pos nodes (findTextNodeAtOffset nodes rawOffset rawLine)
  /\ char_pos nodes
       (boundary_at lineIdx (findTextNodeAtOffset nodes rawOffset rawLine))
     = target_offset rawOffset (JS.str_length rawLine) (text_length nodes).
Proof.
  intros Ht. unfold findTextNodeAtOffset. by apply find_walk_char_pos.
Qed.

(** X9. [findTextNodeAtOffset] lands where it aims: when the target
    offset [Math.round(ratio * renderedLength)] lies in the rendered text,
    the position returned is inside a text node of the container, between
    its start and its end (or in the container itself when it has no
    text), and it lies exactly [targetOffset] characters into the
    rendered text, as the walk of [offsetInLine] counts them. *)
Theorem findTextNodeAtOffset_lands_on_target (nodes : list nat)
    (rawOffset lineIdx : Z) (rawLine : string)
    (Ht : 0 <= target_offset rawOffset (JS.str_length rawLine)
                             (text_length nodes)
          <= text_length nodes) :
  valid_pos nodes (findTextNodeAtOffset nodes rawOffset rawLine)
  /\ char_pos nodes
       (boundary_at lineIdx (findTextNodeAtOffset nodes rawOffset rawLine))
     = target_offset rawOffset (JS.str_length rawLine) (text_length nodes).
Proof.
  by apply findTextNodeAtOffset_position.
Qed.

Lemma findTextNodeAtOffset_lands_on_target_witness :
  findTextNodeAtOffset [3; 4; 2]%nat 5 "abcdefghi"%string = InTextNode 1 2
  /\ valid_pos [3; 4; 2]%nat
       (findTextNodeAtOffset [3; 4; 2]%nat 5 "abcdefghi"%string).
Proof.
  assert (Ht : 0 <= target_offset 5 (JS.str_length "abcdefghi"%string)
                                  (text_length [3; 4; 2]%nat)
               <= text_length [3; 4; 2]%nat)
    by (split; vm_compute; discriminate).
  exact (conj eq_refl
           (proj1 (findTextNodeAtOffset_lands_on_target
                     [3; 4; 2]%nat 5 0 "abcdefghi"%string Ht))).
Defined.

(** X10. Painting and reading back agree on plain text: on a line shown
    in rendered mode whose rendered text is as long as its raw text (below
    [2^50]), the raw offset [o] that [findTextNodeAtOffset] turns into a
    DOM position is the offset that [offsetInLine] recovers from that
    position, for every [o] from [0] to the length of the line. *)
Theorem paint_then_read_offset (dom : Dom) (ls : list string) (lineIdx : Z)
    (el : LineEl) (nodes : list nat) (o : Z)
    (Hel : getLineEl dom lineIdx = Some el)
    (Hed : editing el = false)
    (Hr : rendered el = Some nodes)
    (Hlen : text_length nodes = JS.str_length (JS.index_or_empty ls lineIdx))
    (Ho : 0 <= o <= text_length nodes)
    (Hb : text_length nodes < 2 ^ 50) :
  offsetInLine dom ls
    (boundary_at lineIdx
       (findTextNodeAtOffset nodes o (JS.index_or_empty ls lineIdx)))
    lineIdx
  = o.
Proof.
  rewrite (offsetInLine_rendered dom ls _ lineIdx el nodes Hel Hed Hr).
  assert (Ht : target_offset o (JS.str_length (JS.index_or_empty ls lineIdx))
                             (text_length nodes) = o).
  { rewrite <- Hlen. by apply target_offset_equal_lengths. }
  destruct (findTextNodeAtOffset_position nodes o lineIdx
              (JS.index_or_empty ls lineIdx)) as [_ Hc].
  { rewrite Ht. exact Ho. }
  rewrite Hc, Ht, <- Hlen.
  destruct (Z.eq_dec (text_length nodes) 0) as [E|E].
  - rewrite E in *. unfold project. simpl. lia.
  - apply project_equal_lengths; [lia|]. unfold text_length in *. lia.
Qed.

Lemma paint_then_read_offset_witness :
  offsetInLine (mkDom [mkLineEl false (Some [3; 4; 2]%nat)] None)
    ["abcdefghi"%string]
    (boundary_at 0 (findTextNodeAtOffset [3; 4; 2]%nat 5 "abcdefghi"%string))
    0
  = 5.
Proof.
  assert (Ho : 0 <= 5 <= text_length [3; 4; 2]%nat)
    by (split; vm_compute; discriminate).
  assert (Hb : text_length [3; 4; 2]%nat < 2 ^ 50) by reflexivity.
  exact (paint_then_read_offset
           (mkDom [mkLineEl false (Some [3; 4; 2]%nat)] None)
           ["abcdefghi"%string] 0 (mkLineEl false (Some [3; 4; 2]%nat))
           [3; 4; 2]%nat 5 eq_refl eq_refl eq_refl eq_refl Ho Hb).
Defined.

(** ** More on the history *)

Lemma commit_top (st : State) :
  same_as_top (undoStack (commit st)) (lines (commit st)) = true.
Proof.
  apply same_as_top_true. unfold commit.
  destruct (same_as_top (undoStack st) (lines st)) eqn:Hs.
  - apply same_as_top_true in Hs. exact Hs.
  - simpl. unfold JS.push, JS.shift.
    destruct (Z.ltb_spec 200 (JS.arr_length (undoStack st ++ [lines st])))
      as [Hl|Hl].
    + destruct (undoStack st) as [|x l]; simpl.
      * unfold JS.arr_length in Hl. simpl in Hl. lia.
      * by exists l.
    + by exists (undoStack st).
Qed.

Lemma commit_lines (st : State) : lines (commit st) = lines st.
Proof.
  unfold commit.
  destruct (same_as_top (undoStack st) (lines st)); reflexivity.
Qed.

Lemma commit_same (st : State) :
  same_as_top (undoStack st) (lines st) = true ->
  commit st = mkState (lines st) (ksel st) (crossLineSelActive st)
                      (undoStack st) (redoStack st) false.
Proof. intros H. unfold commit. by rewrite H. Qed.

(** X11. A commit that has fired leaves nothing to commit: the top of the
    undo stack is then the current line sequence, so a second firing
    changes nothing at all. *)
Theorem commit_idempotent (st : State) :
  last (undoStack (commit st)) = Some (lines st)
  /\ commit (commit st) = commit st.
Proof.
  pose proof (commit_top st) as Ht.
  pose proof (commit_lines st) as Hl.
  split.
  - apply same_as_top_true in Ht as [rest Hr].
    rewrite Hr, Hl. apply last_snoc.
  - rewrite (commit_same _ Ht).
    unfold commit.
    destruct (same_as_top (undoStack st) (lines st)); reflexivity.
Qed.

(** X12. The first [undo()] after a commit does not change the document:
    the entry it pops is the snapshot of the current lines, which moves to
    the redo stack.  When that commit pushed its snapshot above an entry
    [prev] (the undo stack not being full), a second [undo()] restores
    [prev]. *)
Theorem undo_after_commit (st : State) :
  lines (undo (commit st)) = lines st
  /\ (forall rest prev,
        undoStack st = rest ++ [prev] -> prev <> lines st ->
        JS.arr_length (undoStack st) < 200 ->
        lines (undo (undo (commit st))) = prev
        /\ undoStack (undo (undo (commit st))) = rest
        /\ redoStack (undo (undo (commit st))) = [lines st; lines st]).
Proof.
  split.
  - pose proof (commit_top st) as Ht.
    apply same_as_top_true in Ht as [rest Hr].
    rewrite (undo_pops _ rest _ Hr). simpl. apply commit_lines.
  - intros rest prev Hu Hne Hlen.
    assert (Hs : same_as_top (undoStack st) (lines st) = false).
    { destruct (same_as_top (undoStack st) (lines st)) eqn:E; [|done].
      apply same_as_top_true in E as [r E]. rewrite E in Hu.
      apply app_inj_tail in Hu as [_ Hu]. congruence. }
    assert (Hc : commit st
                 = mkState (lines st) (ksel st) (crossLineSelActive st)
                           ((rest ++ [prev]) ++ [lines st]) [] false).
    { unfold commit. rewrite Hs. unfold JS.push, JS.shift, JS.arr_length in *.
      rewrite length_app. simpl length.
      destruct (Z.ltb_spec 200 (Z.of_nat (length (undoStack st) + 1)));
        [lia|]. by rewrite Hu. }
    assert (H1 : undo (commit st)
                 = mkState (lines st) (ksel st) (crossLineSelActive st)
                           (rest ++ [prev]) [lines st] false)
      by (rewrite Hc; unfold undo; cbn [undoStack];
          change ((rest ++ [prev]) ++ [lines st])
            with (JS.push (rest ++ [prev]) (lines st));
          by rewrite pop_push).
    assert (H2 : undo (undo (commit st))
                 = mkState prev (ksel st) (crossLineSelActive st)
                           rest [lines st; lines st] false)
      by (rewrite H1; unfold undo; cbn [undoStack];
          change (rest ++ [prev]) with (JS.push rest prev);
          by rewrite pop_push).
    by rewrite H2.
Qed.

(** ** Moving and indenting lines *)

Lemma swap_adjacent (ls : list string) (i : nat) (x y : string) :
  ls !! i = Some x -> ls !! S i = Some y ->
  swap_lines ls (Z.of_nat i) (Z.of_nat i + 1)
  = take i ls ++ y :: x :: drop (S (S i)) ls.
Proof.
  intros Hx Hy. unfold swap_lines.
  rewrite (index_or_empty_lookup ls (Z.of_nat i) x) by (lia || by rewrite Nat2Z.id).
  rewrite (index_or_empty_lookup ls (Z.of_nat i + 1) y)
    by (lia || by replace (Z.to_nat (Z.of_nat i + 1)) with (S i) by lia).
  replace (Z.to_nat (Z.of_nat i + 1)) with (S i) by lia.
  rewrite Nat2Z.id.
  pose proof (lookup_lt_Some _ _ _ Hx) as Hi.
  pose proof (lookup_lt_Some _ _ _ Hy) as Hj.
  rewrite <- (take_drop_middle ls i x Hx) at 1.
  rewrite insert_app_r_alt by (rewrite length_take; lia).
  rewrite length_take.
  replace (i - i `min` length ls)%nat with 0%nat by lia. simpl.
  rewrite insert_app_r_alt by (rewrite length_take; lia).
  rewrite length_take.
  replace (S i - i `min` length ls)%nat with 1%nat by lia. simpl.
  f_equal. f_equal.
  rewrite (drop_S ls y (S i) Hy). reflexivity.
Qed.

Lemma swap_adjacent_twice (ls : list string) (i : Z) :
  0 <= i -> i + 1 < JS.arr_length ls ->
  swap_lines (swap_lines ls i (i + 1)) i (i + 1) = ls
  /\ swap_lines ls i (i + 1) ≡ₚ ls
  /\ JS.index_or_empty (swap_lines ls i (i + 1)) i
     = JS.index_or_empty ls (i + 1)
  /\ JS.index_or_empty (swap_lines ls i (i + 1)) (i + 1)
     = JS.index_or_empty ls i.
Proof.
  intros Hi Hlen. unfold JS.arr_length in Hlen.
  destruct (lookup_lt_is_Some_2 ls (Z.to_nat i) ltac:(lia)) as [x Hx].
  destruct (lookup_lt_is_Some_2 ls (S (Z.to_nat i)) ltac:(lia)) as [y Hy].
  rewrite <- (Z2Nat.id i Hi).
  set (n := Z.to_nat i) in *.
  rewrite (swap_adjacent ls n x y Hx Hy).
  assert (Hn : length (take n ls) = n) by (rewrite length_take; lia).
  assert (H1 : (take n ls ++ y :: x :: drop (S (S n)) ls) !! n = Some y).
  { rewrite lookup_app_r by lia. by rewrite Hn, Nat.sub_diag. }
  assert (H2 : (take n ls ++ y :: x :: drop (S (S n)) ls) !! S n = Some x).
  { rewrite lookup_app_r by lia.
    rewrite Hn. by replace (S n - n)%nat with 1%nat by lia. }
  assert (Hls : ls = take n ls ++ x :: y :: drop (S (S n)) ls).
  { rewrite <- (take_drop_middle ls n x Hx) at 1.
    by rewrite (drop_S ls y (S n) Hy). }
  split; [|split; [|split]].
  - rewrite (swap_adjacent _ n y x H1 H2).
    rewrite take_app_length' by (symmetry; exact Hn).
    assert (Hd : drop (S (S n)) (take n ls ++ y :: x :: drop (S (S n)) ls)
                 = drop (S (S n)) ls).
    { rewrite drop_app_ge by lia. rewrite Hn.
      by replace (S (S n) - n)%nat with 2%nat by lia. }
    rewrite Hd. by rewrite <- Hls.
  - rewrite Hls at 3. apply Permutation_app_head. apply perm_swap.
  - rewrite (index_or_empty_lookup _ (Z.of_nat n) y);
      [|lia|by rewrite Nat2Z.id].
    symmetry. apply index_or_empty_lookup; [lia|].
    by replace (Z.to_nat (Z.of_nat n + 1)) with (S n) by lia.
  - rewrite (index_or_empty_lookup _ (Z.of_nat n + 1) x);
      [|lia|by replace (Z.to_nat (Z.of_nat n + 1)) with (S n) by lia].
    symmetry. apply index_or_empty_lookup; [lia|]. by rewrite Nat2Z.id.
Qed.

(** X13. Moving a line up and then down again restores the document:
    [moveLineUp] on an existing line [idx > 0] exchanges the lines
    [idx - 1] and [idx] (the line sequence is a permutation of the old
    one), and [moveLineDown] on the line it moved to, [idx - 1], gives the
    original sequence back.  On the first line [moveLineUp] does nothing,
    on the last line [moveLineDown] does nothing. *)
Theorem move_line_up_then_down (st : State) (idx : Z)
    (Hidx : 0 < idx < JS.arr_length (lines st)) :
  (exists st1 st2,
     moveLineUp idx st = Some st1
     /\ moveLineDown (idx - 1) st1 = Some st2
     /\ lines st2 = lines st
     /\ lines st1 ≡ₚ lines st
     /\ JS.index_or_empty (lines st1) (idx - 1)
        = JS.index_or_empty (lines st) idx
     /\ JS.index_or_empty (lines st1) idx
        = JS.index_or_empty (lines st) (idx - 1))
  /\ moveLineUp 0 st = Some st
  /\ moveLineDown (JS.arr_length (lines st) - 1) st = Some st.
Proof.
  split; [|split].
  - unfold moveLineUp.
    destruct (Z.eqb_spec idx 0); [lia|].
    destruct (Z.ltb_spec 0 idx); [|lia].
    destruct (Z.ltb_spec idx (JS.arr_length (lines st))); [|lia].
    simpl andb. cbv iota.
    destruct (swap_adjacent_twice (lines st) (idx - 1) ltac:(lia) ltac:(lia))
      as (Htwice & Hperm & Ha & Hb).
    replace (idx - 1 + 1) with idx in * by lia.
    eexists. eexists. split; [reflexivity|].
    unfold moveLineDown. cbn [lines set_lines pushUndo].
    assert (Hlen : JS.arr_length (swap_lines (lines st) (idx - 1) idx)
                   = JS.arr_length (lines st)).
    { unfold JS.arr_length. by rewrite (Permutation_length Hperm). }
    rewrite Hlen.
    destruct (Z.leb_spec (JS.arr_length (lines st) - 1) (idx - 1)); [lia|].
    destruct (Z.leb_spec 0 (idx - 1)); [|lia].
    replace (idx - 1 + 1) with idx by lia.
    split; [reflexivity|]. cbn [lines set_lines pushUndo].
    by rewrite Htwice.
  - reflexivity.
  - unfold moveLineDown. by rewrite Z.leb_refl.
Qed.

Lemma move_line_up_then_down_witness :
  exists st1 st2,
    moveLineUp 2 doc_abc = Some st1
    /\ moveLineDown 1 st1 = Some st2
    /\ lines st1 = ["abc"; "ghi"; "def"]%string
    /\ lines st2 = ["abc"; "def"; "ghi"]%string.
Proof.
  assert (Hidx : 0 < 2 < JS.arr_length (lines doc_abc))
    by (split; vm_compute; reflexivity).
  destruct (proj1 (move_line_up_then_down doc_abc 2 Hidx))
    as (st1 & st2 & H1 & H2 & H3 & _).
  exists st1, st2. split; [exact H1|]. split; [exact H2|].
  injection H1 as <-. split; [reflexivity|exact H3].
Defined.

Lemma update_lines_spec (f : string -> string) (targets : list Z)
    (ls : list string) :
  NoDup targets ->
  (forall i, i ∈ targets -> 0 <= i < JS.arr_length ls) ->
  exists ls',
    update_lines f targets ls = Some ls'
    /\ length ls' = length ls
    /\ forall k, ls' !! k
                 = if decide (Z.of_nat k ∈ targets) then f <$> ls !! k
                   else ls !! k.
Proof.
  revert ls. induction targets as [|i rest IH]; intros ls Hnd Hin.
  - exists ls. split; [reflexivity|]. split; [reflexivity|].
    intros k. destruct (decide _) as [H|H]; [by apply elem_of_nil in H|done].
  - apply NoDup_cons in Hnd as [Hi Hnd].
    pose proof (Hin i ltac:(left)) as Hr.
    simpl update_lines.
    destruct (Z.leb_spec 0 i); [|lia].
    destruct (Z.ltb_spec i (JS.arr_length ls)); [|lia].
    simpl andb. cbv iota.
    set (ls1 := <[Z.to_nat i := f (JS.index_or_empty ls i)]> ls).
    assert (Hlen1 : length ls1 = length ls) by apply length_insert.
    destruct (IH ls1 Hnd) as (ls' & Hu & Hlen & Hk).
    { intros j Hj. unfold JS.arr_length. rewrite Hlen1.
      apply (Hin j). by right. }
    exists ls'. split; [exact Hu|]. split; [lia|].
    intros k. rewrite Hk.
    unfold JS.arr_length in *.
    destruct (lookup_lt_is_Some_2 ls (Z.to_nat i) ltac:(lia)) as [l Hl].
    pose proof (index_or_empty_lookup ls i l ltac:(lia) Hl) as Hil.
    destruct (decide (Z.of_nat k = i)) as [E|E].
    + assert (Hk' : k = Z.to_nat i) by lia. subst k.
      rewrite Z2Nat.id by lia.
      destruct (decide (i ∈ rest)) as [|_]; [done|].
      destruct (decide (i ∈ i :: rest)) as [_|Hnk];
        [|exfalso; apply Hnk; by left].
      unfold ls1. rewrite list_lookup_insert_eq by lia.
      by rewrite Hl, Hil.
    + assert (Hne : Z.to_nat i <> k) by lia.
      unfold ls1. rewrite (list_lookup_insert_ne _ _ _ _ Hne).
      destruct (decide (Z.of_nat k ∈ rest)) as [H1|H1];
        destruct (decide (Z.of_nat k ∈ i :: rest)) as [H2|H2];
        try done.
      * exfalso. apply H2. by right.
      * apply elem_of_cons in H2 as [H2|H2]; [lia|done].
Qed.

(** X14. Outdent undoes indent except for a tab: after [indentLines] on
    distinct existing target lines, [outdentLines] on the same targets
    leaves every target line as it was before, less one leading tab if
    it had one (the second [replace] of [outdentLines] also removes a tab
    that the line started with), and leaves the other lines alone; so it
    restores the document exactly when no target line starts with a
    tab. *)
Theorem outdent_after_indent (st : State) (selected : list Z)
    (activeLineIdx : Z)
    (Hnd : NoDup (targets_of selected activeLineIdx))
    (Hin : forall i, i ∈ targets_of selected activeLineIdx ->
                     0 <= i < JS.arr_length (lines st)) :
  exists st1 st2,
    indentLines selected activeLineIdx st = Some st1
    /\ outdentLines selected activeLineIdx st1 = Some st2
    /\ (forall k, lines st2 !! k
                  = if decide (Z.of_nat k ∈ targets_of selected activeLineIdx)
                    then strip_tab <$> lines st !! k
                    else lines st !! k)
    /\ ((forall i, i ∈ targets_of selected activeLineIdx ->
                   starts_with_tab (JS.index_or_empty (lines st) i) = false)
        -> lines st2 = lines st).
Proof.
  set (T := targets_of selected activeLineIdx) in *.
  destruct (update_lines_spec indent_line T (lines st) Hnd Hin)
    as (ls1 & Hu1 & Hlen1 & Hk1).
  destruct (update_lines_spec outdent_line T ls1 Hnd) as (ls2 & Hu2 & Hlen2 & Hk2).
  { intros i Hi. unfold JS.arr_length. rewrite Hlen1. by apply Hin. }
  unfold indentLines, outdentLines. fold T. rewrite Hu1.
  eexists. eexists. split; [reflexivity|].
  cbn [lines set_lines pushUndo]. rewrite Hu2.
  split; [reflexivity|]. cbn [lines set_lines pushUndo].
  assert (Hlaw : forall k, ls2 !! k
                 = if decide (Z.of_nat k ∈ T) then strip_tab <$> lines st !! k
                   else lines st !! k).
  { intros k. rewrite Hk2, Hk1.
    destruct (decide (Z.of_nat k ∈ T)); [|done].
    by destruct (lines st !! k). }
  split; [exact Hlaw|].
  intros Htab. apply list_eq. intros k. rewrite Hlaw.
  destruct (decide (Z.of_nat k ∈ T)) as [Hk|]; [|done].
  destruct (lines st !! k) as [l|] eqn:Hl; [|done].
  simpl. f_equal.
  specialize (Htab _ Hk).
  rewrite (index_or_empty_lookup _ _ l) in Htab
    by (lia || by rewrite Nat2Z.id).
  destruct l as [|c l]; [done|]. simpl in *. by rewrite Htab.
Qed.

Lemma outdent_after_indent_witness :
  exists st1 st2,
    indentLines [0; 2] 1 doc_abc = Some st1
    /\ outdentLines [0; 2] 1 st1 = Some st2
    /\ lines st1 = ["  abc"; "def"; "  ghi"]%string
    /\ lines st2 = ["abc"; "def"; "ghi"]%string.
Proof.
  assert (Hnd : NoDup (targets_of [0; 2] 1))
    by (apply (bool_decide_unpack _); vm_compute; exact I).
  assert (Hin : forall i, i ∈ targets_of [0; 2] 1 ->
                          0 <= i < JS.arr_length (lines doc_abc)).
  { intros i Hi. simpl in Hi.
    apply elem_of_cons in Hi as [->|Hi]; [by vm_compute|].
    apply elem_of_cons in Hi as [->|Hi]; [by vm_compute|].
    by apply elem_of_nil in Hi. }
  destruct (outdent_after_indent doc_abc [0; 2] 1 Hnd Hin)
    as (st1 & st2 & H1 & H2 & _ & H4).
  exists st1, st2. split; [exact H1|]. split; [exact H2|].
  injection H1 as <-. split; [reflexivity|].
  injection H2 as <-. reflexivity.
Defined.

(** ** Merging lines *)

Lemma merge_lines (ls : list string) (idx : Z) (merged : string) :
  0 <= idx -> idx + 1 < JS.arr_length ls ->
  JS.splice (<[Z.to_nat idx := merged]> ls) (idx + 1) 1 []
  = take (Z.to_nat idx) ls ++ merged :: drop (Z.to_nat idx + 2) ls.
Proof.
  intros Hi Hlen. unfold JS.splice, JS.arr_length in *.
  rewrite length_insert.
  rewrite relative_index_in_range by lia.
  replace (Z.to_nat (idx + 1)) with (S (Z.to_nat idx)) by lia.
  replace (Z.to_nat (idx + 1 + Z.min (Z.max 1 0)
                                 (Z.of_nat (length ls) - (idx + 1))))
    with (Z.to_nat idx + 2)%nat by lia.
  simpl app.
  rewrite insert_take_drop by lia.
  rewrite take_app_ge by (rewrite length_take; lia).
  rewrite length_take.
  replace (S (Z.to_nat idx) - Z.to_nat idx `min` length ls)%nat
    with 1%nat by lia.
  simpl take. rewrite take_0.
  rewrite drop_app_ge by (rewrite length_take; lia).
  rewrite length_take.
  replace (Z.to_nat idx + 2 - Z.to_nat idx `min` length ls)%nat
    with 2%nat by lia.
  simpl drop. rewrite drop_drop. rewrite <- app_assoc. simpl.
  do 3 f_equal. lia.
Qed.

Lemma all_text_app (a b : list string) :
  all_text (a ++ b) = (all_text a ++ all_text b)%string.
Proof.
  induction a as [|x a IH]; [reflexivity|].
  change (all_text ((x :: a) ++ b)) with (x ++ all_text (a ++ b))%string.
  rewrite IH. symmetry. apply string_app_assoc.
Qed.

(** X15. Backspace at the start of a line and Delete at the end of the
    line above are the same edit: on two existing neighbouring lines
    [idx] and [idx + 1], both handlers leave the same state, in which the
    two lines are one, [lines[idx] + lines[idx + 1]]; the document has one
    line less and the same characters in the same order. *)
Theorem backspace_and_delete_merge_agree (st : State) (idx : Z)
    (Hidx : 0 <= idx)
    (Hlen : idx + 1 < JS.arr_length (lines st)) :
  let upper := JS.index_or_empty (lines st) idx in
  let lower := JS.index_or_empty (lines st) (idx + 1) in
  let merged := take (Z.to_nat idx) (lines st)
                ++ (upper ++ lower)%string
                :: drop (Z.to_nat idx + 2) (lines st) in
  keydown_delete_merge idx
    (mkTextarea upper (JS.str_length upper) (JS.str_length upper)) st
  = Some (pushUndo (set_lines merged st))
  /\ keydown_backspace_merge (idx + 1) (mkTextarea lower 0 0) st
     = Some (pushUndo (set_lines merged st))
  /\ JS.arr_length merged = JS.arr_length (lines st) - 1
  /\ all_text merged = all_text (lines st).
Proof.
  intros upper lower merged.
  split; [|split; [|split]].
  - unfold keydown_delete_merge. cbn [value selectionStart selectionEnd].
    rewrite Z.eqb_refl.
    destruct (Z.ltb_spec idx (JS.arr_length (lines st) - 1)); [|lia].
    destruct (Z.leb_spec 0 idx); [|lia].
    simpl andb. cbv iota. fold lower.
    by rewrite merge_lines by lia.
  - unfold keydown_backspace_merge. cbn [value selectionStart selectionEnd].
    destruct (Z.ltb_spec 0 (idx + 1)); [|lia].
    destruct (Z.ltb_spec (idx + 1) (JS.arr_length (lines st))); [|lia].
    simpl andb. cbv iota.
    replace (idx + 1 - 1) with idx by lia. fold upper.
    by rewrite merge_lines by lia.
  - unfold merged, JS.arr_length in *.
    rewrite length_app, length_take. simpl length. rewrite length_drop. lia.
  - unfold JS.arr_length in Hlen.
    destruct (lookup_lt_is_Some_2 (lines st) (Z.to_nat idx) ltac:(lia))
      as [x Hx].
    destruct (lookup_lt_is_Some_2 (lines st) (S (Z.to_nat idx)) ltac:(lia))
      as [y Hy].
    assert (Hu : upper = x) by (apply index_or_empty_lookup; [lia|done]).
    assert (Hl : lower = y).
    { apply index_or_empty_lookup; [lia|].
      by replace (Z.to_nat (idx + 1)) with (S (Z.to_nat idx)) by lia. }
    assert (Hls : lines st
                  = take (Z.to_nat idx) (lines st)
                    ++ x :: y :: drop (Z.to_nat idx + 2) (lines st)).
    { rewrite <- (take_drop_middle _ _ _ Hx) at 1.
      rewrite (drop_S _ y (S (Z.to_nat idx)) Hy).
      by replace (S (S (Z.to_nat idx))) with (Z.to_nat idx + 2)%nat by lia. }
    transitivity (all_text (take (Z.to_nat idx) (lines st)
                            ++ x :: y :: drop (Z.to_nat idx + 2) (lines st)));
      [|by rewrite <- Hls].
    unfold merged. rewrite Hu, Hl.
    rewrite !all_text_app. f_equal.
    change ((x ++ y) ++ all_text (drop (Z.to_nat idx + 2) (lines st))
            = x ++ y ++ all_text (drop (Z.to_nat idx + 2) (lines st)))%string.
    apply string_app_assoc.
Qed.

Lemma backspace_and_delete_merge_agree_witness :
  keydown_delete_merge 0 (mkTextarea "abc"%string 3 3) doc_abc
  = keydown_backspace_merge 1 (mkTextarea "def"%string 0 0) doc_abc.
Proof.
  assert (Hlen : 0 + 1 < JS.arr_length (lines doc_abc)) by reflexivity.
  destruct (backspace_and_delete_merge_agree doc_abc 0 ltac:(lia) Hlen)
    as (H1 & H2 & _).
  exact (eq_trans H1 (eq_sym H2)).
Defined.

(** ** Escaping *)

Lemma replace_char_app (c : ascii) (by_ a b : string) :
  replace_char c by_ (a ++ b)
  = (replace_char c by_ a ++ replace_char c by_ b)%string.
Proof.
  induction a as [|x a IH]; [reflexivity|].
  change (replace_char c by_ (String x a ++ b))
    with (if Ascii.eqb x c then (by_ ++ replace_char c by_ (a ++ b))%string
          else String x (replace_char c by_ (a ++ b))).
  change (replace_char c by_ (String x a))
    with (if Ascii.eqb x c then (by_ ++ replace_char c by_ a)%string
          else String x (replace_char c by_ a)).
  rewrite IH. destruct (Ascii.eqb x c); [|reflexivity].
  symmetry. apply string_app_assoc.
Qed.

Lemma escape_char_passes (c : ascii) :
  replace_char ">" "&gt;"
    (replace_char "<" "&lt;" (replace_char "&" "&amp;" (String c EmptyString)))
  = escape_char c.
Proof.
  unfold escape_char. simpl replace_char at 3.
  destruct (Ascii.eqb_spec c "&") as [->|Hamp]; [reflexivity|].
  simpl replace_char at 2.
  destruct (Ascii.eqb_spec c "<") as [->|Hlt]; [reflexivity|].
  simpl replace_char.
  destruct (Ascii.eqb_spec c ">") as [->|Hgt]; reflexivity.
Qed.

Lemma escapeHtml_each (s : string) : escapeHtml s = escape_each s.
Proof.
  unfold escapeHtml. induction s as [|c s IH]; [reflexivity|].
  change (String c s) with (String c EmptyString ++ s)%string.
  rewrite !replace_char_app, IH, escape_char_passes. reflexivity.
Qed.

Lemma has_char_app (c : ascii) (a b : string) :
  has_char c (a ++ b) = has_char c a || has_char c b.
Proof.
  induction a as [|x a IH]; [reflexivity|].
  change (has_char c (String x a ++ b))
    with (Ascii.eqb x c || has_char c (a ++ b)).
  rewrite IH. apply orb_assoc.
Qed.

Lemma escape_char_clean (c : ascii) :
  has_char "<" (escape_char c) = false
  /\ has_char ">" (escape_char c) = false.
Proof.
  unfold escape_char.
  destruct (Ascii.eqb_spec c "&"); [by split|].
  destruct (Ascii.eqb_spec c "<") as [|Hlt]; [by split|].
  destruct (Ascii.eqb_spec c ">") as [|Hgt]; [by split|].
  simpl. rewrite !orb_false_r. split.
  - by destruct (Ascii.eqb_spec c "<").
  - by destruct (Ascii.eqb_spec c ">").
Qed.

Lemma escape_each_inj (a b : string) :
  escape_each a = escape_each b -> a = b.
Proof.
  revert b. induction a as [|x a IH]; intros [|y b] H.
  - reflexivity.
  - exfalso. simpl in H. unfold escape_char in H.
    repeat destruct (Ascii.eqb _ _) in H; discriminate.
  - exfalso. simpl in H. unfold escape_char in H.
    repeat destruct (Ascii.eqb _ _) in H; discriminate.
  - simpl in H. unfold escape_char in H.
    destruct (Ascii.eqb_spec x "&") as [->|Hx1];
      destruct (Ascii.eqb_spec y "&") as [->|Hy1].
    + injection H as H. f_equal. by apply IH.
    + destruct (Ascii.eqb_spec y "<") as [->|Hy2]; [discriminate|].
      destruct (Ascii.eqb_spec y ">") as [->|Hy3]; [discriminate|].
      injection H as H1 H. congruence.
    + destruct (Ascii.eqb_spec x "<") as [->|Hx2]; [discriminate|].
      destruct (Ascii.eqb_spec x ">") as [->|Hx3]; [discriminate|].
      injection H as H1 H. congruence.
    + destruct (Ascii.eqb_spec x "<") as [->|Hx2];
        destruct (Ascii.eqb_spec y "<") as [->|Hy2].
      * injection H as H. f_equal. by apply IH.
      * destruct (Ascii.eqb_spec y ">") as [->|Hy3]; [discriminate|].
        injection H as H1 H. congruence.
      * destruct (Ascii.eqb_spec x ">") as [->|Hx3]; [discriminate|].
        injection H as H1 H. congruence.
      * destruct (Ascii.eqb_spec x ">") as [->|Hx3];
          destruct (Ascii.eqb_spec y ">") as [->|Hy3].
        -- injection H as H. f_equal. by apply IH.
        -- injection H as H1 H. congruence.
        -- injection H as H1 H. congruence.
        -- injection H as H1 H. f_equal; [done|by apply IH].
Qed.

(** X16. [escapeHtml] leaves no markup and loses nothing: its result
    holds neither [<] nor [>]; it is the input with [&], [<] and [>]
    replaced by [&amp;], [&lt;] and [&gt;] character by character (the
    three passes do not interfere); and two different inputs never give
    the same result. *)
Theorem escapeHtml_safe_and_injective (s : string) :
  has_char "<" (escapeHtml s) = false
  /\ has_char ">" (escapeHtml s) = false
  /\ escapeHtml s = escape_each s
  /\ (forall s', escapeHtml s = escapeHtml s' -> s = s').
Proof.
  rewrite escapeHtml_each.
  assert (Hclean : has_char "<" (escape_each s) = false
                   /\ has_char ">" (escape_each s) = false).
  { induction s as [|c s [IH1 IH2]]; [by split|].
    destruct (escape_char_clean c) as [H1 H2].
    change (escape_each (String c s))
      with (escape_char c ++ escape_each s)%string.
    rewrite !has_char_app, H1, H2, IH1, IH2. by split. }
  destruct Hclean as [H1 H2].
  split; [exact H1|]. split; [exact H2|]. split; [reflexivity|].
  intros s' H. rewrite escapeHtml_each in H. by apply escape_each_inj.
Qed.

(** ** Splitting a line with Enter *)

Lemma split_lines (ls : list string) (idx : Z) (b x : string) :
  0 <= idx < JS.arr_length ls ->
  JS.splice (<[Z.to_nat idx := b]> ls) (idx + 1) 0 [x]
  = take (Z.to_nat idx) ls ++ b :: x :: drop (S (Z.to_nat idx)) ls.
Proof.
  intros Hi. unfold JS.splice, JS.arr_length in *.
  rewrite length_insert.
  rewrite relative_index_in_range by lia.
  replace (Z.to_nat (idx + 1 + Z.min (Z.max 0 0)
                                 (Z.of_nat (length ls) - (idx + 1))))
    with (S (Z.to_nat idx)) by lia.
  replace (Z.to_nat (idx + 1)) with (S (Z.to_nat idx)) by lia.
  rewrite insert_take_drop by lia.
  rewrite take_app_ge by (rewrite length_take; lia).
  rewrite drop_app_ge by (rewrite length_take; lia).
  rewrite length_take.
  replace (S (Z.to_nat idx) - Z.to_nat idx `min` length ls)%nat
    with 1%nat by lia.
  simpl take. rewrite take_0. simpl drop. rewrite drop_0.
  rewrite <- app_assoc. reflexivity.
Qed.

Lemma enter_split_state (st : State) (idx : Z) (raw : Textarea) :
  0 <= idx < JS.arr_length (lines st) ->
  list_match (JS.slice (value raw) 0 (Some (selectionStart raw))) = None ->
  keydown_enter idx raw st
  = Some (pushUndo
            (set_lines
               (take (Z.to_nat idx) (lines st)
                ++ JS.slice (value raw) 0 (Some (selectionStart raw))
                   :: JS.slice (value raw) (selectionStart raw) None
                   :: drop (S (Z.to_nat idx)) (lines st))
               st)).
Proof.
  intros Hi Hno. unfold keydown_enter.
  destruct (Z.leb_spec 0 idx); [|lia].
  destruct (Z.ltb_spec idx (JS.arr_length (lines st))); [|lia].
  simpl andb. cbv iota. cbv zeta. rewrite Hno.
  by rewrite split_lines by lia.
Qed.

(** X17. Enter splits the line at the caret, and Backspace takes the
    split back: when the text before the caret does not start like a list
    item, Enter on an existing line replaces it by the two lines [before]
    and [after], which together are its text; Backspace at the start of
    the new line then joins them again, so that the document is what it
    was, with line [idx] holding the text of the textarea. *)
Theorem backspace_after_enter (st : State) (idx : Z) (raw : Textarea)
    (Hidx : 0 <= idx < JS.arr_length (lines st))
    (Hsel : 0 <= selectionStart raw <= JS.str_length (value raw))
    (Hno : list_match (JS.slice (value raw) 0 (Some (selectionStart raw)))
           = None) :
  let before := JS.slice (value raw) 0 (Some (selectionStart raw)) in
  let after := JS.slice (value raw) (selectionStart raw) None in
  exists st1 st2,
    keydown_enter idx raw st = Some st1
    /\ lines st1 = take (Z.to_nat idx) (lines st)
                   ++ before :: after :: drop (S (Z.to_nat idx)) (lines st)
    /\ (before ++ after)%string = value raw
    /\ keydown_backspace_merge (idx + 1) (mkTextarea after 0 0) st1
       = Some st2
    /\ lines st2 = <[Z.to_nat idx := value raw]> (lines st)
    /\ (lines st !! Z.to_nat idx = Some (value raw) -> lines st2 = lines st).
Proof.
  intros before after.
  pose proof (slice_prefix_suffix (value raw) _ Hsel) as Hval.
  fold before after in Hval.
  set (ls1 := take (Z.to_nat idx) (lines st)
              ++ before :: after :: drop (S (Z.to_nat idx)) (lines st)).
  assert (Hlen1 : JS.arr_length ls1 = JS.arr_length (lines st) + 1).
  { unfold ls1, JS.arr_length in *.
    rewrite length_app, length_take. simpl length. rewrite length_drop. lia. }
  assert (Hb : JS.index_or_empty ls1 idx = before).
  { apply index_or_empty_lookup; [lia|]. unfold ls1, JS.arr_length in *.
    rewrite lookup_app_r by (rewrite length_take; lia).
    rewrite length_take.
    by replace (Z.to_nat idx - Z.to_nat idx `min` length (lines st))%nat
      with 0%nat by lia. }
  eexists. eexists.
  split; [by apply enter_split_state|].
  cbn [lines set_lines pushUndo]. fold before after ls1.
  split; [reflexivity|]. split; [exact Hval|].
  unfold keydown_backspace_merge.
  cbn [value selectionStart selectionEnd lines set_lines pushUndo].
  rewrite Hlen1.
  destruct (Z.ltb_spec 0 (idx + 1)); [|lia].
  destruct (Z.ltb_spec (idx + 1) (JS.arr_length (lines st) + 1)); [|lia].
  simpl andb. cbv iota.
  replace (idx + 1 - 1) with idx by lia.
  rewrite Hb, Hval.
  rewrite merge_lines by lia.
  split; [reflexivity|].
  cbn [lines set_lines pushUndo].
  assert (Hres : take (Z.to_nat idx) ls1
                 ++ value raw :: drop (Z.to_nat idx + 2) ls1
                 = <[Z.to_nat idx := value raw]> (lines st)).
  { unfold ls1, JS.arr_length in *.
    rewrite take_app_le by (rewrite length_take; lia).
    rewrite take_take.
    replace (Z.to_nat idx `min` Z.to_nat idx)%nat with (Z.to_nat idx) by lia.
    rewrite drop_app_ge by (rewrite length_take; lia).
    rewrite length_take.
    replace (Z.to_nat idx + 2 - Z.to_nat idx `min` length (lines st))%nat
      with 2%nat by lia.
    simpl drop. rewrite drop_0.
    by rewrite insert_take_drop by lia. }
  split; [exact Hres|].
  intros Hl. rewrite Hres. by apply list_insert_id.
Qed.

Lemma backspace_after_enter_witness :
  exists st1 st2,
    keydown_enter 0 (mkTextarea "hello world"%string 5 5)
                  (init "hello world"%string) = Some st1
    /\ lines st1 = ["hello"; " world"]%string
    /\ keydown_backspace_merge 1 (mkTextarea " world"%string 0 0) st1
       = Some st2
    /\ lines st2 = ["hello world"%string].
Proof.
  assert (Hidx : 0 <= 0 < JS.arr_length (lines (init "hello world"%string)))
    by (split; vm_compute; (reflexivity || discriminate)).
  assert (Hsel : 0 <= selectionStart (mkTextarea "hello world"%string 5 5)
                 <= JS.str_length (value (mkTextarea "hello world"%string 5 5)))
    by (split; vm_compute; discriminate).
  destruct (backspace_after_enter (init "hello world"%string) 0
              (mkTextarea "hello world"%string 5 5) Hidx Hsel eq_refl)
    as (st1 & st2 & H1 & H2 & _ & H4 & H5 & _).
  exists st1, st2.
  split; [exact H1|]. split; [exact H2|]. split; [exact H4|exact H5].
Defined.

(** ** Continuing a numbered list *)

Lemma digit_not_space (c : ascii) : is_digit c = true -> is_space c = false.
Proof.
  destruct c as [[] [] [] [] [] [] [] []]; vm_compute;
    (reflexivity || discriminate).
Qed.

Lemma digit_not_bullet (c : ascii) : is_digit c = true -> is_bullet c = false.
Proof.
  destruct c as [[] [] [] [] [] [] [] []]; vm_compute;
    (reflexivity || discriminate).
Qed.

Lemma take_while_app (p : ascii -> bool) (a b : string) :
  all_chars p a = true ->
  take_while p (a ++ b) = (a ++ take_while p b)%string.
Proof.
  induction a as [|x a IH]; [reflexivity|].
  cbn [all_chars]. intros [Hx Ha]%andb_prop.
  change (take_while p (String x (a ++ b))
          = String x (a ++ take_while p b)).
  cbn [take_while]. rewrite Hx. f_equal. by apply IH.
Qed.

Lemma drop_while_app (p : ascii -> bool) (a b : string) :
  all_chars p a = true ->
  drop_while p (a ++ b) = drop_while p b.
Proof.
  induction a as [|x a IH]; [reflexivity|].
  cbn [all_chars]. intros [Hx Ha]%andb_prop.
  change (drop_while p (String x (a ++ b)) = drop_while p b).
  cbn [drop_while]. rewrite Hx. by apply IH.
Qed.

Lemma trimStart_app (a b : string) :
  all_chars is_space a = true -> trimStart (a ++ b) = trimStart b.
Proof.
  induction a as [|x a IH]; [reflexivity|].
  cbn [all_chars]. intros [Hx Ha]%andb_prop.
  change (trimStart (String x (a ++ b)) = trimStart b).
  cbn [trimStart]. rewrite Hx. by apply IH.
Qed.

Lemma trimEnd_nonempty (s : string) :
  all_chars is_space s = false -> trimEnd s <> EmptyString.
Proof.
  induction s as [|x s IH]; [discriminate|].
  cbn [all_chars trimEnd]. intros H.
  destruct (trimEnd s) eqn:E; [|discriminate].
  destruct (is_space x); [|discriminate].
  exfalso. by apply IH.
Qed.

Lemma trimEnd_app (a b : string) :
  trimEnd b <> EmptyString -> trimEnd (a ++ b) = (a ++ trimEnd b)%string.
Proof.
  intros Hb. induction a as [|x a IH]; [reflexivity|].
  change (trimEnd (String x (a ++ b)) = String x (a ++ trimEnd b)).
  cbn [trimEnd]. rewrite IH.
  destruct (a ++ trimEnd b)%string eqn:E; [|reflexivity].
  exfalso. destruct a; [by apply Hb|discriminate].
Qed.

Lemma string_app_inv_head (a b c : string) :
  (a ++ b)%string = (a ++ c)%string -> b = c.
Proof.
  induction a as [|x a IH]; [done|].
  change (String x (a ++ b) = String x (a ++ c) -> b = c).
  intros [=]. by apply IH.
Qed.

(** A line that starts with white space, digits, a dot and one white
    space is matched by the list pattern, with these parts. *)
Lemma list_match_numbered (ind ds tail : string) (sp : ascii) :
  all_chars is_space ind = true ->
  ds <> EmptyString -> all_chars is_digit ds = true ->
  is_space sp = true ->
  list_match (ind ++ ds ++ String "." (String sp tail))
  = Some (mkListMatch (ind ++ ds ++ String "." (String sp EmptyString))
                      ind (ds ++ ".")).
Proof.
  intros Hind Hne Hds Hsp.
  destruct ds as [|d ds']; [done|].
  pose proof Hds as Hds0. cbn [all_chars] in Hds0.
  apply andb_prop in Hds0 as [Hd Hds'].
  unfold list_match.
  rewrite take_while_app, drop_while_app by done.
  change (String d ds' ++ String "." (String sp tail))%string
    with (String d (ds' ++ String "." (String sp tail))).
  cbn [take_while drop_while]. rewrite (digit_not_space d Hd).
  rewrite string_app_nil_r. rewrite (digit_not_bullet d Hd).
  change (String d (ds' ++ String "." (String sp tail)))
    with (String d ds' ++ String "." (String sp tail))%string.
  rewrite take_while_app, drop_while_app by done.
  cbn [take_while drop_while]. change (is_digit ".") with false.
  cbv iota. rewrite string_app_nil_r.
  rewrite Hd. by rewrite Hsp.
Qed.

Lemma uint_of_string_digits (s : string) (d : Decimal.uint) :
  NilEmpty.uint_of_string s = Some d -> all_chars is_digit s = true.
Proof.
  revert d. induction s as [|c s IH]; [done|].
  intros d. cbn [NilEmpty.uint_of_string all_chars].
  destruct (NilEmpty.uint_of_string s) as [d'|] eqn:E.
  - rewrite (IH d' eq_refl), andb_true_r.
    destruct c as [[] [] [] [] [] [] [] []]; vm_compute;
      (reflexivity || discriminate).
  - destruct c as [[] [] [] [] [] [] [] []]; vm_compute; discriminate.
Qed.

Lemma number_string_parse (n : N) : parse_int (number_string n) = Some n.
Proof.
  unfold parse_int, number_string.
  assert (Hnn : N.to_uint n <> Decimal.Nil).
  { destruct n as [|p]; [discriminate|].
    apply DecimalPos.Unsigned.to_uint_nonnil. }
  assert (E : NilZero.string_of_uint (N.to_uint n)
              = NilEmpty.string_of_uint (N.to_uint n)).
  { by destruct (N.to_uint n). }
  rewrite E, NilEmpty.usu. cbn [fmap option_fmap option_map].
  f_equal. apply DecimalN.Unsigned.of_to.
Qed.

Lemma number_string_nonempty (n : N) : number_string n <> EmptyString.
Proof.
  unfold number_string.
  assert (Hnn : N.to_uint n <> Decimal.Nil).
  { destruct n as [|p]; [discriminate|].
    apply DecimalPos.Unsigned.to_uint_nonnil. }
  by destruct (N.to_uint n).
Qed.

Lemma number_string_digits (n : N) :
  all_chars is_digit (number_string n) = true.
Proof.
  pose proof (number_string_parse n) as H. unfold parse_int in H.
  destruct (NilEmpty.uint_of_string (number_string n)) as [d|] eqn:E;
    [|discriminate].
  by apply (uint_of_string_digits _ d).
Qed.

(** X18. Enter on a numbered list item continues the numbering.  When the
    text before the caret is white space, the digits of a number [n]
    (leading zeros allowed), a dot, one white space and an item that is
    not blank, Enter keeps that text on the line and opens a new line
    that starts with the same white space, the number [n + 1] in decimal,
    a dot and a space, followed by the text after the caret.  The new
    line is again matched as a list item with the same indent and its
    marker parses as [n + 1], so that the next Enter counts on. *)
Theorem enter_continues_numbering (st : State) (idx : Z)
    (ind ds rest after : string) (sp : ascii) (n : N)
    (Hidx : 0 <= idx < JS.arr_length (lines st))
    (Hind : all_chars is_space ind = true)
    (Hds : ds <> EmptyString)
    (Hn : parse_int ds = Some n)
    (Hmax : (n + 1 < 2 ^ 53)%N)
    (Hsp : is_space sp = true)
    (Hrest : all_chars is_space rest = false) :
  let before := (ind ++ ds ++ String "." (String sp rest))%string in
  let next := (ind ++ number_string (n + 1) ++ ". ")%string in
  exists st1,
    keydown_enter idx
      (mkTextarea (before ++ after) (JS.str_length before)
                  (JS.str_length before)) st = Some st1
    /\ lines st1 = take (Z.to_nat idx) (lines st)
                   ++ before :: (next ++ after)%string
                   :: drop (S (Z.to_nat idx)) (lines st)
    /\ list_match (next ++ after)
       = Some (mkListMatch next ind (number_string (n + 1) ++ "."))
    /\ parse_int (number_string (n + 1)) = Some (n + 1)%N.
Proof.
  intros before next.
  assert (Hdig : all_chars is_digit ds = true).
  { unfold parse_int in Hn.
    destruct (NilEmpty.uint_of_string ds) as [d|] eqn:E; [|discriminate].
    by apply (uint_of_string_digits _ d). }
  assert (Hm : list_match before
               = Some (mkListMatch
                         (ind ++ ds ++ String "." (String sp EmptyString))
                         ind (ds ++ "."))).
  { by apply list_match_numbered. }
  assert (Hd0 : exists d ds', ds = String d ds' /\ is_digit d = true).
  { destruct ds as [|d ds']; [done|]. exists d, ds'. split; [done|].
    cbn [all_chars] in Hdig. by apply andb_prop in Hdig as [-> _]. }
  destruct Hd0 as (d & ds' & Eds & Hd).
  assert (Hrest' : trimEnd rest <> EmptyString)
    by by apply trimEnd_nonempty.
  assert (Htrim : trim before
                  = (ds ++ String "." (String sp (trimEnd rest)))%string).
  { unfold trim, before. rewrite trimStart_app by done.
    assert (Hts : trimStart (ds ++ String "." (String sp rest))
                  = (ds ++ String "." (String sp rest))%string).
    { rewrite Eds.
      change (String d ds' ++ String "." (String sp rest))%string
        with (String d (ds' ++ String "." (String sp rest))).
      cbn [trimStart]. by rewrite (digit_not_space d Hd). }
    rewrite Hts.
    change (ds ++ String "." (String sp rest))%string
      with (ds ++ (String "." (String sp EmptyString) ++ rest))%string.
    rewrite <- string_app_assoc.
    rewrite trimEnd_app by done.
    by rewrite string_app_assoc. }
  assert (Hall : trim (ind ++ ds ++ String "." (String sp EmptyString))
                 = (ds ++ ".")%string).
  { unfold trim. rewrite trimStart_app by done.
    assert (Hts : trimStart (ds ++ String "." (String sp EmptyString))
                  = (ds ++ String "." (String sp EmptyString))%string).
    { rewrite Eds.
      change (String d ds' ++ String "." (String sp EmptyString))%string
        with (String d (ds' ++ String "." (String sp EmptyString))).
      cbn [trimStart]. by rewrite (digit_not_space d Hd). }
    rewrite Hts.
    assert (Hdot : trimEnd (String "." (String sp EmptyString))
                   = String "." EmptyString).
    { cbn [trimEnd]. by rewrite Hsp. }
    rewrite trimEnd_app; rewrite Hdot; done. }
  assert (Hneq : trim before <> (ds ++ ".")%string).
  { rewrite Htrim. intros E%string_app_inv_head.
    injection E as E. by destruct (trimEnd rest). }
  assert (Hnext : next_marker (mkListMatch
                     (ind ++ ds ++ String "." (String sp EmptyString))
                     ind (ds ++ "."))
                  = Some (number_string (n + 1) ++ ". ")%string).
  { unfold next_marker. cbn [lm_marker].
    rewrite take_while_app by done.
    cbn [take_while]. change (is_digit ".") with false. cbv iota.
    rewrite string_app_nil_r. rewrite Eds at 1. cbv iota.
    rewrite <- Eds, Hn.
    destruct (N.ltb_spec (n + 1) (2 ^ 53)); [done|lia]. }
  eexists. split.
  - unfold keydown_enter.
    destruct (Z.leb_spec 0 idx); [|lia].
    destruct (Z.ltb_spec idx (JS.arr_length (lines st))); [|lia].
    simpl andb. cbv iota. cbv zeta.
    cbn [value selectionStart].
    rewrite slice_app_prefix, slice_app_suffix, Hm.
    cbn [lm_all lm_indent lm_marker].
    rewrite Hall.
    rewrite !bool_decide_eq_false_2 by done.
    simpl orb. cbv iota.
    rewrite Hnext.
    rewrite split_lines by lia. reflexivity.
  - cbn [lines set_lines pushUndo].
    split; [|split].
    + unfold next. by rewrite !string_app_assoc.
    + unfold next. rewrite !string_app_assoc.
      change (". " ++ after)%string
        with (String "." (String " " after)).
      rewrite list_match_numbered;
        [ | done | apply number_string_nonempty
          | apply number_string_digits | reflexivity ].
      reflexivity.
    + apply number_string_parse.
Qed.

Lemma enter_continues_numbering_witness :
  exists st1,
    keydown_enter 0 (mkTextarea "  099. x yz"%string 9 9)
                  (init "  099. x yz"%string) = Some st1
    /\ lines st1 = ["  099. x "; "  100. yz"]%string.
Proof.
  assert (Hidx : 0 <= 0 < JS.arr_length (lines (init "  099. x yz"%string)))
    by (split; vm_compute; (reflexivity || discriminate)).
  assert (Hmax : (99 + 1 < 2 ^ 53)%N) by (vm_compute; reflexivity).
  assert (Hds : "099"%string <> EmptyString) by discriminate.
  destruct (enter_continues_numbering (init "  099. x yz"%string) 0
              "  "%string "099"%string "x "%string "yz"%string " "%char 99%N
              Hidx eq_refl Hds eq_refl Hmax eq_refl eq_refl)
    as (st1 & H1 & H2 & _).
  exists st1. split; [exact H1|exact H2].
Defined.

(** ** Enter on a bullet item *)

Lemma bullet_not_space (c : ascii) : is_bullet c = true -> is_space c = false.
Proof.
  destruct c as [[] [] [] [] [] [] [] []]; vm_compute;
    (reflexivity || discriminate).
Qed.

Lemma trimEnd_blank (s : string) :
  all_chars is_space s = true -> trimEnd s = EmptyString.
Proof.
  induction s as [|x s IH]; [done|].
  cbn [all_chars trimEnd]. intros [Hx Hs]%andb_prop.
  by rewrite IH, Hx.
Qed.

Lemma list_match_bullet (ind tail : string) (c sp : ascii) :
  all_chars is_space ind = true ->
  is_bullet c = true -> is_space sp = true ->
  list_match (ind ++ String c (String sp tail))
  = Some (mkListMatch (ind ++ String c (String sp EmptyString))
                      ind (String c EmptyString)).
Proof.
  intros Hind Hc Hsp. unfold list_match.
  rewrite take_while_app, drop_while_app by done.
  cbn [take_while drop_while]. rewrite (bullet_not_space c Hc).
  by rewrite string_app_nil_r, Hc, Hsp.
Qed.

(** X19. Enter on a bullet item.  When the text before the caret is white
    space, one of the bullets [-], [*], [+], one white space and the item
    text [rest]: if the item is blank, Enter empties the line, whatever
    follows the caret included, adds no line and leaves the history
    stacks and the commit timer as they were; otherwise it keeps the text
    before the caret on the line and opens a new line that starts with
    the same white space, the same bullet and a space, followed by the
    text after the caret. *)
Theorem enter_on_bullet_item (st : State) (idx : Z)
    (ind rest after : string) (c sp : ascii)
    (Hidx : 0 <= idx < JS.arr_length (lines st))
    (Hind : all_chars is_space ind = true)
    (Hc : is_bullet c = true)
    (Hsp : is_space sp = true) :
  let before := (ind ++ String c (String sp rest))%string in
  keydown_enter idx
    (mkTextarea (before ++ after) (JS.str_length before)
                (JS.str_length before)) st
  = Some (if all_chars is_space rest
          then set_lines (<[Z.to_nat idx := EmptyString]> (lines st)) st
          else pushUndo
                 (set_lines
                    (take (Z.to_nat idx) (lines st)
                     ++ before
                     :: (ind ++ String c (String " " after))%string
                     :: drop (S (Z.to_nat idx)) (lines st))
                    st)).
Proof.
  intros before.
  assert (Hcs : is_space c = false) by by apply bullet_not_space.
  assert (Hall : trim (ind ++ String c (String sp EmptyString))
                 = String c EmptyString).
  { unfold trim. rewrite trimStart_app by done.
    cbn [trimStart]. rewrite Hcs. cbn [trimEnd]. by rewrite Hsp, Hcs. }
  assert (Hts : trim before = trimEnd (String c (String sp rest))).
  { unfold trim, before. rewrite trimStart_app by done.
    cbn [trimStart]. by rewrite Hcs. }
  unfold keydown_enter.
  destruct (Z.leb_spec 0 idx); [|lia].
  destruct (Z.ltb_spec idx (JS.arr_length (lines st))); [|lia].
  simpl andb. cbv iota. cbv zeta.
  cbn [value selectionStart].
  rewrite slice_app_prefix, slice_app_suffix.
  unfold before at 1. rewrite list_match_bullet by done.
  cbn [lm_all lm_indent lm_marker]. rewrite Hall, Hts.
  destruct (all_chars is_space rest) eqn:Hrest.
  - assert (E : trimEnd (String c (String sp rest)) = String c EmptyString).
    { cbn [trimEnd]. rewrite (trimEnd_blank rest Hrest). by rewrite Hsp, Hcs. }
    rewrite E. by rewrite bool_decide_eq_true_2.
  - assert (E : trimEnd (String c (String sp rest)) <> String c EmptyString).
    { pose proof (trimEnd_nonempty rest Hrest) as Hne.
      cbn [trimEnd]. destruct (trimEnd rest); [done|]. discriminate. }
    rewrite !bool_decide_eq_false_2 by done.
    simpl orb. cbv iota.
    unfold next_marker. cbn [lm_marker take_while].
    assert (Hcd : is_digit c = false).
    { clear - Hc. destruct c as [[] [] [] [] [] [] [] []]; vm_compute;
        vm_compute in Hc; (reflexivity || discriminate). }
    rewrite Hcd. cbv iota.
    rewrite split_lines by lia. rewrite string_app_assoc. reflexivity.
Qed.

Lemma enter_on_bullet_item_witness :
  keydown_enter 0 (mkTextarea "- tail"%string 2 2) (init "- tail"%string)
  = Some (set_lines [EmptyString] (init "- tail"%string))
  /\ lines <$> keydown_enter 0 (mkTextarea "  * one two"%string 8 8)
                             (init "  * one two"%string)
     = Some ["  * one "; "  * two"]%string.
Proof.
  split.
  - assert (Hidx : 0 <= 0 < JS.arr_length (lines (init "- tail"%string)))
      by (split; vm_compute; (reflexivity || discriminate)).
    exact (enter_on_bullet_item (init "- tail"%string) 0
             EmptyString EmptyString "tail"%string "-"%char " "%char
             Hidx eq_refl eq_refl eq_refl).
  - assert (Hidx : 0 <= 0
                   < JS.arr_length (lines (init "  * one two"%string)))
      by (split; vm_compute; (reflexivity || discriminate)).
    pose proof (enter_on_bullet_item (init "  * one two"%string) 0
                  "  "%string "one "%string "two"%string "*"%char " "%char
                  Hidx eq_refl eq_refl eq_refl) as H.
    cbv zeta in H.
    change (JS.str_length ("  " ++ String "*" (String " " "one "))) with 8
      in H.
    change (("  " ++ String "*" (String " " "one ")) ++ "two")%string
      with "  * one two"%string in H.
    rewrite H. reflexivity.
Defined.

(** ** Pasting at the caret *)

Lemma split_aux_pieces (cur s : string) :
  no_newline cur = true ->
  Forall (fun l => no_newline l = true) (split_newline_aux cur s).
Proof.
  revert cur. induction s as [|c s IH]; intros cur Hcur.
  - by constructor.
  - cbn [split_newline_aux].
    destruct (Ascii.eqb c (ascii_of_nat 10)) eqn:Ec.
    + constructor; [done|]. by apply IH.
    + apply IH. rewrite no_newline_app, Hcur. cbn [no_newline].
      by rewrite Ec.
Qed.

Lemma join_newline_app (x y : list string) :
  x <> [] -> y <> [] ->
  join_newline (x ++ y)
  = (join_newline x ++ JS.newline ++ join_newline y)%string.
Proof.
  intros Hx Hy. induction x as [|a x IH]; [done|].
  destruct x as [|b x].
  - change ([a] ++ y) with (a :: y). by rewrite join_newline_cons.
  - change ((a :: b :: x) ++ y) with (a :: ((b :: x) ++ y)).
    rewrite join_newline_cons by done.
    rewrite IH by done.
    rewrite (join_newline_cons a (b :: x)) by done.
    by rewrite !string_app_assoc.
Qed.

Lemma join_newline_middle (a c m m' : list string) :
  m <> [] -> m' <> [] -> join_newline m = join_newline m' ->
  join_newline (a ++ m ++ c) = join_newline (a ++ m' ++ c).
Proof.
  intros Hm Hm' E.
  assert (Hmc : join_newline (m ++ c) = join_newline (m' ++ c)).
  { destruct c as [|z c]; [by rewrite !app_nil_r|].
    rewrite !join_newline_app by done. by rewrite E. }
  destruct a as [|z a]; [done|].
  assert (Hn : m ++ c <> []) by by destruct m.
  assert (Hn' : m' ++ c <> []) by by destruct m'.
  rewrite (join_newline_app (z :: a) (m ++ c)) by done.
  rewrite (join_newline_app (z :: a) (m' ++ c)) by done.
  by rewrite Hmc.
Qed.

(** X20. Paste inserts the text at the caret.  On an existing line
    [idx], with [before] the text of the textarea up to the selection
    start and [after] its text from the selection end, the paste replaces
    line [idx] by the pieces of [before + text + after] between its
    newlines; the saved document is then the one in which line [idx]
    reads [before + text + after], and no line of the document holds a
    newline character if none did before. *)
Theorem paste_inserts_at_caret (st : State) (text : string) (idx : Z)
    (raw : Textarea)
    (Hidx : 0 <= idx < JS.arr_length (lines st)) :
  let before := JS.slice (value raw) 0 (Some (selectionStart raw)) in
  let after := JS.slice (value raw) (selectionEnd raw) None in
  let full := (before ++ text ++ after)%string in
  exists st',
    insertTextAtCursor text idx raw st = Some st'
    /\ lines st' = take (Z.to_nat idx) (lines st) ++ split_newline full
                   ++ drop (S (Z.to_nat idx)) (lines st)
    /\ saved_content st' = join_newline (<[Z.to_nat idx := full]> (lines st))
    /\ (Forall (fun l => no_newline l = true) (lines st) ->
        Forall (fun l => no_newline l = true) (lines st')).
Proof.
  intros before after full.
  remember (split_newline full) as parts eqn:Hparts.
  assert (Hjoin : join_newline parts = full).
  { rewrite Hparts. unfold split_newline. by rewrite join_split_aux. }
  assert (Hne : parts <> []).
  { rewrite Hparts. apply split_newline_aux_nonempty. }
  assert (Hlines : insertTextAtCursor text idx raw st
                   = Some (pushUndo
                             (set_lines
                                (take (Z.to_nat idx) (lines st) ++ parts
                                 ++ drop (S (Z.to_nat idx)) (lines st))
                                st))).
  { unfold insertTextAtCursor. fold before after full. rewrite <- Hparts.
    destruct (Z.leb_spec 0 idx); [|lia].
    destruct (Z.ltb_spec idx (JS.arr_length (lines st))); [|lia].
    simpl andb. cbv iota.
    destruct (Z.eqb_spec (JS.arr_length parts) 1) as [H1|H1].
    - assert (Hp : parts = [full]).
      { clear Hparts. destruct parts as [|p [|q r]]; [done| |].
        - cbn [join_newline] in Hjoin. by rewrite Hjoin.
        - unfold JS.arr_length in H1. cbn [length] in H1. lia. }
      rewrite Hp. unfold JS.arr_length in *.
      by rewrite insert_take_drop by lia.
    - replace 1 with (idx - idx + 1) by lia.
      by rewrite splice_range by lia. }
  eexists. split; [exact Hlines|].
  cbn [lines set_lines pushUndo]. split; [reflexivity|]. split.
  - unfold saved_content. cbn [lines set_lines pushUndo].
    unfold JS.arr_length in *.
    rewrite insert_take_drop by lia.
    change (full :: drop (S (Z.to_nat idx)) (lines st))
      with ([full] ++ drop (S (Z.to_nat idx)) (lines st)).
    by apply join_newline_middle.
  - intros Hall.
    rewrite <- (take_drop (Z.to_nat idx) (lines st)) in Hall.
    apply Forall_app in Hall as [Ht Hd].
    apply Forall_app. split; [done|].
    apply Forall_app. split; [rewrite Hparts; by apply split_aux_pieces|].
    replace (S (Z.to_nat idx)) with (Z.to_nat idx + 1)%nat by lia.
    rewrite <- drop_drop. by apply Forall_drop.
Qed.

Lemma paste_inserts_at_caret_witness :
  exists st',
    insertTextAtCursor "X
Y"%string 1 (mkTextarea "def"%string 1 2) doc_abc = Some st'
    /\ lines st' = ["abc"; "dX"; "Yf"; "ghi"]%string.
Proof.
  assert (Hidx : 0 <= 1 < JS.arr_length (lines doc_abc))
    by (split; vm_compute; (reflexivity || discriminate)).
  destruct (paste_inserts_at_caret doc_abc "X
Y"%string 1 (mkTextarea "def"%string 1 2) Hidx)
    as (st' & H1 & H2 & _).
  exists st'. split; [exact H1|exact H2].
Defined.
